(** * Multimodal live console: session client, log store and audio paths

    A shallow embedding of the protocol core of the web console:
    - [src/multimodal-live-types.ts]  : the run-time type guards;
    - [src/lib/utils.ts]              : [blobToJSON], [base64ToArrayBuffer];
    - [src/lib/multimodal-live-client.ts] : [MultimodalLiveClient];
    - [src/lib/store-logger.ts]       : the capped log store;
    - the [AudioStreamer] class ([addPCM16]) and the recording worklet
      ([AudioProcessingWorklet.processChunk]).

    Values that the code receives as [unknown] (everything that comes out of
    [JSON.parse]) are JSON trees with the property-access rules of the
    language; what the code builds itself (outgoing frames) follows the
    declared TypeScript types.  Effects (events handed to listeners, calls on
    the socket, console output) are collected in order. *)

From Stdlib Require Import List String Ascii Bool Arith ZArith QArith Qround Lia Lqa.
From Stdlib Require Import Strings.Byte DecimalString.
Import ListNotations.

Set Warnings "-register-all,-abstract-large-number".


Close Scope Q_scope.
Local Open Scope list_scope.
Local Open Scope string_scope.

(* ================================================================== *)
(** ** JSON values and the property-access rules used by the code *)
(* ================================================================== *)

Module Json.

(** The result of [JSON.parse].  An object keeps its members in source
    order; when a key is repeated the last binding is the one that reads
    back, as in the platform.  Numbers are kept as exact rationals: the
    code only ever tests them for truthiness. *)
Inductive JsonValue : Type :=
| JNull
| JBool (b : bool)
| JNumber (q : Q)
| JString (s : string)
| JArray (items : list JsonValue)
| JObject (members : list (string * JsonValue)).

(** A JavaScript value that may be [undefined]. *)
Definition JsValue := option JsonValue.
Definition undefined : JsValue := None.

(** [typeof v]. *)
Definition typeof (v : JsValue) : string :=
  match v with
  | None => "undefined"
  | Some JNull => "object"
  | Some (JBool _) => "boolean"
  | Some (JNumber _) => "number"
  | Some (JString _) => "string"
  | Some (JArray _) => "object"
  | Some (JObject _) => "object"
  end.

(** Own member of an object, last binding first. *)
Fixpoint lookup (name : string) (ms : list (string * JsonValue)) : JsValue :=
  match ms with
  | [] => None
  | (k, v) :: rest =>
      match lookup name rest with
      | Some v' => Some v'
      | None => if String.eqb k name then Some v else None
      end
  end.

(** [name in v] for a non-null value of type "object".  The names the code
    asks for (setupComplete, serverContent, toolCall, modelTurn, ...) are
    neither inherited from a prototype nor array indices, so an array
    has none of them and an object has exactly its own members. *)
Definition has_property (name : string) (v : JsonValue) : bool :=
  match v with
  | JObject ms => match lookup name ms with Some _ => true | None => false end
  | _ => false
  end.

(** [v[name]] where the read cannot fail: primitives and arrays answer
    [undefined] for the names used here. *)
Definition member (name : string) (v : JsonValue) : JsValue :=
  match v with
  | JObject ms => lookup name ms
  | _ => None
  end.

(** Truthiness, as tested by [if (x)] and [&&]. *)
Definition truthy (v : JsValue) : bool :=
  match v with
  | None => false
  | Some JNull => false
  | Some (JBool b) => b
  | Some (JNumber q) => negb (Qeq_bool q 0%Q)
  | Some (JString s) => negb (String.eqb s EmptyString)
  | Some (JArray _) => true
  | Some (JObject _) => true
  end.

Definition is_null (v : JsonValue) : bool :=
  match v with JNull => true | _ => false end.

Definition isArray (v : JsValue) : bool :=
  match v with Some (JArray _) => true | _ => false end.

(** What can be thrown, or be the reason of a rejected promise. *)
Inductive Exn : Type :=
| Error (message : string)
| TypeError
| NotSupportedError
| InvalidCharacterError.

(** The result of running a piece of code: a value, or an exception (for
    an [async] function: a promise that resolves, or one that rejects). *)
Inductive outcome (A : Type) : Type :=
| Ok (a : A)
| Throw (e : Exn).
Arguments Ok {A} a.
Arguments Throw {A} e.

Definition obind {A B} (m : outcome A) (k : A -> outcome B) : outcome B :=
  match m with
  | Ok a => k a
  | Throw e => Throw e
  end.

(** [v.name]: reading a property of [null] or [undefined] throws. *)
Definition read (v : JsValue) (name : string) : outcome JsValue :=
  match v with
  | None => Throw TypeError
  | Some JNull => Throw TypeError
  | Some x => Ok (member name x)
  end.

(** [v.startsWith(prefix)]: only a string has the method; calling what is
    not a function throws. *)
Definition startsWith (v : JsValue) (pre : string) : outcome bool :=
  match v with
  | Some (JString s) => Ok (String.prefix pre s)
  | _ => Throw TypeError
  end.

(** [s.includes(needle)] on strings. *)
Definition includes (needle s : string) : bool :=
  match String.index 0 needle s with
  | Some _ => true
  | None => false
  end.

End Json.
Export Json.

(* ================================================================== *)
(** ** multimodal-live-types.ts: outgoing frames and type guards *)
(* ================================================================== *)

Module Types.

(** [Part] and [Content] of the generative-ai package: opaque to the
    client on the way out. *)
Definition Part := JsonValue.

Record Content : Type := { role : string; parts : list Part }.

Record GenerativeContentBlob : Type := { mimeType : string; data : string }.

Record LiveConfig : Type := {
  model : string;
  multimodalEnabled : option bool;
  temperature : option Q;
  maxOutputTokens : option Q;
  topP : option Q;
  topK : option Q;
  systemInstruction : option (list Part);
  generationConfig : option JsonValue;
  tools : option (list JsonValue)
}.

Record LiveFunctionResponse : Type := { response : JsonValue; id : string }.

Record ToolResponse : Type := { functionResponses : list LiveFunctionResponse }.

(** [LiveOutgoingMessage]: one constructor per top-level key. *)
Inductive LiveOutgoingMessage : Type :=
| SetupMessage (setup : LiveConfig)
| ClientContentMessage (turns : list Content) (turnComplete : bool)
| RealtimeInputMessage (mediaChunks : list GenerativeContentBlob)
| ToolResponseMessage (toolResponse : ToolResponse).

(** [prop(value, propName, kind = "object")]. *)
Definition prop (value : JsonValue) (propName : string) (kind : string) : bool :=
  negb (is_null value)
  && String.eqb (typeof (Some value)) "object"
  && has_property propName value
  && String.eqb (typeof (member propName value)) kind.

Definition isSetupCompleteMessage (value : JsonValue) : bool :=
  prop value "setupComplete" "object".

Definition isServerContenteMessage (value : JsonValue) : bool :=
  prop value "serverContent" "object".

Definition isToolCallMessage (value : JsonValue) : bool :=
  prop value "toolCall" "object".

(** [isToolCallCancellation(value)], on a value that may be undefined. *)
Definition isToolCallCancellation (value : JsValue) : bool :=
  match value with
  | None => false
  | Some v =>
      negb (is_null v)
      && String.eqb (typeof (Some v)) "object"
      && isArray (member "ids" v)
  end.

Definition isToolCallCancellationMessage (value : JsonValue) : bool :=
  prop value "toolCallCancellation" "object"
  && isToolCallCancellation (member "toolCallCancellation" value).

Definition isModelTurn (value : JsonValue) : bool :=
  negb (is_null value)
  && String.eqb (typeof (Some value)) "object"
  && has_property "modelTurn" value.

Definition isTurnComplete (value : JsonValue) : bool :=
  negb (is_null value)
  && String.eqb (typeof (Some value)) "object"
  && has_property "turnComplete" value
  && String.eqb (typeof (member "turnComplete" value)) "boolean".

Definition isInterrupted (value : JsonValue) : bool :=
  negb (is_null value)
  && String.eqb (typeof (Some value)) "object"
  && has_property "interrupted" value.

End Types.
Export Types.

(* ================================================================== *)
(** ** multimodal-live-client.ts: MultimodalLiveClient *)
(* ================================================================== *)

Module Client.

(** A socket object, known by its identity. *)
Definition WebSocket := nat.

(** [StreamingLog] as the client builds it ([date] is the wall clock and is
    left out). *)
Inductive LogMessage : Type :=
| LogText (s : string)
| LogOutgoing (m : LiveOutgoingMessage)
| LogIncoming (v : JsonValue).

Record StreamingLog : Type := { type : string; message : LogMessage }.

(** DOM events delivered by the socket. *)
Record Event : Type := { event_type : string }.
Record CloseEvent : Type := { close_type : string; reason : string }.

(** [MultimodalLiveClientEventTypes]. *)
Inductive ClientEvent : Type :=
| EvOpen
| EvLog (log : StreamingLog)
| EvClose (event : CloseEvent)
| EvAudio (data : list byte)
| EvContent (data : JsonValue)
| EvInterrupted
| EvSetupComplete
| EvTurnComplete
| EvToolCall (toolCall : JsValue)
| EvToolCallCancellation (toolcallCancellation : JsValue).

(** What the client does to the outside, in the order it does it.  The
    listeners that [emit] calls belong to the application: they are taken to
    return normally and not to call back into the client while it runs. *)
Inductive Effect : Type :=
| Emit (e : ClientEvent)                               (* this.emit(...) *)
| WsSend (w : WebSocket) (request : LiveOutgoingMessage)  (* w.send(JSON.stringify(request)) *)
| WsClose (w : WebSocket)                               (* w.close() *)
| RemoveErrorListener (w : WebSocket)
| AddCloseListener (w : WebSocket)
| ConsoleWarn (text : string) (v : JsValue).

(** The fields of the class. *)
Record Client : Type := {
  ws : option WebSocket;
  config : option LiveConfig;
  url : string
}.

Definition reconnectAttempts : nat := 3.
Definition reconnectDelay : nat := 1000.

(** Code of the class: reads and writes the fields, produces effects,
    returns or throws.  After a throw the fields and the effects produced
    so far stay as they are. *)
Definition M (A : Type) : Type := Client -> outcome A * Client * list Effect.

Definition ret {A} (a : A) : M A := fun c => (Ok a, c, []).

Definition bind {A B} (m : M A) (k : A -> M B) : M B :=
  fun c =>
    match m c with
    | (Ok a, c1, e1) =>
        match k a c1 with
        | (r, c2, e2) => (r, c2, (e1 ++ e2)%list)
        end
    | (Throw e, c1, e1) => (Throw e, c1, e1)
    end.

Definition throw {A} (e : Exn) : M A := fun c => (Throw e, c, []).
Definition effect (e : Effect) : M unit := fun c => (Ok tt, c, [e]).
Definition emit (e : ClientEvent) : M unit := effect (Emit e).
Definition gets {A} (f : Client -> A) : M A := fun c => (Ok (f c), c, []).
Definition set_ws (w : option WebSocket) : M unit :=
  fun c => (Ok tt, {| ws := w; config := config c; url := url c |}, []).
Definition set_config (cfg : option LiveConfig) : M unit :=
  fun c => (Ok tt, {| ws := ws c; config := cfg; url := url c |}, []).
Definition lift {A} (o : outcome A) : M A := fun c => (o, c, []).

Declare Scope client_scope.
Delimit Scope client_scope with client.
Notation "x <- m ;; k" := (bind m (fun x => k))
  (at level 61, m at next level, right associativity) : client_scope.
Notation "m ;; k" := (bind m (fun _ => k))
  (at level 61, right associativity) : client_scope.
Local Open Scope client_scope.

(** Results, fields and effects of a run. *)
Definition result {A} (r : outcome A * Client * list Effect) : outcome A := fst (fst r).
Definition after {A} (r : outcome A * Client * list Effect) : Client := snd (fst r).
Definition effects {A} (r : outcome A * Client * list Effect) : list Effect := snd r.

(** The double quote character, for template strings that contain one. *)
Definition dquote : string := String (ascii_of_nat 34) EmptyString.

Definition decimal (n : nat) : string := NilEmpty.string_of_uint (Nat.to_uint n).

Definition defaultUrl : string :=
  "wss://generativelanguage.googleapis.com/ws/google.ai.generativelanguage.v1alpha.GenerativeService.BidiGenerateContent".

(** [constructor({ url, apiKey })]: an absent or empty [url] is falsy. *)
Definition constructor (url : option string) (apiKey : string) : Client :=
  {| ws := None;
     config := None;
     url := match url with
            | Some (String a u) => String a u ++ "?key=" ++ apiKey
            | _ => defaultUrl ++ "?key=" ++ apiKey
            end |}.

Definition getConfig (c : Client) : option LiveConfig := config c.

(** [log(type, message)]. *)
Definition log (type : string) (message : LogMessage) : M unit :=
  emit (EvLog {| type := type; message := message |}).

(** [_sendDirect(request)]. *)
Definition _sendDirect (request : LiveOutgoingMessage) : M unit :=
  w <- gets ws ;;
  match w with
  | None => throw (Error "WebSocket is not connected")
  | Some w => effect (WsSend w request)
  end.

(** [disconnect(ws?)]: the test [(!ws || this.ws === ws) && this.ws] holds
    when a socket is stored and the argument is absent or is that socket. *)
Definition disconnect (w : option WebSocket) : M bool :=
  this_ws <- gets ws ;;
  match this_ws with
  | Some cur =>
      if match w with None => true | Some w' => Nat.eqb cur w' end then
        effect (WsClose cur) ;;
        set_ws None ;;
        log "client.close" (LogText "Disconnected") ;;
        ret true
      else ret false
  | None => ret false
  end.


(** [parseCloseReason(reason)]. *)
Definition lower (a : ascii) : ascii :=
  let n := nat_of_ascii a in
  if ((65 <=? n)%nat && (n <=? 90)%nat)%bool then ascii_of_nat (n + 32) else a.

Fixpoint toLowerCase (s : string) : string :=
  match s with
  | EmptyString => EmptyString
  | String a rest => String (lower a) (toLowerCase rest)
  end.

(** [s.slice(n)]. *)
Fixpoint slice_from (n : nat) (s : string) : string :=
  match n, s with
  | O, _ => s
  | S n', String _ rest => slice_from n' rest
  | S _, EmptyString => EmptyString
  end.

Definition parseCloseReason (reason : string) : string :=
  if negb (includes "error" (toLowerCase reason)) then reason
  else
    let prelude := "ERROR]" in
    match String.index 0 prelude reason with
    | Some (S preludeIndex') =>
        slice_from (S preludeIndex' + String.length prelude + 1) reason
    | _ => reason
    end.

(** The [onError] listener of [establishConnection]; its result is the
    reason the attempt's promise is rejected with. *)
Definition onError (w : WebSocket) (ev : Event) : M Exn :=
  disconnect (Some w) ;;
  u <- gets url ;;
  let message := "Connection failed to " ++ dquote ++ u ++ dquote in
  log ("server." ++ event_type ev) (LogText message) ;;
  ret (Error message).

(** How a listener settles the promise of [establishConnection]. *)
Inductive Settle : Type :=
| Resolve (value : bool)
| Reject (reason : Exn).

(** The listener returned by [handleOpenConnection(ws, onError, resolve, reject)]. *)
Definition handleOpenConnection (w : WebSocket) (ev : Event) : M Settle :=
  cfg <- gets config ;;
  match cfg with
  | None => ret (Reject (Error "Invalid config provided to connect()"))
  | Some cfg =>
      log ("client." ++ event_type ev) (LogText "Connected to socket") ;;
      emit EvOpen ;;
      set_ws (Some w) ;;
      let setupMessage := SetupMessage cfg in
      _sendDirect setupMessage ;;
      log "client.send" (LogText "setup") ;;
      effect (RemoveErrorListener w) ;;
      effect (AddCloseListener w) ;;
      ret (Resolve true)
  end.

(** The listener returned by [handleCloseConnection(ws)]. *)
Definition handleCloseConnection (w : WebSocket) (ev : CloseEvent) : M unit :=
  disconnect (Some w) ;;
  let reason := parseCloseReason (reason ev) in
  log ("server." ++ close_type ev)
      (LogText ("Disconnected " ++
                match reason with
                | EmptyString => EmptyString
                | _ => "with reason: " ++ reason
                end)) ;;
  emit (EvClose ev).

(** [analyzeMediaTypes(chunks)] and [formatMediaMessage]. *)
Definition analyzeMediaTypes (chunks : list GenerativeContentBlob) : bool * bool :=
  fold_left
    (fun types chunk =>
       (fst types || includes "audio" (mimeType chunk),
        snd types || includes "image" (mimeType chunk)))
    chunks (false, false).

Definition formatMediaMessage (types : bool * bool) : string :=
  let (hasAudio, hasVideo) := types in
  if hasAudio && hasVideo then "audio + video"
  else if hasAudio then "audio"
  else if hasVideo then "video"
  else "unknown".

(** [sendRealtimeInput(chunks)]. *)
Definition sendRealtimeInput (chunks : list GenerativeContentBlob) : M unit :=
  let mediaTypes := analyzeMediaTypes chunks in
  let message := formatMediaMessage mediaTypes in
  let data := RealtimeInputMessage chunks in
  _sendDirect data ;;
  log "client.realtimeInput" (LogText message).

(** [sendToolResponse(toolResponse)]. *)
Definition sendToolResponse (toolResponse : ToolResponse) : M unit :=
  let message := ToolResponseMessage toolResponse in
  _sendDirect message ;;
  log "client.toolResponse" (LogOutgoing message).

(** [send(parts, turnComplete = true)]: [parts] is one part or an array. *)
Definition send (parts : Part + list Part) (turnComplete : bool) : M unit :=
  let content :=
    {| role := "user";
       parts := match parts with inl p => [p] | inr ps => ps end |} in
  let clientContentRequest := ClientContentMessage [content] turnComplete in
  _sendDirect clientContentRequest ;;
  log "client.send" (LogOutgoing clientContentRequest).


(* ---------------------------------------------------------------- *)
(** *** The receive path *)

(** The payload of a message event.  A blob either yields its text or
    fails to be read. *)
Inductive Blob : Type :=
| Readable (text : string)
| Unreadable.

Inductive MessageData : Type :=
| BlobData (blob : Blob)
| OtherData.

(** An element of an array that [JSON.parse] built.  Objects and arrays are
    compared by identity; the parser allocates one per slot, so the slot
    number stands for the identity of what the slot holds. *)
Definition Element : Type := nat * JsonValue.

Definition elements (items : list JsonValue) : list Element :=
  combine (seq 0 (List.length items)) items.

(** The comparison lodash uses in [difference]: primitives by value,
    objects and arrays by identity. *)
Definition SameValueZero (a b : Element) : bool :=
  match snd a, snd b with
  | JNull, JNull => true
  | JBool x, JBool y => Bool.eqb x y
  | JNumber x, JNumber y => Qeq_bool x y
  | JString x, JString y => String.eqb x y
  | JArray _, JArray _ => Nat.eqb (fst a) (fst b)
  | JObject _, JObject _ => Nat.eqb (fst a) (fst b)
  | _, _ => false
  end.

(** lodash [difference(array, values)]. *)
Definition difference (array values : list Element) : list Element :=
  filter (fun a => negb (existsb (SameValueZero a) values)) array.

(** [array.filter(f)] with a callback that may throw. *)
Fixpoint filter_array {A} (f : A -> outcome bool) (l : list A) : outcome (list A) :=
  match l with
  | [] => Ok []
  | x :: rest =>
      obind (f x) (fun keep =>
      obind (filter_array f rest) (fun kept =>
      Ok (if keep then x :: kept else kept)))
  end.

(** The callback [p => p.inlineData?.mimeType.startsWith("audio/pcm")];
    an [undefined] answer counts as false for [filter]. *)
Definition isAudioPart (p : JsonValue) : outcome bool :=
  obind (read (Some p) "inlineData") (fun inlineData =>
  match inlineData with
  | None => Ok false
  | Some JNull => Ok false
  | Some _ =>
      obind (read inlineData "mimeType") (fun mimeType =>
      startsWith mimeType "audio/pcm")
  end).

(** [separateContentParts(parts)]; [parts.filter] needs an array. *)
Definition separateContentParts (parts : JsValue)
  : outcome (list Element * list Element) :=
  match parts with
  | Some (JArray items) =>
      let parts := elements items in
      obind (filter_array (fun p => isAudioPart (snd p)) parts) (fun audioParts =>
      let otherParts := difference parts audioParts in
      Ok (audioParts, otherParts))
  | _ => Throw TypeError
  end.

(** [part.inlineData?.data]. *)
Definition inlineData_data (part : JsonValue) : outcome JsValue :=
  obind (read (Some part) "inlineData") (fun inlineData =>
  match inlineData with
  | None => Ok None
  | Some JNull => Ok None
  | Some _ => read inlineData "data"
  end).

Section Browser.

(** [JSON.parse]: [None] when it throws a SyntaxError. *)
Variable JSON_parse : string -> option JsonValue.

(** [atob], which converts its argument to a string first: [None] when
    it throws. *)
Variable atob : JsonValue -> option string.

(** utils.ts [blobToJSON(blob)]. *)
Definition blobToJSON (blob : Blob) : outcome JsonValue :=
  match blob with
  | Readable text =>
      match JSON_parse text with
      | Some json => Ok json
      | None => Throw (Error "Failed to parse blob as JSON")
      end
  | Unreadable => Throw (Error "Failed to read blob")
  end.

(** utils.ts [base64ToArrayBuffer(base64)]: the bytes are the character
    codes of the binary string. *)
Definition base64ToArrayBuffer (base64 : JsonValue) : outcome (list byte) :=
  match atob base64 with
  | Some binaryString => Ok (list_byte_of_string binaryString)
  | None => Throw InvalidCharacterError
  end.

(** [processAudioParts(audioParts)]. *)
Fixpoint processAudioParts (audioParts : list Element) : M unit :=
  match audioParts with
  | [] => ret tt
  | part :: rest =>
      d <- lift (inlineData_data (snd part)) ;;
      match d with
      | Some base64 =>
          if truthy d then
            data <- lift (base64ToArrayBuffer base64) ;;
            emit (EvAudio data) ;;
            log "server.audio"
                (LogText ("buffer (" ++ decimal (List.length data) ++ ")"))
          else ret tt
      | None => ret tt
      end ;;
      processAudioParts rest
  end.

(** [processModelTurn(modelTurn)]. *)
Definition processModelTurn (modelTurn : JsValue) : M unit :=
  parts <- lift (read modelTurn "parts") ;;
  sep <- lift (separateContentParts parts) ;;
  let (audioParts, otherParts) := sep in
  processAudioParts audioParts ;;
  match otherParts with
  | [] => ret tt
  | _ :: _ =>
      let content :=
        JObject [("modelTurn", JObject [("parts", JArray (map snd otherParts))])] in
      emit (EvContent content) ;;
      log "server.content" (LogIncoming (JObject [("serverContent", content)]))
  end.

Definition handleToolCall (response : JsonValue) : M unit :=
  log "server.toolCall" (LogIncoming response) ;;
  emit (EvToolCall (member "toolCall" response)).

Definition handleToolCallCancellation (response : JsonValue) : M unit :=
  log "receive.toolCallCancellation" (LogIncoming response) ;;
  emit (EvToolCallCancellation (member "toolCallCancellation" response)).

Definition handleSetupComplete : M unit :=
  log "server.send" (LogText "setupComplete") ;;
  emit EvSetupComplete.

(** [handleServerContent(response)]. *)
Definition handleServerContent (response : JsonValue) : M unit :=
  match member "serverContent" response with
  | Some serverContent =>
      if isInterrupted serverContent then
        log "receive.serverContent" (LogText "interrupted") ;;
        emit EvInterrupted
      else
        (if isTurnComplete serverContent then
           log "server.send" (LogText "turnComplete") ;;
           emit EvTurnComplete
         else ret tt) ;;
        (if isModelTurn serverContent then
           processModelTurn (member "modelTurn" serverContent)
         else ret tt)
  | None => ret tt
  end.

(** [receive(blob)]. *)
Definition receive (blob : Blob) : M unit :=
  response <- lift (blobToJSON blob) ;;
  if isToolCallMessage response then handleToolCall response
  else if isToolCallCancellationMessage response then
    handleToolCallCancellation response
  else if isSetupCompleteMessage response then handleSetupComplete
  else if isServerContenteMessage response then handleServerContent response
  else effect (ConsoleWarn "Received unmatched message:" (Some response)).

(** The message listener installed by [establishConnection]. *)
Definition onMessage (data : MessageData) : M unit :=
  match data with
  | BlobData blob => receive blob
  | OtherData => effect (ConsoleWarn "Received non-blob message:" None)
  end.

(* -------------------------------------------------------------- *)
(** *** The client on the event loop

    [connect] and [establishConnection] suspend across the handshake
    and the retry delay.  Their pieces run as callbacks of the socket
    and of the timer, interleaved with calls from the application. *)

Inductive ReadyState : Type := CONNECTING | OPEN | CLOSING | CLOSED.

(** A socket made by [establishConnection]: the attempt of [connect] it
    belongs to, its state, whether the promise of the attempt is settled,
    and which of the removable listeners are installed. *)
Record Socket : Type := {
  attempt : nat;
  readyState : ReadyState;
  settled : bool;
  error_listener : bool;
  close_listener : bool
}.

(** The client, every socket made so far (a socket is known by its
    position), and the retry delays that are running, each with the
    number of the attempt it will start. *)
Record World : Type := {
  client : Client;
  sockets : list Socket;
  timers : list nat
}.

Inductive Action : Type :=
| CallConnect (cfg : LiveConfig)
| CallDisconnect
| CallSend (parts : Part + list Part) (turnComplete : bool)
| CallSendRealtimeInput (chunks : list GenerativeContentBlob)
| CallSendToolResponse (toolResponse : ToolResponse)
| SocketOpen (w : WebSocket) (ev : Event)
| SocketError (w : WebSocket) (ev : Event)
| SocketClose (w : WebSocket) (ev : CloseEvent)
| SocketMessage (w : WebSocket) (data : MessageData)
| TimerFires.

(** What an observer sees of one action. *)
Inductive Observation : Type :=
| Did (e : Effect)
| Raised (e : Exn)               (* thrown to the caller, or an unhandled rejection *)
| ConnectResolved (value : bool)
| ConnectRejected (reason : Exn).

Definition update_socket (w : WebSocket) (f : Socket -> Socket)
           (l : list Socket) : list Socket :=
  map (fun p => if Nat.eqb (fst p) w then f (snd p) else snd p)
      (combine (seq 0 (List.length l)) l).

(** What the calls made on sockets and their listeners change. *)
Definition apply_effect (l : list Socket) (e : Effect) : list Socket :=
  match e with
  | WsClose w =>
      update_socket w (fun s =>
        {| attempt := attempt s;
           readyState := match readyState s with CLOSED => CLOSED | _ => CLOSING end;
           settled := settled s;
           error_listener := error_listener s;
           close_listener := close_listener s |}) l
  | RemoveErrorListener w =>
      update_socket w (fun s =>
        {| attempt := attempt s; readyState := readyState s; settled := settled s;
           error_listener := false; close_listener := close_listener s |}) l
  | AddCloseListener w =>
      update_socket w (fun s =>
        {| attempt := attempt s; readyState := readyState s; settled := settled s;
           error_listener := error_listener s; close_listener := true |}) l
  | _ => l
  end.

Definition set_readyState (w : WebSocket) (st : ReadyState) (l : list Socket) :=
  update_socket w (fun s =>
    {| attempt := attempt s; readyState := st; settled := settled s;
       error_listener := error_listener s; close_listener := close_listener s |}) l.

Definition set_settled (w : WebSocket) (l : list Socket) :=
  update_socket w (fun s =>
    {| attempt := attempt s; readyState := readyState s; settled := true;
       error_listener := error_listener s; close_listener := close_listener s |}) l.

(** Run a piece of the client in a world. *)
Definition exec {A} (m : M A) (wd : World) : outcome A * World * list Observation :=
  match m (client wd) with
  | (r, c, effs) =>
      (r,
       {| client := c;
          sockets := fold_left apply_effect effs (sockets wd);
          timers := timers wd |},
       map Did effs)
  end.

(** A call from the application: an exception goes to the caller. *)
Definition call {A} (m : M A) (wd : World) : World * list Observation :=
  match exec m wd with
  | (Ok _, wd', obs) => (wd', obs)
  | (Throw e, wd', obs) => (wd', (obs ++ [Raised e])%list)
  end.

(** [establishConnection()]: a fresh socket with the message, error and
    open listeners on it. *)
Definition establishConnection (n : nat) (wd : World) : World :=
  {| client := client wd;
     sockets := (sockets wd ++
                 [{| attempt := n; readyState := CONNECTING; settled := false;
                     error_listener := true; close_listener := false |}])%list;
     timers := timers wd |}.

(** The promise of an attempt settles, and [connect] goes on: it returns
    on success, rethrows after the last attempt, and otherwise waits for
    the delay before the next attempt.  Settling twice does nothing. *)
Definition settle (w : WebSocket) (s : Settle) (wd : World)
  : World * list Observation :=
  match nth_error (sockets wd) w with
  | Some sock =>
      if settled sock then (wd, [])
      else
        let wd' := {| client := client wd;
                      sockets := set_settled w (sockets wd);
                      timers := timers wd |} in
        match s with
        | Resolve value => (wd', [ConnectResolved value])
        | Reject e =>
            if Nat.eqb (attempt sock) reconnectAttempts
            then (wd', [ConnectRejected e])
            else ({| client := client wd';
                     sockets := sockets wd';
                     timers := (timers wd' ++ [S (attempt sock)])%list |}, [])
        end
  | None => (wd, [])
  end.

(** [connect(config)] up to the first suspension. *)
Definition connect (cfg : LiveConfig) (wd : World) : World * list Observation :=
  match exec (set_config (Some cfg)) wd with
  | (_, wd', obs) => (establishConnection 1 wd', obs)
  end.

(** One turn of the event loop.  The platform delivers [open] to a
    connecting socket only, messages to an open socket only, [close]
    once, and calls only the listeners that are installed. *)
Definition step (a : Action) (wd : World) : World * list Observation :=
  match a with
  | CallConnect cfg => connect cfg wd
  | CallDisconnect => call (disconnect None) wd
  | CallSend parts turnComplete => call (send parts turnComplete) wd
  | CallSendRealtimeInput chunks => call (sendRealtimeInput chunks) wd
  | CallSendToolResponse r => call (sendToolResponse r) wd
  | SocketOpen w ev =>
      match nth_error (sockets wd) w with
      | Some {| readyState := CONNECTING |} =>
          let wd0 := {| client := client wd;
                        sockets := set_readyState w OPEN (sockets wd);
                        timers := timers wd |} in
          match exec (handleOpenConnection w ev) wd0 with
          | (Ok s, wd1, obs) =>
              let (wd2, obs2) := settle w s wd1 in (wd2, (obs ++ obs2)%list)
          | (Throw e, wd1, obs) => (wd1, (obs ++ [Raised e])%list)
          end
      | _ => (wd, [])
      end
  | SocketError w ev =>
      match nth_error (sockets wd) w with
      | Some sock =>
          if error_listener sock then
            match exec (onError w ev) wd with
            | (Ok e, wd1, obs) =>
                let (wd2, obs2) := settle w (Reject e) wd1 in (wd2, (obs ++ obs2)%list)
            | (Throw e, wd1, obs) => (wd1, (obs ++ [Raised e])%list)
            end
          else (wd, [])
      | None => (wd, [])
      end
  | SocketClose w ev =>
      match nth_error (sockets wd) w with
      | Some sock =>
          match readyState sock with
          | CLOSED => (wd, [])
          | _ =>
              let wd0 := {| client := client wd;
                            sockets := set_readyState w CLOSED (sockets wd);
                            timers := timers wd |} in
              if close_listener sock
              then call (handleCloseConnection w ev) wd0
              else (wd0, [])
          end
      | None => (wd, [])
      end
  | SocketMessage w data =>
      match nth_error (sockets wd) w with
      | Some {| readyState := OPEN |} => call (onMessage data) wd
      | _ => (wd, [])
      end
  | TimerFires =>
      match timers wd with
      | n :: rest =>
          (establishConnection n
             {| client := client wd; sockets := sockets wd; timers := rest |}, [])
      | [] => (wd, [])
      end
  end.

(** A run: every action with what it showed, oldest first. *)
Fixpoint run (actions : list Action) (wd : World)
  : list (Action * list Observation) * World :=
  match actions with
  | [] => ([], wd)
  | a :: rest =>
      let (wd1, obs) := step a wd in
      let (history, wd2) := run rest wd1 in
      ((a, obs) :: history, wd2)
  end.

Definition start (c : Client) : World :=
  {| client := c; sockets := []; timers := [] |}.

(** The frames sent on socket [w], in order. *)
Fixpoint frames_on (w : WebSocket) (obs : list Observation)
  : list LiveOutgoingMessage :=
  match obs with
  | [] => []
  | Did (WsSend w' request) :: rest =>
      if Nat.eqb w' w then request :: frames_on w rest else frames_on w rest
  | _ :: rest => frames_on w rest
  end.

Definition observations (history : list (Action * list Observation))
  : list Observation :=
  flat_map snd history.

End Browser.

End Client.

(* ================================================================== *)
(** ** store-logger.ts: the capped, de-duplicating log store *)
(* ================================================================== *)

Module Logger.

(** The [message] of a log entry is a string or an object; [===] compares
    strings by value and objects by identity, so an object is kept as its
    address. *)
Inductive Message : Type :=
| MsgString (s : string)
| MsgObject (address : nat).

Definition strict_equal (a b : Message) : bool :=
  match a, b with
  | MsgString x, MsgString y => String.eqb x y
  | MsgObject i, MsgObject j => Nat.eqb i j
  | _, _ => false
  end.

Record StreamingLog : Type := {
  date : Z;
  type : string;
  count : option nat;
  message : Message
}.

Record StoreLoggerState : Type := {
  maxLogs : Z;
  logs : list StreamingLog
}.

Definition initial : StoreLoggerState := {| maxLogs := 500; logs := [] |}.

(** [array.slice(start)]: a negative start counts from the end; the
    start is clamped to the array. *)
Definition slice {A} (start : Z) (l : list A) : list A :=
  let len := Z.of_nat (List.length l) in
  let k := if (start <? 0)%Z then Z.max (len + start) 0 else Z.min start len in
  skipn (Z.to_nat k) l.

(** [array.at(-1)]. *)
Definition at_last {A} (l : list A) : option A :=
  match l with
  | [] => None
  | x :: rest => Some (last rest x)
  end.

(** [log(streamingLog)]. *)
Definition log (streamingLog : StreamingLog) (state : StoreLoggerState)
  : StoreLoggerState :=
  let append :=
    {| maxLogs := maxLogs state;
       logs := (slice (- (maxLogs state - 1)) (logs state) ++ [streamingLog])%list |} in
  match at_last (logs state) with
  | Some prevLog =>
      let isLogDuplicate :=
        String.eqb (type prevLog) (type streamingLog)
        && strict_equal (message prevLog) (message streamingLog) in
      if isLogDuplicate then
        {| maxLogs := maxLogs state;
           logs := (removelast (logs state) ++
                    [{| date := date prevLog;
                        type := type prevLog;
                        count := Some (match count prevLog with
                                       | Some n => n
                                       | None => 0
                                       end + 1);
                        message := message prevLog |}])%list |}
      else append
  | None => append
  end.

Definition clearLogs (state : StoreLoggerState) : StoreLoggerState :=
  {| maxLogs := maxLogs state; logs := [] |}.

Definition setMaxLogs (n : Z) (state : StoreLoggerState) : StoreLoggerState :=
  {| maxLogs := n; logs := logs state |}.

End Logger.

(* ================================================================== *)
(** ** AudioStreamer: playback of received PCM *)
(* ================================================================== *)

Module Streamer.

(** 32-bit integer arithmetic of the bitwise operators. *)
Definition ToInt32 (z : Z) : Z := ((z + 2 ^ 31) mod 2 ^ 32 - 2 ^ 31)%Z.
Definition shl (a n : Z) : Z := ToInt32 (Z.shiftl (ToInt32 a) n).
Definition bor (a b : Z) : Z := ToInt32 (Z.lor (ToInt32 a) (ToInt32 b)).

(** [data[i]] of a [Uint8Array], in a bitwise operation: a byte, or
    [undefined] past the end, which the operator reads as 0. *)
Definition byte_at (data : list byte) (i : nat) : Z :=
  match nth_error data i with
  | Some b => Z.of_N (Byte.to_N b)
  | None => 0%Z
  end.

(** [array[i] = v] on a typed array: a write past the end is ignored. *)
Fixpoint set_nth {A} (i : nat) (v : A) (l : list A) {struct l} : list A :=
  match l, i with
  | [], _ => []
  | _ :: rest, O => v :: rest
  | x :: rest, S i' => x :: set_nth i' v rest
  end.

(** An [AudioBuffer] with one channel.  Every sample written by
    [addPCM16] is an integer below 2^16 over 2^15, which a 32-bit float
    holds exactly, so the channel is kept as rationals. *)
Record AudioBuffer : Type := {
  numberOfChannels : nat;
  sampleRate : Z;
  channel : list Q
}.

Inductive Destination : Type := ToWorklet | ToGain.

(** The fields of the class that [addPCM16] and [stop] use: whether a
    worklet node is installed, and the current source (sources are known
    by the order of their creation). *)
Record AudioStreamer : Type := {
  workletNode : bool;
  pcmSource : option nat;
  created : nat
}.

Inductive AudioEffect : Type :=
| SourceStop (source : nat)
| SourceStart (source : nat) (buffer : AudioBuffer) (into : Destination).

(** [context.createBuffer(numberOfChannels, length, sampleRate)]: the
    length, a number that need not be whole, is cut to an integer; a buffer
    of no frames is refused. *)
Definition createBuffer (channels : nat) (length : Q) (rate : Z)
  : outcome AudioBuffer :=
  match Z.to_nat (Qfloor length) with
  | O => Throw NotSupportedError
  | frames =>
      Ok {| numberOfChannels := channels; sampleRate := rate;
            channel := repeat 0%Q frames |}
  end.

(** The loop [for (let i = 0; i < data.length; i += 2)] of [addPCM16]:
    iteration [k] has [i = 2 * k]. *)
Definition decode (data : list byte) (channel : list Q) : list Q :=
  fold_left
    (fun channel k =>
       let i := (2 * k)%nat in
       let sample := bor (shl (byte_at data i) 8) (byte_at data (i + 1)) in
       set_nth (i / 2) (sample # 32768)%Q channel)
    (seq 0 ((List.length data + 1) / 2))
    channel.

(** [addPCM16(data)]. *)
Definition addPCM16 (data : list byte) (s : AudioStreamer)
  : outcome (AudioStreamer * list AudioEffect) :=
  obind (createBuffer 1 (Z.of_nat (List.length data) # 2)%Q 48000%Z) (fun buffer =>
  let buffer :=
    {| numberOfChannels := numberOfChannels buffer;
       sampleRate := sampleRate buffer;
       channel := decode data (channel buffer) |} in
  let stopped :=
    match pcmSource s with
    | Some old => [SourceStop old]
    | None => []
    end in
  let source := created s in
  Ok ({| workletNode := workletNode s;
         pcmSource := Some source;
         created := S source |},
      (stopped ++
       [SourceStart source buffer (if workletNode s then ToWorklet else ToGain)])%list)).

(** [stop()]. *)
Definition stop (s : AudioStreamer) : AudioStreamer * list AudioEffect :=
  match pcmSource s with
  | Some old =>
      ({| workletNode := workletNode s; pcmSource := None; created := created s |},
       [SourceStop old])
  | None => (s, [])
  end.

(** A signed PCM sample: the 16-bit pattern, high byte first, read as a
    two's-complement number. *)
Definition signed16 (hi lo : byte) : Z :=
  let u := (Z.of_N (Byte.to_N hi) * 256 + Z.of_N (Byte.to_N lo))%Z in
  if (u <? 32768)%Z then u else (u - 65536)%Z.

End Streamer.

(* ================================================================== *)
(** ** AudioProcessingWorklet: capture of microphone samples *)
(* ================================================================== *)

Module Worklet.

Definition BUFFER_SIZE : nat := 2048.
Definition INT16_MAX : Z := 32767.

(** [Math.round]: the nearest integer, a tie going up. *)
Definition Math_round (x : Q) : Z := Qfloor (x + (1 # 2))%Q.

(** A store into an [Int16Array] wraps to 16 bits. *)
Definition ToInt16 (z : Z) : Z := ((z + 32768) mod 65536 - 32768)%Z.

(** Rounding to the nearest integer with a tie going away from zero. *)
Definition round_half_away (x : Q) : Z :=
  if Qle_bool 0 x then Qfloor (x + (1 # 2))%Q else Qceiling (x - (1 # 2))%Q.

(** The fields of the processor.  A sample of the input is a 32-bit float;
    its product with 32767 is exact in double precision, so samples are
    kept as rationals. *)
Record AudioProcessingWorklet : Type := {
  buffer : list Z;
  bufferWriteIndex : nat;
  isReceivingAudio : bool
}.

Definition initial : AudioProcessingWorklet :=
  {| buffer := repeat 0%Z BUFFER_SIZE; bufferWriteIndex := 0; isReceivingAudio := false |}.

(** [sendAndClearBuffer()]: the second component is the chunk posted to
    the main thread, if any. *)
Definition sendAndClearBuffer (w : AudioProcessingWorklet)
  : AudioProcessingWorklet * list (list Z) :=
  if (0 <? bufferWriteIndex w)%nat then
    ({| buffer := buffer w; bufferWriteIndex := 0;
        isReceivingAudio := isReceivingAudio w |},
     [firstn (bufferWriteIndex w) (buffer w)])
  else (w, []).

(** One iteration of the loop of [processChunk]. *)
Definition processSample (acc : AudioProcessingWorklet * list (list Z)) (x : Q)
  : AudioProcessingWorklet * list (list Z) :=
  let (w, posted) := acc in
  let conversionFactor := INT16_MAX in
  let w1 :=
    {| buffer := Streamer.set_nth (bufferWriteIndex w)
                   (ToInt16 (Math_round (x * inject_Z conversionFactor)%Q))
                   (buffer w);
       bufferWriteIndex := S (bufferWriteIndex w);
       isReceivingAudio := isReceivingAudio w |} in
  if (List.length (buffer w1) <=? bufferWriteIndex w1)%nat then
    let (w2, chunk) := sendAndClearBuffer w1 in (w2, (posted ++ chunk)%list)
  else (w1, posted).

(** [processChunk(float32Array)]. *)
Definition processChunk (float32Array : list Q) (w : AudioProcessingWorklet)
  : AudioProcessingWorklet * list (list Z) :=
  fold_left processSample float32Array (w, []).

(** [process(inputs)]. *)
Definition process (inputs : list (list (list Q))) (w : AudioProcessingWorklet)
  : AudioProcessingWorklet * list (list Z) :=
  match inputs with
  | (channel0 :: _) :: _ =>
      processChunk channel0
        {| buffer := buffer w; bufferWriteIndex := bufferWriteIndex w;
           isReceivingAudio := true |}
  | _ =>
      if isReceivingAudio w then
        let w1 := {| buffer := buffer w; bufferWriteIndex := bufferWriteIndex w;
                     isReceivingAudio := false |} in
        if (0 <? bufferWriteIndex w1)%nat then sendAndClearBuffer w1 else (w1, [])
      else (w, [])
  end.

End Worklet.

(* ================================================================== *)
(** ** The two platform functions the client calls

    [JSON.parse] and [atob] belong to the browser.  The client is stated over
    any pair of such functions; the ones below follow the JSON grammar
    (RFC 8259) and the forgiving base64 decoding, and serve to run the
    client on concrete frames. *)
(* ================================================================== *)

Module Platform.

Definition code (a : ascii) : nat := nat_of_ascii a.

Definition is_space (a : ascii) : bool :=
  let n := code a in
  (Nat.eqb n 32 || Nat.eqb n 9 || Nat.eqb n 10 || Nat.eqb n 13)%bool.

Fixpoint skip_ws (s : string) : string :=
  match s with
  | String a rest => if is_space a then skip_ws rest else s
  | EmptyString => s
  end.

Definition is_digit (a : ascii) : bool :=
  ((48 <=? code a)%nat && (code a <=? 57)%nat)%bool.

Definition hex_value (a : ascii) : option nat :=
  let n := code a in
  if is_digit a then Some (n - 48)
  else if ((65 <=? n)%nat && (n <=? 70)%nat)%bool then Some (n - 55)
  else if ((97 <=? n)%nat && (n <=? 102)%nat)%bool then Some (n - 87)
  else None.

(** A run of digits: its value after [acc], how many there were, and what
    follows. *)
Fixpoint digits (acc : Z) (n : nat) (s : string) : Z * nat * string :=
  match s with
  | String a rest =>
      if is_digit a
      then digits (acc * 10 + Z.of_nat (code a - 48))%Z (S n) rest
      else (acc, n, s)
  | EmptyString => (acc, n, s)
  end.

(** The UTF-8 bytes of a code unit given by a \u escape. *)
Definition utf8 (u : nat) : string :=
  if (u <? 128)%nat then String (ascii_of_nat u) EmptyString
  else if (u <? 2048)%nat then
    String (ascii_of_nat (192 + u / 64))
      (String (ascii_of_nat (128 + u mod 64)) EmptyString)
  else
    String (ascii_of_nat (224 + u / 4096))
      (String (ascii_of_nat (128 + (u / 64) mod 64))
         (String (ascii_of_nat (128 + u mod 64)) EmptyString)).

Definition escape (a : ascii) : option ascii :=
  let n := code a in
  if Nat.eqb n 34 then Some a                      (* quote *)
  else if Nat.eqb n 92 then Some a                 (* backslash *)
  else if Nat.eqb n 47 then Some a                 (* slash *)
  else if Nat.eqb n 98 then Some (ascii_of_nat 8)    (* b *)
  else if Nat.eqb n 102 then Some (ascii_of_nat 12)  (* f *)
  else if Nat.eqb n 110 then Some (ascii_of_nat 10)  (* n *)
  else if Nat.eqb n 114 then Some (ascii_of_nat 13)  (* r *)
  else if Nat.eqb n 116 then Some (ascii_of_nat 9)   (* t *)
  else None.

(** The characters of a string literal after its opening quote. *)
Fixpoint parse_chars (s : string) : option (string * string) :=
  match s with
  | EmptyString => None
  | String c rest =>
      if Nat.eqb (code c) 34 then Some (EmptyString, rest)
      else if Nat.eqb (code c) 92 then
        match rest with
        | String e rest1 =>
            match escape e with
            | Some ch =>
                match parse_chars rest1 with
                | Some (str, r) => Some (String ch str, r)
                | None => None
                end
            | None =>
                if Nat.eqb (code e) 117 then
                  match rest1 with
                  | String h1 (String h2 (String h3 (String h4 rest2))) =>
                      match hex_value h1, hex_value h2, hex_value h3, hex_value h4 with
                      | Some a, Some b, Some c', Some d =>
                          match parse_chars rest2 with
                          | Some (str, r) =>
                              Some (utf8 (((a * 16 + b) * 16 + c') * 16 + d) ++ str, r)
                          | None => None
                          end
                      | _, _, _, _ => None
                      end
                  | _ => None
                  end
                else None
            end
        | EmptyString => None
        end
      else if (code c <? 32)%nat then None
      else
        match parse_chars rest with
        | Some (str, r) => Some (String c str, r)
        | None => None
        end
  end.

Definition pow10 (n : nat) : Z := (10 ^ Z.of_nat n)%Z.

(** A number literal at the head of [s]. *)
Definition parse_number (s : string) : option (Q * string) :=
  let (negative, s1) :=
    match s with
    | String a rest => if Nat.eqb (code a) 45 then (true, rest) else (false, s)
    | EmptyString => (false, s)
    end in
  let int_part :=
    match s1 with
    | String a rest =>
        if Nat.eqb (code a) 48 then Some (0%Z, rest)
        else if is_digit a then
          match digits 0 0 s1 with (v, _, r) => Some (v, r) end
        else None
    | EmptyString => None
    end in
  match int_part with
  | None => None
  | Some (i, s2) =>
      let frac_part :=
        match s2 with
        | String a rest =>
            if Nat.eqb (code a) 46 then
              match digits i 0 rest with
              | (_, O, _) => None
              | (v, n, r) => Some (v, n, r)
              end
            else Some (i, O, s2)
        | EmptyString => Some (i, O, s2)
        end in
      match frac_part with
      | None => None
      | Some (m, scale, s3) =>
          let exp_part :=
            match s3 with
            | String a rest =>
                if (Nat.eqb (code a) 101 || Nat.eqb (code a) 69)%bool then
                  let (minus, rest1) :=
                    match rest with
                    | String sg r =>
                        if Nat.eqb (code sg) 45 then (true, r)
                        else if Nat.eqb (code sg) 43 then (false, r)
                        else (false, rest)
                    | EmptyString => (false, rest)
                    end in
                  match digits 0 0 rest1 with
                  | (_, O, _) => None
                  | (v, _, r) => Some (if minus then (- v)%Z else v, r)
                  end
                else Some (0%Z, s3)
            | EmptyString => Some (0%Z, s3)
            end in
          match exp_part with
          | None => None
          | Some (e, s4) =>
              let m := if negative then (- m)%Z else m in
              let shift := (e - Z.of_nat scale)%Z in
              let q :=
                if (0 <=? shift)%Z then ((m * 10 ^ shift) # 1)%Q
                else (m # Z.to_pos (10 ^ (- shift)))%Q in
              Some (q, s4)
          end
      end
  end.

Definition expect (lit : string) (v : JsonValue) (s : string)
  : option (JsonValue * string) :=
  if String.prefix lit s
  then Some (v, Client.slice_from (String.length lit) s)
  else None.

(** A value at the head of [s], then the items of an array after its
    bracket, and the members of an object after its brace. *)
Fixpoint parse_value (fuel : nat) (s : string) {struct fuel}
  : option (JsonValue * string) :=
  match fuel with
  | O => None
  | S fuel' =>
      match skip_ws s with
      | EmptyString => None
      | String c rest =>
          let n := code c in
          if Nat.eqb n 110 then expect "null" JNull (String c rest)
          else if Nat.eqb n 116 then expect "true" (JBool true) (String c rest)
          else if Nat.eqb n 102 then expect "false" (JBool false) (String c rest)
          else if Nat.eqb n 34 then
            match parse_chars rest with
            | Some (str, r) => Some (JString str, r)
            | None => None
            end
          else if Nat.eqb n 91 then
            match skip_ws rest with
            | String c1 r1 =>
                if Nat.eqb (code c1) 93 then Some (JArray [], r1)
                else
                  match parse_items fuel' (String c1 r1) with
                  | Some (items, r) => Some (JArray items, r)
                  | None => None
                  end
            | EmptyString => None
            end
          else if Nat.eqb n 123 then
            match skip_ws rest with
            | String c1 r1 =>
                if Nat.eqb (code c1) 125 then Some (JObject [], r1)
                else
                  match parse_members fuel' (String c1 r1) with
                  | Some (members, r) => Some (JObject members, r)
                  | None => None
                  end
            | EmptyString => None
            end
          else
            match parse_number (String c rest) with
            | Some (q, r) => Some (JNumber q, r)
            | None => None
            end
      end
  end

with parse_items (fuel : nat) (s : string) {struct fuel}
  : option (list JsonValue * string) :=
  match fuel with
  | O => None
  | S fuel' =>
      match parse_value fuel' s with
      | Some (v, r) =>
          match skip_ws r with
          | String c r1 =>
              if Nat.eqb (code c) 93 then Some ([v], r1)
              else if Nat.eqb (code c) 44 then
                match parse_items fuel' r1 with
                | Some (vs, r2) => Some (v :: vs, r2)
                | None => None
                end
              else None
          | EmptyString => None
          end
      | None => None
      end
  end

with parse_members (fuel : nat) (s : string) {struct fuel}
  : option (list (string * JsonValue) * string) :=
  match fuel with
  | O => None
  | S fuel' =>
      match skip_ws s with
      | String q r0 =>
          if Nat.eqb (code q) 34 then
            match parse_chars r0 with
            | Some (key, r) =>
                match skip_ws r with
                | String colon r1 =>
                    if Nat.eqb (code colon) 58 then
                      match parse_value fuel' r1 with
                      | Some (v, r2) =>
                          match skip_ws r2 with
                          | String c r3 =>
                              if Nat.eqb (code c) 125 then Some ([(key, v)], r3)
                              else if Nat.eqb (code c) 44 then
                                match parse_members fuel' r3 with
                                | Some (ms, r4) => Some ((key, v) :: ms, r4)
                                | None => None
                                end
                              else None
                          | EmptyString => None
                          end
                      | None => None
                      end
                    else None
                | EmptyString => None
                end
            | None => None
            end
          else None
      | EmptyString => None
      end
  end.

(** [JSON.parse(text)]: one value, with nothing but white space around. *)
Definition JSON_parse (text : string) : option JsonValue :=
  match parse_value (2 * String.length text + 2) text with
  | Some (v, rest) =>
      match skip_ws rest with
      | EmptyString => Some v
      | _ => None
      end
  | None => None
  end.

(** *** atob *)

Definition is_ascii_whitespace (a : ascii) : bool :=
  let n := code a in
  (Nat.eqb n 9 || Nat.eqb n 10 || Nat.eqb n 12 || Nat.eqb n 13 || Nat.eqb n 32)%bool.

Definition sextet (a : ascii) : option nat :=
  let n := code a in
  if ((65 <=? n)%nat && (n <=? 90)%nat)%bool then Some (n - 65)
  else if ((97 <=? n)%nat && (n <=? 122)%nat)%bool then Some (n - 71)
  else if is_digit a then Some (n + 4)
  else if Nat.eqb n 43 then Some 62
  else if Nat.eqb n 47 then Some 63
  else None.

Fixpoint sextets (l : list ascii) : option (list nat) :=
  match l with
  | [] => Some []
  | a :: rest =>
      match sextet a, sextets rest with
      | Some v, Some vs => Some (v :: vs)
      | _, _ => None
      end
  end.

Fixpoint octets (fuel : nat) (l : list nat) : list nat :=
  match fuel with
  | O => []
  | S fuel' =>
      match l with
      | a :: b :: c :: d :: rest =>
          (a * 4 + b / 16) :: ((b mod 16) * 16 + c / 4) :: ((c mod 4) * 64 + d)
          :: octets fuel' rest
      | [a; b; c] => [a * 4 + b / 16; (b mod 16) * 16 + c / 4]
      | [a; b] => [a * 4 + b / 16]
      | _ => []
      end
  end.

Definition is_equals (a : ascii) : bool := Nat.eqb (code a) 61.

(** Forgiving base64 decoding of a string. *)
Definition decode_base64 (s : string) : option string :=
  let chars := filter (fun a => negb (is_ascii_whitespace a)) (list_ascii_of_string s) in
  let chars :=
    if Nat.eqb (List.length chars mod 4) 0 then
      match rev chars with
      | a :: b :: rest =>
          if is_equals a then
            if is_equals b then rev rest else rev (b :: rest)
          else chars
      | _ => chars
      end
    else chars in
  if Nat.eqb (List.length chars mod 4) 1 then None
  else
    match sextets chars with
    | Some vs =>
        Some (string_of_list_ascii (map ascii_of_nat (octets (List.length vs) vs)))
    | None => None
    end.

(** [atob(v)].  A string is decoded; the conversion of other values to a
    string is not reproduced, and they are refused. *)
Definition atob (v : JsonValue) : option string :=
  match v with
  | JString s => decode_base64 s
  | _ => None
  end.

End Platform.

(* ================================================================== *)
(** ** Vocabulary of the statements *)
(* ================================================================== *)

Import Client.
Local Open Scope client_scope.

(** The client after its socket reference is cleared. *)
Definition clear_socket (c : Client) : Client :=
  {| ws := None; config := config c; url := url c |}.

(** The log entry [disconnect] emits. *)
Definition close_log : Effect :=
  Emit (EvLog {| type := "client.close"; message := LogText "Disconnected" |}).

Definition interrupted_log : Effect :=
  Emit (EvLog {| type := "receive.serverContent"; message := LogText "interrupted" |}).

Definition turnComplete_log : Effect :=
  Emit (EvLog {| type := "server.send"; message := LogText "turnComplete" |}).

(** A frame with a complete turn and a model turn of one text part:
    {"serverContent": {"turnComplete": true, "modelTurn": {"parts": [{"text": "hi"}]}}}. *)
Definition text_part : JsonValue := JObject [("text", JString "hi")].

Definition turn_content : JsonValue :=
  JObject [("turnComplete", JBool true);
           ("modelTurn", JObject [("parts", JArray [text_part])])].

Definition turn_frame : JsonValue := JObject [("serverContent", turn_content)].

(** An inline-data part {"inlineData": {"mimeType": m, "data": d}}. *)
Definition inline_part (m d : string) : JsonValue :=
  JObject [("inlineData", JObject [("mimeType", JString m); ("data", JString d)])].

(** Whether the audio test of [separateContentParts] accepts a part (false
    also where the test throws). *)
Definition is_audio (p : JsonValue) : bool :=
  match isAudioPart p with
  | Ok b => b
  | Throw _ => false
  end.

Definition not_audio (p : JsonValue) : bool := negb (is_audio p).

(** The declared type [Part], as far as the client reads it: an object
    whose [inlineData], when present, is a blob with a string [mimeType] and
    a string [data]. *)
Definition is_blob (v : JsonValue) : bool :=
  match member "mimeType" v, member "data" v with
  | Some (JString _), Some (JString _) => true
  | _, _ => false
  end.

Definition is_Part (p : JsonValue) : bool :=
  match p with
  | JObject _ =>
      match member "inlineData" p with
      | None => true
      | Some d => is_blob d
      end
  | _ => false
  end.

(** The [data] of a part, where it can be read. *)
Definition data_of (p : JsonValue) : JsValue :=
  match inlineData_data p with
  | Ok d => d
  | Throw _ => None
  end.

(** A part whose [data] passes the guard of [processAudioParts]. *)
Definition has_data (p : JsonValue) : bool := truthy (data_of p).

(** A part whose [data], if it passes the guard, is accepted by [atob]. *)
Definition decodable (atob : JsonValue -> option string) (p : JsonValue) : bool :=
  match data_of p with
  | Some v => if truthy (Some v) then
                match atob v with Some _ => true | None => false end
              else true
  | None => true
  end.

(** What one audio part shows: an audio event with the decoded bytes and
    its log entry, or nothing when the guard fails. *)
Definition audio_effects (atob : JsonValue -> option string) (p : JsonValue)
  : list Effect :=
  match data_of p with
  | Some v =>
      if truthy (Some v) then
        match atob v with
        | Some binaryString =>
            let data := list_byte_of_string binaryString in
            [Emit (EvAudio data);
             Emit (EvLog {| type := "server.audio";
                            message := LogText ("buffer (" ++ decimal (List.length data)
                                                ++ ")") |})]
        | None => []
        end
      else []
  | None => []
  end.

(** The content event for the parts that are left, and its log entry. *)
Definition content_of (others : list JsonValue) : JsonValue :=
  JObject [("modelTurn", JObject [("parts", JArray others)])].

Definition content_effects (others : list JsonValue) : list Effect :=
  match others with
  | [] => []
  | _ :: _ =>
      [Emit (EvContent (content_of others));
       Emit (EvLog {| type := "server.content";
                      message := LogIncoming
                                   (JObject [("serverContent", content_of others)]) |})]
  end.

Definition is_audio_event (e : Effect) : bool :=
  match e with Emit (EvAudio _) => true | _ => false end.

Definition is_content_event (e : Effect) : bool :=
  match e with Emit (EvContent _) => true | _ => false end.

Definition count_events (f : Effect -> bool) (effs : list Effect) : nat :=
  List.length (filter f effs).

(** The audio tests of a list of parts, in order, up to the first throw. *)
Fixpoint classify (items : list JsonValue) : outcome (list bool) :=
  match items with
  | [] => Ok []
  | p :: rest =>
      obind (isAudioPart p) (fun b =>
      obind (classify rest) (fun bs => Ok (b :: bs)))
  end.

(** The elements of a list picked by a list of flags. *)
Fixpoint select {A} (bs : list bool) (l : list A) : list A :=
  match bs, l with
  | b :: bs', x :: l' => if b then x :: select bs' l' else select bs' l'
  | _, _ => []
  end.

(** [processAudioParts] on parts, whatever slots they came from. *)
Definition processAudioValues (atob : JsonValue -> option string)
           (ps : list JsonValue) : M unit :=
  processAudioParts atob (map (fun p => (0, p)) ps).

(** The last step of [processModelTurn]. *)
Definition emitContent (others : list JsonValue) : M unit :=
  match others with
  | [] => ret tt
  | _ :: _ =>
      emit (EvContent (content_of others)) ;;
      log "server.content"
          (LogIncoming (JObject [("serverContent", content_of others)]))
  end.

Definition is_object (v : JsonValue) : bool :=
  match v with JObject _ => true | _ => false end.

(** A model turn with the given parts. *)
Definition model_turn (items : list JsonValue) : JsonValue :=
  JObject [("parts", JArray items)].

(** A text part, an audio part with two bytes of payload, and an image. *)
Definition mixed_parts : list JsonValue :=
  [text_part; inline_part "audio/pcm;rate=24000" "AAE="; inline_part "image/jpeg" "AAE="].

(** The frames an effect list hands to socket [w]. *)
Fixpoint sends (w : WebSocket) (effs : list Effect) : list LiveOutgoingMessage :=
  match effs with
  | [] => []
  | WsSend w' request :: rest =>
      if Nat.eqb w' w then request :: sends w rest else sends w rest
  | _ :: rest => sends w rest
  end.

(** Effects that touch no socket: events for the listeners and console
    output. *)
Definition is_passive (e : Effect) : bool :=
  match e with
  | Emit _ => true
  | ConsoleWarn _ _ => true
  | _ => false
  end.

(** Passive effects other than the setupcomplete event. *)
Definition is_quiet (e : Effect) : bool :=
  match e with
  | Emit EvSetupComplete => false
  | Emit _ => true
  | ConsoleWarn _ _ => true
  | _ => false
  end.

(** Every effect of a piece of code satisfies [P]. *)
Definition only (P : Effect -> bool) {A} (m : M A) : Prop :=
  forall c, forallb P (effects (m c)) = true.

(** A piece of code leaves the fields of the client as they are. *)
Definition keeps {A} (m : M A) : Prop :=
  forall c, after (m c) = c.

(** What one turn of the event loop may do to the frames of socket [w]:
    nothing, or send on the stored socket, or start with a setup frame; and
    a socket becomes the stored one only with a frame sent on it. *)
Definition frames_step (c : Client) (obs : list Observation) (c1 : Client) : Prop :=
  forall w,
    (frames_on w obs = []
     \/ ws c = Some w
     \/ exists cfg rest, frames_on w obs = SetupMessage cfg :: rest)
    /\ (ws c1 = Some w -> ws c = Some w \/ frames_on w obs <> []).

(** The frames of every socket start with a setup frame, and the stored
    socket has had a frame. *)
Definition frames_invariant (c : Client) (obs : list Observation) : Prop :=
  forall w,
    (frames_on w obs = []
     \/ exists cfg rest, frames_on w obs = SetupMessage cfg :: rest)
    /\ (ws c = Some w -> frames_on w obs <> []).

Definition open_event : Event := {| event_type := "open" |}.

Definition example_config : LiveConfig :=
  {| model := "models/gemini-2.0-flash-exp";
     multimodalEnabled := Some false;
     temperature := None; maxOutputTokens := None; topP := None; topK := None;
     systemInstruction := None; generationConfig := None; tools := None |}.

(** The text of the frame {"setupComplete":{}}. *)
Definition setupComplete_text : string :=
  "{" ++ dquote ++ "setupComplete" ++ dquote ++ ":{}}".

(** A piece of the client that sends on the stored socket at most, stores no
    new socket, and emits no setupcomplete. *)
Definition tame {A} (m : M A) : Prop :=
  forall c w,
    (sends w (effects (m c)) = [] \/ ws c = Some w)
    /\ (ws (after (m c)) = Some w -> ws c = Some w)
    /\ ~ In (Emit EvSetupComplete) (effects (m c)).

(** A piece of the client that leaves the stored config as it is. *)
Definition keeps_config {A} (m : M A) : Prop :=
  forall c, config (after (m c)) = config c.

(** A world in which a config is stored as soon as a socket or a retry
    timer exists. *)
Definition configured (wd : World) : Prop :=
  (sockets wd = [] /\ timers wd = []) \/ config (client wd) <> None.

(** The worlds a freshly built client can be in. *)
Definition reachable JSON_parse atob (wd : World) : Prop :=
  exists (url : option string) (apiKey : string) (actions : list Action),
    wd = snd (run JSON_parse atob actions (start (constructor url apiKey))).

(** A short session: connect, the socket opens, the server confirms the
    setup, the application sends a text part. *)
Definition session : list Action :=
  [CallConnect example_config;
   SocketOpen 0 open_event;
   SocketMessage 0 (BlobData (Readable setupComplete_text));
   CallSend (inl text_part) true].

(** A log entry with a text message, as a component hands it to the store. *)
Definition text_entry (type message : string) : Logger.StreamingLog :=
  {| Logger.date := 0; Logger.type := type; Logger.count := None;
     Logger.message := Logger.MsgString message |}.

(** The entry that replaces [prev] when a duplicate of it arrives. *)
Definition counted_again (prev : Logger.StreamingLog) : Logger.StreamingLog :=
  {| Logger.date := Logger.date prev;
     Logger.type := Logger.type prev;
     Logger.count := Some (match Logger.count prev with Some n => n | None => 0 end + 1);
     Logger.message := Logger.message prev |}.

(** Whether the store would merge [entry] into [prev]. *)
Definition duplicate_of (prev entry : Logger.StreamingLog) : bool :=
  String.eqb (Logger.type prev) (Logger.type entry)
  && Logger.strict_equal (Logger.message prev) (Logger.message entry).

(** A streamer with nothing playing and no worklet installed. *)
Definition idle_streamer : Streamer.AudioStreamer :=
  {| Streamer.workletNode := false; Streamer.pcmSource := None; Streamer.created := 0 |}.

(** The conversion of one sample by [processChunk]. *)
Definition converted (x : Q) : Z :=
  Worklet.ToInt16 (Worklet.Math_round (x * inject_Z Worklet.INT16_MAX)%Q).

(** The samples written since the last flush. *)
Definition pending (w : Worklet.AudioProcessingWorklet) : list Z :=
  firstn (Worklet.bufferWriteIndex w) (Worklet.buffer w).

(** The buffer has its capacity and is not full. *)
Definition ready (w : Worklet.AudioProcessingWorklet) : Prop :=
  List.length (Worklet.buffer w) = Worklet.BUFFER_SIZE
  /\ Worklet.bufferWriteIndex w < Worklet.BUFFER_SIZE.

(** Every exception a piece of the client can end with satisfies [P]. *)
Definition throws_only (P : Exn -> Prop) {A} (m : M A) : Prop :=
  forall c e, result (m c) = Throw e -> P e.

(** The two exceptions the handling of a model turn can end with. *)
Definition model_turn_error (e : Exn) : Prop :=
  e = TypeError \/ e = InvalidCharacterError.

(** An observation of a turn that touches no socket. *)
Definition is_passive_observation (o : Observation) : bool :=
  match o with
  | Did e => is_passive e
  | Raised _ => true
  | _ => false
  end.

(** The value of an object member that [typeof] calls an object. *)
Definition typeof_object (v : JsonValue) : bool :=
  match v with
  | JNull => true
  | JArray _ => true
  | JObject _ => true
  | _ => false
  end.

(** A frame whose serverContent is null:
    {"serverContent": null}. *)
Definition null_content_frame : JsonValue := JObject [("serverContent", JNull)].

(** A frame whose model turn is null:
    {"serverContent": {"modelTurn": null}}. *)
Definition null_turn_text : string :=
  "{" ++ dquote ++ "serverContent" ++ dquote ++ ":{" ++ dquote ++ "modelTurn"
      ++ dquote ++ ":null}}".

(** The top-level keys [receive] looks for. *)
Definition recognised_keys : list string :=
  ["toolCall"; "toolCallCancellation"; "setupComplete"; "serverContent"].

(** The log entry of the close listener for a close event. *)
Definition close_event_log (ev : CloseEvent) : Effect :=
  Emit (EvLog {| type := "server." ++ close_type ev;
                 message :=
                   LogText ("Disconnected " ++
                            match parseCloseReason (reason ev) with
                            | EmptyString => EmptyString
                            | _ => "with reason: " ++ parseCloseReason (reason ev)
                            end) |}).

(** The message of the error listener, and its log entry. *)
Definition connection_failed (c : Client) : string :=
  "Connection failed to " ++ dquote ++ url c ++ dquote.

Definition error_event_log (c : Client) (ev : Event) : Effect :=
  Emit (EvLog {| type := "server." ++ event_type ev;
                 message := LogText (connection_failed c) |}).

(** Socket [w] is the one the client has stored. *)
Definition is_stored (w : WebSocket) (c : Client) : bool :=
  match ws c with
  | Some cur => Nat.eqb cur w
  | None => false
  end.

(** A socket that is open, with the error listener removed and the close
    listener installed. *)
Definition linked (s : Socket) : bool :=
  match readyState s with
  | OPEN => negb (error_listener s) && close_listener s
  | _ => false
  end.

(** The stored socket, if any, is a socket of the world and is linked. *)
Definition stored_socket_open (wd : World) : bool :=
  match ws (client wd) with
  | None => true
  | Some w =>
      match nth_error (sockets wd) w with
      | Some s => linked s
      | None => false
      end
  end.

(** An effect that is a call on socket [i] or on its listeners. *)
Definition touches (i : WebSocket) (e : Effect) : bool :=
  match e with
  | WsClose w => Nat.eqb w i
  | RemoveErrorListener w => Nat.eqb w i
  | AddCloseListener w => Nat.eqb w i
  | _ => false
  end.

(** A piece of the client that either forgets the stored socket or leaves it
    stored and makes no call on it. *)
Definition spares_stored {A} (m : M A) : Prop :=
  forall c,
    ws (after (m c)) = None
    \/ (ws (after (m c)) = ws c
        /\ forall w, ws c = Some w ->
                     forallb (fun e => negb (touches w e)) (effects (m c)) = true).


(** The world after a connect call and the open event of its socket. *)
Definition opened_world : World :=
  snd (run Platform.JSON_parse Platform.atob
           [CallConnect example_config; SocketOpen 0 open_event]
           (start (constructor None "key"))).

(** Every socket belongs to one of the attempts 1 to [reconnectAttempts],
    and every running delay is for one of the attempts after the first. *)
Definition attempt_in_range (s : Socket) : bool :=
  (1 <=? attempt s)%nat && (attempt s <=? reconnectAttempts)%nat.

Definition retry_in_range (n : nat) : bool :=
  (2 <=? n)%nat && (n <=? reconnectAttempts)%nat.

Definition attempts_bounded (wd : World) : bool :=
  forallb attempt_in_range (sockets wd) && forallb retry_in_range (timers wd).

(** The world after a connect call whose three attempts have failed but for
    the last error event. *)
Definition error_event : Event := {| event_type := "error" |}.


(** The attempts a socket can still cause: none once its promise is settled. *)
Definition debt (s : Socket) : nat :=
  if settled s then 0 else reconnectAttempts - attempt s.

(** The sockets made so far and the sockets that can still be made without
    another call of connect. *)
Definition potential (wd : World) : nat :=
  list_sum (map (fun s => 1 + debt s) (sockets wd))
  + list_sum (map (fun n => S reconnectAttempts - n) (timers wd)).

(** The calls of connect among the actions. *)
Definition connects (actions : list Action) : nat :=
  List.length (filter (fun a => match a with CallConnect _ => true | _ => false end)
                      actions).

(** The store after a sequence of [log] calls, oldest call first. *)
Definition log_all (entries : list Logger.StreamingLog)
           (state : Logger.StoreLoggerState) : Logger.StoreLoggerState :=
  fold_left (fun st entry => Logger.log entry st) entries state.

(** The number a merged entry counts from: [prevLog.count || 0]. *)
Definition count_or_zero (entry : Logger.StreamingLog) : nat :=
  match Logger.count entry with
  | Some n => n
  | None => 0
  end.

(** [entry] after [k] more occurrences of it have been merged into it. *)
Definition merged (k : nat) (entry : Logger.StreamingLog) : Logger.StreamingLog :=
  match k with
  | O => entry
  | S _ =>
      {| Logger.date := Logger.date entry;
         Logger.type := Logger.type entry;
         Logger.count := Some (count_or_zero entry + k);
         Logger.message := Logger.message entry |}
  end.

(** The 16-bit pattern of frame [i] of [data], high byte first, read
    without a sign. *)
Definition unsigned16 (data : list byte) (i : nat) : Z :=
  (256 * Streamer.byte_at data (2 * i) + Streamer.byte_at data (2 * i + 1))%Z.

(** The buffer [addPCM16] plays for [data]. *)
Definition decoded (data : list byte) : Streamer.AudioBuffer :=
  {| Streamer.numberOfChannels := 1;
     Streamer.sampleRate := 48000%Z;
     Streamer.channel :=
       map (fun i => (unsigned16 data i # 32768)%Q) (seq 0 (List.length data / 2)) |}.

(** The streamer after a successful [addPCM16], and what it did. *)
Definition playing (s : Streamer.AudioStreamer) : Streamer.AudioStreamer :=
  {| Streamer.workletNode := Streamer.workletNode s;
     Streamer.pcmSource := Some (Streamer.created s);
     Streamer.created := S (Streamer.created s) |}.

Definition replaces (s : Streamer.AudioStreamer) (buffer : Streamer.AudioBuffer)
  : list Streamer.AudioEffect :=
  (match Streamer.pcmSource s with
   | Some old => [Streamer.SourceStop old]
   | None => []
   end
   ++ [Streamer.SourceStart (Streamer.created s) buffer
         (if Streamer.workletNode s then Streamer.ToWorklet else Streamer.ToGain)])%list.

(** The calls an owner makes on a streamer.  An exception of [addPCM16]
    goes to the caller and leaves the streamer as it was. *)
Inductive StreamerCall : Type :=
| CallAddPCM16 (data : list byte)
| CallStop.

Definition perform (call : StreamerCall) (s : Streamer.AudioStreamer)
  : Streamer.AudioStreamer * list Streamer.AudioEffect :=
  match call with
  | CallAddPCM16 data =>
      match Streamer.addPCM16 data s with
      | Ok r => r
      | Throw _ => (s, [])
      end
  | CallStop => Streamer.stop s
  end.

Fixpoint perform_all (calls : list StreamerCall) (s : Streamer.AudioStreamer)
  : Streamer.AudioStreamer * list Streamer.AudioEffect :=
  match calls with
  | [] => (s, [])
  | call :: rest =>
      let (s1, effs1) := perform call s in
      let (s2, effs2) := perform_all rest s1 in
      (s2, (effs1 ++ effs2)%list)
  end.

(** The sources that have been started and not stopped, oldest first. *)
Definition sounding (effs : list Streamer.AudioEffect) (before : list nat) : list nat :=
  fold_left
    (fun on e =>
       match e with
       | Streamer.SourceStart n _ _ => (on ++ [n])%list
       | Streamer.SourceStop n => filter (fun m => negb (Nat.eqb m n)) on
       end)
    effs before.

(** The source the streamer holds, as a list. *)
Definition held (s : Streamer.AudioStreamer) : list nat :=
  match Streamer.pcmSource s with
  | Some n => [n]
  | None => []
  end.

(** The samples [process] takes from its argument: the first channel of the
    first input, if there is one. *)
Definition heard (inputs : list (list (list Q))) : list Q :=
  match inputs with
  | (channel0 :: _) :: _ => channel0
  | _ => []
  end.

(** The processor over the render quanta of a stream, with every chunk it
    posts, oldest first. *)
Definition process_all (quanta : list (list (list (list Q))))
           (w : Worklet.AudioProcessingWorklet)
  : Worklet.AudioProcessingWorklet * list (list Z) :=
  fold_left
    (fun acc inputs =>
       let (w1, chunks) := Worklet.process inputs (fst acc) in
       (w1, (snd acc ++ chunks)%list))
    quanta (w, []).

(** A chunk worth posting: not empty, and no longer than the buffer. *)
Definition is_chunk (chunk : list Z) : Prop :=
  0 < List.length chunk <= Worklet.BUFFER_SIZE.

(** The buffer is ready, and holds samples only while audio is arriving. *)
Definition capturing (w : Worklet.AudioProcessingWorklet) : Prop :=
  ready w
  /\ (Worklet.isReceivingAudio w = false -> Worklet.bufferWriteIndex w = 0).

(** The four handlers [receive] chooses from, and the handler an event
    comes from (a log entry, [open] and [close] come from none of them). *)
Inductive Handler : Type :=
| ToolCallHandler
| CancellationHandler
| SetupCompleteHandler
| ServerContentHandler.

Definition handler_of (ev : ClientEvent) : option Handler :=
  match ev with
  | EvToolCall _ => Some ToolCallHandler
  | EvToolCallCancellation _ => Some CancellationHandler
  | EvSetupComplete => Some SetupCompleteHandler
  | EvInterrupted => Some ServerContentHandler
  | EvTurnComplete => Some ServerContentHandler
  | EvAudio _ => Some ServerContentHandler
  | EvContent _ => Some ServerContentHandler
  | _ => None
  end.

(** The handler of the first guard that accepts the frame. *)
Definition chosen (r : JsonValue) : option Handler :=
  if isToolCallMessage r then Some ToolCallHandler
  else if isToolCallCancellationMessage r then Some CancellationHandler
  else if isSetupCompleteMessage r then Some SetupCompleteHandler
  else if isServerContenteMessage r then Some ServerContentHandler
  else None.

(** An effect that handler [h] may have: a log entry, console output, or
    one of its events. *)
Definition from_handler (h : option Handler) (e : Effect) : bool :=
  match e with
  | Emit (EvLog _) => true
  | Emit ev =>
      match handler_of ev, h with
      | Some ToolCallHandler, Some ToolCallHandler => true
      | Some CancellationHandler, Some CancellationHandler => true
      | Some SetupCompleteHandler, Some SetupCompleteHandler => true
      | Some ServerContentHandler, Some ServerContentHandler => true
      | _, _ => false
      end
  | ConsoleWarn _ _ => true
  | _ => false
  end.

(** A frame with a tool call and server content:
    {"toolCall":{},"serverContent":{"turnComplete":true}}. *)
Definition two_key_text : string :=
  "{" ++ dquote ++ "toolCall" ++ dquote ++ ":{}," ++ dquote ++ "serverContent"
      ++ dquote ++ ":{" ++ dquote ++ "turnComplete" ++ dquote ++ ":true}}".

Definition two_key_frame : JsonValue :=
  JObject [("toolCall", JObject []);
           ("serverContent", JObject [("turnComplete", JBool true)])].

(** A chunk whose MIME type mentions audio, or image. *)
Definition mentions_audio (chunk : GenerativeContentBlob) : bool :=
  includes "audio" (mimeType chunk).

Definition mentions_image (chunk : GenerativeContentBlob) : bool :=
  includes "image" (mimeType chunk).

(** The log entry of [sendRealtimeInput] for its chunks. *)
Definition realtime_log (chunks : list GenerativeContentBlob) : Effect :=
  Emit (EvLog {| type := "client.realtimeInput";
                 message :=
                   LogText (match existsb mentions_audio chunks,
                                  existsb mentions_image chunks with
                            | true, true => "audio + video"
                            | true, false => "audio"
                            | false, true => "video"
                            | false, false => "unknown"
                            end) |}).

(** A microphone chunk and a camera frame. *)
Definition microphone_chunk : GenerativeContentBlob :=
  {| mimeType := "audio/pcm;rate=16000"; data := "AAE=" |}.

Definition camera_chunk : GenerativeContentBlob :=
  {| mimeType := "image/jpeg"; data := "AAE=" |}.

(** The config of the most recent call of connect among the actions. *)
Definition last_config (actions : list Action) (before : option LiveConfig)
  : option LiveConfig :=
  fold_left
    (fun acc a => match a with CallConnect cfg => Some cfg | _ => acc end)
    actions before.

(** A second config, for a second call of connect. *)
Definition other_config : LiveConfig :=
  {| model := "models/gemini-2.0-flash-thinking-exp";
     multimodalEnabled := Some true;
     temperature := None; maxOutputTokens := None; topP := None; topK := None;
     systemInstruction := None; generationConfig := None; tools := None |}.

(* ------------------------------------------------------------------ *)
(** ** multimodal-live-types.ts: the guards of tool calls and responses *)

(** [v !== null] on a value that may be undefined. *)
Definition not_null (v : JsValue) : bool :=
  match v with
  | Some JNull => false
  | _ => true
  end.

(** The opening test of the four guards:
    [if (!value || typeof value !== "object") return false]. *)
Definition candidate_of (value : JsValue) : option JsonValue :=
  if negb (truthy value) || negb (String.eqb (typeof value) "object") then None
  else value.

(** [isLiveFunctionCall(value)]. *)
Definition isLiveFunctionCall (value : JsValue) : bool :=
  match candidate_of value with
  | None => false
  | Some candidate =>
      String.eqb (typeof (member "name" candidate)) "string"
      && String.eqb (typeof (member "id" candidate)) "string"
      && String.eqb (typeof (member "args" candidate)) "object"
      && not_null (member "args" candidate)
  end.

(** [isLiveFunctionResponse(value)]. *)
Definition isLiveFunctionResponse (value : JsValue) : bool :=
  match candidate_of value with
  | None => false
  | Some candidate =>
      String.eqb (typeof (member "response" candidate)) "object"
      && String.eqb (typeof (member "id" candidate)) "string"
  end.

(** [Array.isArray(v) && v.every(guard)]. *)
Definition every_item (guard : JsValue -> bool) (v : JsValue) : bool :=
  match v with
  | Some (JArray items) => forallb (fun item => guard (Some item)) items
  | _ => false
  end.

(** [isToolCall(value)]. *)
Definition isToolCall (value : JsValue) : bool :=
  match candidate_of value with
  | None => false
  | Some candidate => every_item isLiveFunctionCall (member "functionCalls" candidate)
  end.

(** [isToolResponse(value)]. *)
Definition isToolResponse (value : JsValue) : bool :=
  match candidate_of value with
  | None => false
  | Some candidate =>
      every_item isLiveFunctionResponse (member "functionResponses" candidate)
  end.

(** The shapes the guards accept, in words of JSON. *)
Definition is_container (v : JsonValue) : bool :=
  match v with
  | JArray _ => true
  | JObject _ => true
  | _ => false
  end.

Definition is_string (v : JsonValue) : bool :=
  match v with JString _ => true | _ => false end.

Definition call_shaped (v : JsonValue) : bool :=
  match v with
  | JObject ms =>
      match lookup "name" ms, lookup "id" ms, lookup "args" ms with
      | Some name, Some id, Some args => is_string name && is_string id && is_container args
      | _, _, _ => false
      end
  | _ => false
  end.

Definition response_shaped (v : JsonValue) : bool :=
  match v with
  | JObject ms =>
      match lookup "response" ms, lookup "id" ms with
      | Some response, Some id => typeof_object response && is_string id
      | _, _ => false
      end
  | _ => false
  end.

(** The text of the frame {"serverContent":null}. *)
Definition null_content_text : string :=
  "{" ++ dquote ++ "serverContent" ++ dquote ++ ":null}".

(** The world after a connect call whose socket is still connecting. *)
Definition connecting_world : World :=
  snd (run Platform.JSON_parse Platform.atob [CallConnect example_config]
           (start (constructor None "key"))).

(* ================================================================== *)
(** * Properties *)
(* ================================================================== *)

(** The platform functions play no part in a step that does not parse or
    decode; [run_client] evaluates such a step on a client whose fields are
    variables. *)
Ltac run_client c :=
  destruct c as [?w ?cfg ?u]; simpl in *; subst; try reflexivity.

(* ------------------------------------------------------------------ *)
(** ** Sends without a socket *)

Lemma sendDirect_without_socket (c : Client) (request : LiveOutgoingMessage) :
  ws c = None ->
  _sendDirect request c = (Throw (Error "WebSocket is not connected"), c, []).
Proof. intros H. run_client c. Qed.

(** C4.  With no socket stored, each of the three send operations throws
    the not-connected error to its caller at once; nothing is handed to a
    socket, nothing is logged, and the fields of the client are untouched. *)
Theorem send_without_socket_raises (c : Client) (H : ws c = None) :
  forall (parts : Part + list Part) (turnComplete : bool)
         (chunks : list GenerativeContentBlob) (toolResponse : ToolResponse),
    send parts turnComplete c
      = (Throw (Error "WebSocket is not connected"), c, [])
    /\ sendRealtimeInput chunks c
      = (Throw (Error "WebSocket is not connected"), c, [])
    /\ sendToolResponse toolResponse c
      = (Throw (Error "WebSocket is not connected"), c, []).
Proof.
  intros parts turnComplete chunks toolResponse.
  unfold send, sendRealtimeInput, sendToolResponse, bind.
  rewrite !sendDirect_without_socket by exact H.
  repeat split.
Qed.

Lemma send_without_socket_raises_witness :
  ws (constructor None "key") = None
  /\ send (inl (JObject [("text", JString "hello")])) true (constructor None "key")
      = (Throw (Error "WebSocket is not connected"), constructor None "key", [])
  /\ sendRealtimeInput [{| mimeType := "audio/pcm"; data := "AAE=" |}]
       (constructor None "key")
      = (Throw (Error "WebSocket is not connected"), constructor None "key", [])
  /\ sendToolResponse {| functionResponses := [] |} (constructor None "key")
      = (Throw (Error "WebSocket is not connected"), constructor None "key", []).
Proof.
  split; [reflexivity |].
  apply (send_without_socket_raises (constructor None "key")); reflexivity.
Defined.

(* ------------------------------------------------------------------ *)
(** ** Frames that are not JSON *)

Lemma receive_of_rejected_blob JSON_parse atob (blob : Blob) (e : Exn) (c : Client) :
  blobToJSON JSON_parse blob = Throw e ->
  receive JSON_parse atob blob c = (Throw e, c, []).
Proof.
  intros H. unfold receive, bind, lift. rewrite H. reflexivity.
Qed.

(** C1, as the code has it.  When the text of a frame is not JSON,
    [blobToJSON] rejects with the error "Failed to parse blob as JSON";
    [receive] does not catch it and rejects with the same error, after
    producing no event, no log entry and no console output.  In the message
    listener the rejection is left unhandled; the client, its sockets and the
    retry timers are as before, so the session goes on. *)
Theorem malformed_frame_rejects
  (JSON_parse : string -> option JsonValue) (atob : JsonValue -> option string)
  (text : string) (H : JSON_parse text = None) :
  blobToJSON JSON_parse (Readable text)
    = Throw (Error "Failed to parse blob as JSON")
  /\ (forall c : Client,
        receive JSON_parse atob (Readable text) c
          = (Throw (Error "Failed to parse blob as JSON"), c, []))
  /\ (forall (wd : World) (w : WebSocket),
        let r := step JSON_parse atob (SocketMessage w (BlobData (Readable text))) wd in
        client (fst r) = client wd
        /\ sockets (fst r) = sockets wd
        /\ timers (fst r) = timers wd
        /\ (snd r = [] \/ snd r = [Raised (Error "Failed to parse blob as JSON")])).
Proof.
  assert (Hb : blobToJSON JSON_parse (Readable text)
               = Throw (Error "Failed to parse blob as JSON")).
  { unfold blobToJSON. rewrite H. reflexivity. }
  split; [exact Hb |].
  split.
  - intros c. apply receive_of_rejected_blob. exact Hb.
  - intros wd w. unfold step.
    destruct (nth_error (sockets wd) w) as [sock |]; [| simpl; auto].
    destruct sock as [n rs st el cl]; destruct rs; simpl; auto.
    unfold call, exec, onMessage.
    rewrite (receive_of_rejected_blob _ _ _ _ _ Hb). simpl. auto.
Qed.

Lemma malformed_frame_rejects_witness :
  Platform.JSON_parse "{" = None
  /\ blobToJSON Platform.JSON_parse (Readable "{")
     = Throw (Error "Failed to parse blob as JSON").
Proof.
  split; [reflexivity |].
  apply (malformed_frame_rejects Platform.JSON_parse Platform.atob "{").
  reflexivity.
Defined.

(** C1 as stated fails: on the frame whose text is a lone opening brace the
    decode step throws to [receive], and [receive] throws to its caller with
    nothing logged. *)
Lemma malformed_frame_counterexample :
  let c := {| ws := Some 0; config := None; url := "wss://host?key=k" |} in
  let r := receive Platform.JSON_parse Platform.atob (Readable "{") c in
  (forall v, blobToJSON Platform.JSON_parse (Readable "{") <> Ok v)
  /\ result r = Throw (Error "Failed to parse blob as JSON")
  /\ effects r = []
  /\ result r <> Ok tt.
Proof.
  cbv zeta. repeat split; try reflexivity; intros; discriminate.
Qed.

(* ------------------------------------------------------------------ *)
(** ** disconnect *)

Lemma disconnect_open (c : Client) (w : WebSocket) :
  ws c = Some w ->
  disconnect None c = (Ok true, clear_socket c, [WsClose w; close_log]).
Proof. intros H. run_client c. Qed.

Lemma disconnect_absent (c : Client) (arg : option WebSocket) :
  ws c = None ->
  disconnect arg c = (Ok false, c, []).
Proof. intros H. run_client c. Qed.

Lemma disconnect_keeps_config (c : Client) (arg : option WebSocket) :
  config (after (disconnect arg c)) = config c.
Proof.
  destruct c as [[cur |] cfg u]; [| reflexivity].
  destruct arg as [w |]; [| reflexivity].
  unfold disconnect, bind, gets, after. simpl.
  destruct (Nat.eqb cur w); reflexivity.
Qed.

(** C7, as the code has it.  [disconnect()] with a socket stored calls
    [close()] on it, clears the stored reference, emits one log entry of type
    client.close and returns true; what it emits is that log entry, not the
    [close] event.  Called again, or with no socket stored, it returns false
    and does nothing.  It never changes the stored config.  The [close]
    event comes from the close listener of the socket, which emits it when
    the transport reports the closure, after a log entry of its own. *)
Theorem disconnect_idempotent (c : Client) (w : WebSocket) (H : ws c = Some w) :
  disconnect None c = (Ok true, clear_socket c, [WsClose w; close_log])
  /\ disconnect None (after (disconnect None c))
     = (Ok false, clear_socket c, [])
  /\ (forall (c' : Client) (arg : option WebSocket),
        ws c' = None -> disconnect arg c' = (Ok false, c', []))
  /\ (forall (c' : Client) (arg : option WebSocket),
        config (after (disconnect arg c')) = config c')
  /\ (forall ev : CloseEvent,
        exists entry,
          handleCloseConnection w ev (after (disconnect None c))
          = (Ok tt, clear_socket c, [Emit (EvLog entry); Emit (EvClose ev)])).
Proof.
  split; [apply disconnect_open; exact H |].
  split.
  { rewrite (disconnect_open c w H). apply disconnect_absent. reflexivity. }
  split; [intros; apply disconnect_absent; assumption |].
  split; [intros; apply disconnect_keeps_config |].
  intros ev. rewrite (disconnect_open c w H).
  eexists. unfold handleCloseConnection, bind.
  rewrite disconnect_absent by reflexivity. reflexivity.
Qed.

Lemma disconnect_idempotent_witness :
  let c := {| ws := Some 7; config := None; url := "wss://host?key=k" |} in
  ws c = Some 7
  /\ disconnect None c = (Ok true, clear_socket c, [WsClose 7; close_log]).
Proof.
  cbv zeta. split; [reflexivity |].
  apply (disconnect_idempotent
           {| ws := Some 7; config := None; url := "wss://host?key=k" |} 7).
  reflexivity.
Defined.

(** C7 as stated fails: the first [disconnect()] on an open socket emits no
    [close] event. *)
Lemma disconnect_emits_no_close_event :
  let c := {| ws := Some 7; config := None; url := "wss://host?key=k" |} in
  result (disconnect None c) = Ok true
  /\ forall ev : CloseEvent, ~ In (Emit (EvClose ev)) (effects (disconnect None c)).
Proof.
  cbv zeta. split; [reflexivity |].
  intros ev [Hin | [Hin | []]]; discriminate Hin.
Qed.

(* ------------------------------------------------------------------ *)
(** ** Order of dispatch inside a serverContent frame *)

Lemma handleServerContent_interrupted atob (response serverContent : JsonValue) (c : Client) :
  member "serverContent" response = Some serverContent ->
  isInterrupted serverContent = true ->
  handleServerContent atob response c = (Ok tt, c, [interrupted_log; Emit EvInterrupted]).
Proof.
  intros Hm Hi. unfold handleServerContent. rewrite Hm, Hi. reflexivity.
Qed.

Lemma handleServerContent_turn_then_model atob (response serverContent : JsonValue)
      (c : Client) :
  member "serverContent" response = Some serverContent ->
  isInterrupted serverContent = false ->
  isTurnComplete serverContent = true ->
  isModelTurn serverContent = true ->
  handleServerContent atob response c
  = let r := processModelTurn atob (member "modelTurn" serverContent) c in
    (result r, after r, [turnComplete_log; Emit EvTurnComplete] ++ effects r)%list.
Proof.
  intros Hm Hi Ht Hmt. unfold handleServerContent. rewrite Hm, Hi, Ht, Hmt.
  unfold bind, log, emit, effect. cbv beta iota zeta.
  destruct (processModelTurn atob (member "modelTurn" serverContent) c)
    as [[r c'] effs].
  reflexivity.
Qed.

(** C3.  In one serverContent frame: when the content is interrupted, the
    handler emits the interrupted event (with its log entry) and stops, so no
    turncomplete event and no part of a model turn is processed; otherwise,
    when the content has both a boolean turnComplete and a modelTurn, the
    turncomplete event (with its log entry) comes first and everything the
    model turn produces follows, so any content event has the turncomplete
    event before it. *)
Theorem serverContent_dispatch_order
  (atob : JsonValue -> option string)
  (response serverContent : JsonValue) (c : Client)
  (H : member "serverContent" response = Some serverContent) :
  (isInterrupted serverContent = true ->
     handleServerContent atob response c
     = (Ok tt, c, [interrupted_log; Emit EvInterrupted]))
  /\ (isInterrupted serverContent = false ->
      isTurnComplete serverContent = true ->
      isModelTurn serverContent = true ->
      let r := processModelTurn atob (member "modelTurn" serverContent) c in
      handleServerContent atob response c
      = (result r, after r, [turnComplete_log; Emit EvTurnComplete] ++ effects r)%list
      /\ forall (before rest : list Effect) (data : JsonValue),
           effects (handleServerContent atob response c)
           = (before ++ Emit (EvContent data) :: rest)%list ->
           In (Emit EvTurnComplete) before).
Proof.
  split.
  - intros Hi. apply handleServerContent_interrupted with serverContent; assumption.
  - intros Hi Ht Hmt r.
    pose proof (handleServerContent_turn_then_model atob response serverContent c
                  H Hi Ht Hmt) as Heq.
    fold r in Heq. cbv zeta in Heq. split; [exact Heq |].
    intros before rest data Hsplit. rewrite Heq in Hsplit.
    unfold effects at 1 in Hsplit. simpl in Hsplit.
    destruct before as [| b0 [| b1 before]]; simpl in Hsplit.
    + discriminate Hsplit.
    + injection Hsplit as _ Hbad. discriminate Hbad.
    + injection Hsplit as _ Hb1 _. subst b1. right. left. reflexivity.
Qed.

Lemma serverContent_dispatch_order_witness :
  member "serverContent" turn_frame = Some turn_content
  /\ isInterrupted turn_content = false
  /\ isTurnComplete turn_content = true
  /\ isModelTurn turn_content = true
  /\ handleServerContent Platform.atob turn_frame (constructor None "key")
     = (Ok tt, constructor None "key",
        [turnComplete_log; Emit EvTurnComplete] ++ content_effects [text_part])%list.
Proof.
  repeat (split; [reflexivity |]).
  apply (proj2 (serverContent_dispatch_order Platform.atob turn_frame turn_content
                  (constructor None "key") eq_refl));
    reflexivity.
Defined.

(* ------------------------------------------------------------------ *)
(** ** The partition of a model turn *)

Lemma audio_part_is_object (p : JsonValue) :
  isAudioPart p = Ok true -> is_object p = true.
Proof.
  destruct p; simpl; try discriminate; reflexivity.
Qed.

(** [filter] with the audio test is [select] with the flags of [classify]. *)
Lemma filter_array_classify (items : list JsonValue) :
  forall idx : list nat,
    filter_array (fun e : Element => isAudioPart (snd e)) (combine idx items)
    = obind (classify (firstn (List.length idx) items))
            (fun bs => Ok (select bs (combine idx items))).
Proof.
  induction items as [| p rest IH]; intros idx.
  - destruct idx; reflexivity.
  - destruct idx as [| i idx]; [reflexivity |].
    simpl. destruct (isAudioPart p) as [b | e]; [| reflexivity].
    simpl. rewrite IH.
    destruct (classify (firstn (List.length idx) rest)) as [bs | e]; [| reflexivity].
    simpl. destruct b; reflexivity.
Qed.

Lemma classify_length (items : list JsonValue) :
  forall bs, classify items = Ok bs -> List.length bs = List.length items.
Proof.
  induction items as [| p rest IH]; intros bs H; simpl in H.
  - injection H as <-. reflexivity.
  - destruct (isAudioPart p) as [b | e]; [| discriminate].
    simpl in H. destruct (classify rest) as [bs' | e]; [| discriminate].
    injection H as <-. simpl. f_equal. apply IH. reflexivity.
Qed.

Lemma classify_is_audio (items : list JsonValue) :
  forall bs, classify items = Ok bs -> bs = map is_audio items.
Proof.
  induction items as [| p rest IH]; intros bs H; simpl in H.
  - injection H as <-. reflexivity.
  - unfold is_audio at 1. simpl.
    destruct (isAudioPart p) as [b | e]; [| discriminate].
    simpl in H. destruct (classify rest) as [bs' | e]; [| discriminate].
    injection H as <-. f_equal. apply IH. reflexivity.
Qed.

Lemma select_map_filter {A} (f : A -> bool) (l : list A) :
  select (map f l) l = filter f l.
Proof.
  induction l as [| x l IH]; simpl; [reflexivity |].
  rewrite IH. reflexivity.
Qed.

Lemma select_combine_snd {A B} (bs : list bool) :
  forall (idx : list A) (items : list B),
    List.length idx = List.length items ->
    map snd (select bs (combine idx items)) = select bs items.
Proof.
  induction bs as [| b bs IH]; intros idx items Hlen.
  - reflexivity.
  - destruct idx as [| i idx], items as [| x items]; simpl in *;
      try discriminate; try reflexivity.
    destruct b; simpl; rewrite IH by lia; reflexivity.
Qed.

Lemma select_In {A} (bs : list bool) :
  forall (l : list A) (x : A), In x (select bs l) -> In x l.
Proof.
  induction bs as [| b bs IH]; intros l x H; simpl in H.
  - contradiction.
  - destruct l as [| y l]; [contradiction |].
    destruct b; simpl in *.
    + destruct H as [-> | H]; auto.
    + auto.
Qed.

(** The elements picked by the flags of [classify] hold objects. *)
Lemma select_classified_objects (items : list JsonValue) :
  forall (idx : list nat) (bs : list bool),
    classify items = Ok bs ->
    Forall (fun e : Element => is_object (snd e) = true)
           (select bs (combine idx items)).
Proof.
  induction items as [| p rest IH]; intros idx bs H; simpl in H.
  - injection H as <-. constructor.
  - destruct (isAudioPart p) as [b | e] eqn:Hp; [| discriminate].
    simpl in H. destruct (classify rest) as [bs' | e]; [| discriminate].
    injection H as <-.
    destruct idx as [| i idx]; [constructor |].
    simpl. destruct b.
    + constructor; [apply audio_part_is_object; exact Hp | apply IH; reflexivity].
    + apply IH; reflexivity.
Qed.

Lemma combine_seq_above (k : nat) (items : list JsonValue) :
  forall n, Forall (fun e : Element => k < fst e) (combine (seq (S k) n) items) .
Proof.
  intros n. apply Forall_forall. intros [i v] Hin.
  apply in_combine_l in Hin. apply in_seq in Hin. simpl. lia.
Qed.

(** An element of slot [k] is the same value as no object of a later slot. *)
Lemma no_same_value_later (k : nat) (v : JsonValue) (S' : list Element) :
  Forall (fun e : Element => k < fst e) S' ->
  Forall (fun e : Element => is_object (snd e) = true) S' ->
  existsb (SameValueZero (k, v)) S' = false.
Proof.
  induction S' as [| [j w] S' IH]; intros Hk Ho; [reflexivity |].
  inversion Hk as [| ? ? Hj Hk']; inversion Ho as [| ? ? Hw Ho']; subst.
  simpl in Hj, Hw. simpl. rewrite IH by assumption.
  destruct w; try discriminate Hw.
  unfold SameValueZero. simpl.
  destruct v; try reflexivity.
  rewrite orb_false_r. apply Nat.eqb_neq. lia.
Qed.

(** Among elements of later slots, an object of slot [k] removes nothing. *)
Lemma difference_skip_earlier (k : nat) (ms : list (string * JsonValue))
      (E S' : list Element) :
  Forall (fun e : Element => k < fst e) E ->
  difference E ((k, JObject ms) :: S') = difference E S'.
Proof.
  intros Hk. unfold difference. apply filter_ext_in.
  intros [j w] Hin. rewrite Forall_forall in Hk. specialize (Hk _ Hin).
  simpl in Hk. simpl.
  replace (SameValueZero (j, w) (k, JObject ms)) with false; [reflexivity |].
  unfold SameValueZero. simpl. destruct w; try reflexivity.
  symmetry. apply Nat.eqb_neq. lia.
Qed.

(** [difference] of the elements and the audio elements is the rest. *)
Lemma difference_select (items : list JsonValue) :
  forall (k : nat) (bs : list bool),
    classify items = Ok bs ->
    difference (combine (seq k (List.length items)) items)
               (select bs (combine (seq k (List.length items)) items))
    = select (map negb bs) (combine (seq k (List.length items)) items).
Proof.
  induction items as [| p rest IH]; intros k bs H.
  - simpl in H. injection H as <-. reflexivity.
  - simpl in H. destruct (isAudioPart p) as [b | e] eqn:Hp; [| discriminate].
    simpl in H. destruct (classify rest) as [bs' | e] eqn:Hrest; [| discriminate].
    injection H as <-.
    pose proof (combine_seq_above k rest (List.length rest)) as Habove.
    pose proof (select_classified_objects rest (seq (S k) (List.length rest)) bs' Hrest)
      as Hobj.
    assert (Hsel : Forall (fun e : Element => k < fst e)
                     (select bs' (combine (seq (S k) (List.length rest)) rest))).
    { apply Forall_forall. intros e He. apply select_In in He.
      rewrite Forall_forall in Habove. apply Habove. exact He. }
    simpl. destruct b; simpl.
    + pose proof (audio_part_is_object p Hp) as Hpo.
      destruct p as [| | | | | ms]; try discriminate Hpo.
      unfold difference at 1. simpl.
      unfold SameValueZero at 1. simpl. rewrite Nat.eqb_refl. simpl.
      fold (difference (combine (seq (S k) (List.length rest)) rest)
              ((k, JObject ms) :: select bs' (combine (seq (S k) (List.length rest)) rest))).
      rewrite difference_skip_earlier by exact Habove.
      apply IH. reflexivity.
    + unfold difference at 1. simpl.
      rewrite no_same_value_later by assumption. simpl.
      f_equal. apply IH. reflexivity.
Qed.

Lemma separateContentParts_classified (items : list JsonValue) (bs : list bool) :
  classify items = Ok bs ->
  separateContentParts (Some (JArray items))
  = Ok (select bs (elements items), select (map negb bs) (elements items)).
Proof.
  intros H. unfold separateContentParts, elements.
  rewrite filter_array_classify, length_seq, firstn_all, H. simpl.
  rewrite (difference_select items 0 bs H). reflexivity.
Qed.

Lemma separateContentParts_throws (items : list JsonValue) (e : Exn) :
  classify items = Throw e ->
  separateContentParts (Some (JArray items)) = Throw e.
Proof.
  intros H. unfold separateContentParts, elements.
  rewrite filter_array_classify, length_seq, firstn_all, H. reflexivity.
Qed.

Lemma elements_select_values (items : list JsonValue) (bs : list bool) :
  map snd (select bs (elements items)) = select bs items.
Proof.
  unfold elements. apply select_combine_snd. apply length_seq.
Qed.

(** Laws of sequencing, point by point. *)
Lemma bind_ext {A B} (m : M A) (f g : A -> M B) (c : Client) :
  (forall a c', f a c' = g a c') -> bind m f c = bind m g c.
Proof.
  intros H. unfold bind. destruct (m c) as [[[a | e] c1] e1]; [| reflexivity].
  rewrite H. reflexivity.
Qed.

Lemma bind_assoc {A B C} (m : M A) (f : A -> M B) (g : B -> M C) (c : Client) :
  bind (bind m f) g c = bind m (fun a => bind (f a) g) c.
Proof.
  unfold bind. destruct (m c) as [[[a | e] c1] e1]; [| reflexivity].
  destruct (f a c1) as [[[b | e] c2] e2]; [| reflexivity].
  destruct (g b c2) as [[r c3] e3]. rewrite app_assoc. reflexivity.
Qed.

Lemma bind_ret_l {A B} (a : A) (f : A -> M B) (c : Client) :
  bind (ret a) f c = f a c.
Proof.
  unfold bind, ret. destruct (f a c) as [[r c1] e1]. reflexivity.
Qed.

Lemma bind_ret_r {A} (m : M A) (c : Client) :
  bind m (fun a => ret a) c = m c.
Proof.
  unfold bind, ret. destruct (m c) as [[[a | e] c1] e1]; [| reflexivity].
  rewrite app_nil_r. reflexivity.
Qed.

(** [processAudioParts] reads the values of the elements only. *)
Lemma processAudioParts_values atob (A : list Element) :
  forall c, processAudioParts atob A c = processAudioValues atob (map snd A) c.
Proof.
  unfold processAudioValues.
  induction A as [| [i p] A IH]; intros c; [reflexivity |].
  simpl. apply bind_ext. intros d c1. apply bind_ext. intros _ c2. apply IH.
Qed.

Lemma processAudioValues_cons atob (p : JsonValue) (ps : list JsonValue) (c : Client) :
  processAudioValues atob (p :: ps) c
  = bind (processAudioValues atob [p]) (fun _ => processAudioValues atob ps) c.
Proof.
  unfold processAudioValues. simpl.
  rewrite bind_assoc. apply bind_ext. intros d c1.
  rewrite bind_assoc. apply bind_ext. intros _ c2.
  rewrite bind_ret_l. reflexivity.
Qed.

Lemma bind_ext_l {A B} (m m' : M A) (f : A -> M B) (c : Client) :
  m c = m' c -> bind m f c = bind m' f c.
Proof.
  intros H. unfold bind. rewrite H. reflexivity.
Qed.

Lemma read_parts (modelTurn : JsonValue) (items : list JsonValue) :
  member "parts" modelTurn = Some (JArray items) ->
  read (Some modelTurn) "parts" = Ok (Some (JArray items)).
Proof.
  intros Hparts. unfold read.
  destruct modelTurn; try discriminate Hparts. rewrite Hparts. reflexivity.
Qed.

(** [processModelTurn] on the values of the two partitions. *)
Lemma processModelTurn_split atob (modelTurn : JsonValue) (items : list JsonValue)
      (bs : list bool) (c : Client) :
  member "parts" modelTurn = Some (JArray items) ->
  classify items = Ok bs ->
  processModelTurn atob (Some modelTurn) c
  = bind (processAudioValues atob (select bs items))
         (fun _ => emitContent (select (map negb bs) items)) c.
Proof.
  intros Hparts Hbs. unfold processModelTurn.
  rewrite (read_parts modelTurn items Hparts).
  change (lift (Ok (Some (JArray items)))) with (ret (Some (JArray items))).
  rewrite bind_ret_l.
  rewrite (separateContentParts_classified items bs Hbs).
  match goal with
  | |- bind (lift (Ok ?x)) ?k c = _ => change (bind (ret x) k c = 
        bind (processAudioValues atob (select bs items))
         (fun _ => emitContent (select (map negb bs) items)) c)
  end.
  rewrite bind_ret_l.
  rewrite <- (elements_select_values items bs).
  rewrite <- (elements_select_values items (map negb bs)).
  erewrite bind_ext_l by apply processAudioParts_values.
  apply bind_ext. intros _ c'.
  destruct (select (map negb bs) (elements items)); reflexivity.
Qed.

Lemma processModelTurn_throws atob (modelTurn : JsonValue) (items : list JsonValue)
      (e : Exn) (c : Client) :
  member "parts" modelTurn = Some (JArray items) ->
  classify items = Throw e ->
  processModelTurn atob (Some modelTurn) c = (Throw e, c, []).
Proof.
  intros Hparts He. unfold processModelTurn.
  rewrite (read_parts modelTurn items Hparts).
  change (lift (Ok (Some (JArray items)))) with (ret (Some (JArray items))).
  rewrite bind_ret_l.
  rewrite (separateContentParts_throws items e He). reflexivity.
Qed.

Lemma classify_app (l1 l2 : list JsonValue) :
  classify (l1 ++ l2)%list
  = obind (classify l1) (fun b1 =>
    obind (classify l2) (fun b2 => Ok (b1 ++ b2)%list)).
Proof.
  induction l1 as [| p l1 IH]; simpl.
  - destruct (classify l2); reflexivity.
  - destruct (isAudioPart p) as [b | e]; [| reflexivity]. simpl.
    rewrite IH. destruct (classify l1) as [b1 | e]; [| reflexivity]. simpl.
    destruct (classify l2); reflexivity.
Qed.

Lemma select_app {A} (bs1 : list bool) :
  forall (bs2 : list bool) (l1 l2 : list A),
    List.length bs1 = List.length l1 ->
    select (bs1 ++ bs2) (l1 ++ l2) = (select bs1 l1 ++ select bs2 l2)%list.
Proof.
  induction bs1 as [| b bs1 IH]; intros bs2 l1 l2 Hlen.
  - destruct l1; [reflexivity | discriminate].
  - destruct l1 as [| x l1]; [discriminate |].
    simpl in *. rewrite IH by lia. destruct b; reflexivity.
Qed.

Lemma processAudioValues_app atob (l1 l2 : list JsonValue) :
  forall c,
    processAudioValues atob (l1 ++ l2) c
    = bind (processAudioValues atob l1) (fun _ => processAudioValues atob l2) c.
Proof.
  induction l1 as [| p l1 IH]; intros c.
  - change (processAudioValues atob []) with (@ret unit tt).
    rewrite bind_ret_l. reflexivity.
  - change ((p :: l1) ++ l2)%list with (p :: (l1 ++ l2))%list.
    rewrite processAudioValues_cons.
    rewrite (bind_ext_l (processAudioValues atob (p :: l1))
               (bind (processAudioValues atob [p])
                     (fun _ => processAudioValues atob l1))
               _ c (processAudioValues_cons atob p l1 c)).
    rewrite bind_assoc. apply bind_ext. intros _ c'. apply IH.
Qed.

(** The [data] of a part that is not [null] can always be read. *)
Lemma inlineData_data_of (p : JsonValue) :
  is_null p = false -> inlineData_data p = Ok (data_of p).
Proof.
  intros Hp. unfold data_of, inlineData_data.
  destruct p; try discriminate Hp; simpl; try reflexivity.
  destruct (lookup "inlineData" members) as [[] |]; reflexivity.
Qed.

(** One part, once its [data] is read. *)
Lemma processAudioValues_one atob (p : JsonValue) (c : Client) :
  is_null p = false ->
  decodable atob p = true ->
  processAudioValues atob [p] c = (Ok tt, c, audio_effects atob p).
Proof.
  intros Hp Hdec. unfold processAudioValues. simpl.
  rewrite (inlineData_data_of p Hp).
  unfold decodable in Hdec. unfold audio_effects.
  destruct (data_of p) as [v |]; [| reflexivity].
  unfold bind, lift.
  destruct (truthy (Some v)); [| reflexivity].
  unfold base64ToArrayBuffer.
  destruct (atob v) as [bin |]; [reflexivity | discriminate Hdec].
Qed.

Lemma processAudioValues_effects atob (ps : list JsonValue) :
  Forall (fun p => is_null p = false) ps ->
  Forall (fun p => decodable atob p = true) ps ->
  forall c,
    processAudioValues atob ps c = (Ok tt, c, flat_map (audio_effects atob) ps).
Proof.
  induction ps as [| p ps IH]; intros Hnn Hdec c; [reflexivity |].
  inversion Hnn as [| ? ? Hp Hnn']; inversion Hdec as [| ? ? Hd Hdec']; subst.
  rewrite processAudioValues_cons. unfold bind.
  rewrite (processAudioValues_one atob p c Hp Hd).
  rewrite (IH Hnn' Hdec' c). reflexivity.
Qed.

Lemma emitContent_effects (others : list JsonValue) (c : Client) :
  emitContent others c = (Ok tt, c, content_effects others).
Proof.
  destruct others; reflexivity.
Qed.

(** A part of the declared type never makes the audio test throw. *)
Lemma typed_part_test (p : JsonValue) :
  is_Part p = true -> isAudioPart p = Ok (is_audio p).
Proof.
  intros H. unfold is_audio.
  destruct p as [| | | | | ms]; try discriminate H.
  unfold is_Part in H. unfold isAudioPart. simpl in *.
  destruct (lookup "inlineData" ms) as [d |]; [| reflexivity].
  unfold is_blob in H.
  destruct d as [| | | | | ds]; try discriminate H.
  simpl in *.
  destruct (lookup "mimeType" ds) as [[] |]; try discriminate H.
  reflexivity.
Qed.

Lemma typed_classify (items : list JsonValue) :
  Forall (fun p => is_Part p = true) items ->
  classify items = Ok (map is_audio items).
Proof.
  induction items as [| p items IH]; intros H; [reflexivity |].
  inversion H as [| ? ? Hp H']; subst.
  simpl. rewrite (typed_part_test p Hp). simpl. rewrite (IH H'). reflexivity.
Qed.

Lemma is_audio_not_null (p : JsonValue) : is_audio p = true -> is_null p = false.
Proof.
  destruct p; try reflexivity. discriminate.
Qed.

Lemma audio_effects_count atob (p : JsonValue) :
  decodable atob p = true ->
  count_events is_audio_event (audio_effects atob p) = if has_data p then 1 else 0.
Proof.
  unfold decodable, audio_effects, has_data.
  destruct (data_of p) as [v |]; [| reflexivity].
  destruct (truthy (Some v)); [| reflexivity].
  destruct (atob v); [reflexivity | discriminate].
Qed.

Lemma audio_effects_no_content atob (p : JsonValue) :
  count_events is_content_event (audio_effects atob p) = 0.
Proof.
  unfold audio_effects.
  destruct (data_of p) as [v |]; [| reflexivity].
  destruct (truthy (Some v)); [| reflexivity].
  destruct (atob v); reflexivity.
Qed.

Lemma count_events_app f (l1 l2 : list Effect) :
  count_events f (l1 ++ l2) = count_events f l1 + count_events f l2.
Proof.
  unfold count_events. rewrite filter_app, length_app. reflexivity.
Qed.

Lemma count_audio_events_parts atob (ps : list JsonValue) :
  Forall (fun p => decodable atob p = true) ps ->
  count_events is_audio_event (flat_map (audio_effects atob) ps)
  = List.length (filter has_data ps).
Proof.
  induction ps as [| p ps IH]; intros H; [reflexivity |].
  inversion H as [| ? ? Hp H']; subst. simpl.
  rewrite count_events_app, (audio_effects_count atob p Hp), (IH H').
  destruct (has_data p); reflexivity.
Qed.

Lemma count_content_events_parts atob (ps : list JsonValue) :
  count_events is_content_event (flat_map (audio_effects atob) ps) = 0.
Proof.
  induction ps as [| p ps IH]; [reflexivity |]. simpl.
  rewrite count_events_app, audio_effects_no_content, IH. reflexivity.
Qed.

Lemma filter_partition_length {A} (f : A -> bool) (l : list A) :
  List.length (filter f l) + List.length (filter (fun x => negb (f x)) l)
  = List.length l.
Proof.
  induction l as [| x l IH]; [reflexivity |].
  simpl. destruct (f x); simpl; lia.
Qed.

(** C2, as the code has it.  For a model turn whose parts have the declared
    type, the audio parts are those whose inlineData has a mimeType starting
    with audio/pcm and the other parts are the rest: the two lists are the
    parts that pass and fail the test, each in source order, and their
    lengths add up to the number of parts.  When every non-empty audio
    payload is valid base64, processing emits, in order, an audio event (with
    its log entry) for each audio part whose data is not empty and none for
    an audio part whose data is empty, and then, if and only if a non-audio
    part is left, exactly one content event that carries all of them. *)
Theorem model_turn_partition
  (atob : JsonValue -> option string)
  (modelTurn : JsonValue) (items : list JsonValue) (c : Client)
  (Hparts : member "parts" modelTurn = Some (JArray items))
  (Htyped : Forall (fun p => is_Part p = true) items)
  (Hvalid : Forall (fun p => decodable atob p = true) (filter is_audio items)) :
  (exists audioParts otherParts : list Element,
      separateContentParts (Some (JArray items)) = Ok (audioParts, otherParts)
      /\ map snd audioParts = filter is_audio items
      /\ map snd otherParts = filter not_audio items
      /\ List.length audioParts + List.length otherParts = List.length items)
  /\ processModelTurn atob (Some modelTurn) c
     = (Ok tt, c,
        (flat_map (audio_effects atob) (filter is_audio items)
         ++ content_effects (filter not_audio items))%list)
  /\ count_events is_audio_event (effects (processModelTurn atob (Some modelTurn) c))
     = List.length (filter has_data (filter is_audio items))
  /\ count_events is_content_event (effects (processModelTurn atob (Some modelTurn) c))
     = match filter not_audio items with [] => 0 | _ :: _ => 1 end.
Proof.
  pose proof (typed_classify items Htyped) as Hcl.
  assert (Haudio : select (map is_audio items) items = filter is_audio items)
    by apply select_map_filter.
  assert (Hother : select (map negb (map is_audio items)) items = filter not_audio items).
  { rewrite map_map. apply (select_map_filter not_audio). }
  assert (Hrun : processModelTurn atob (Some modelTurn) c
                 = (Ok tt, c,
                    (flat_map (audio_effects atob) (filter is_audio items)
                     ++ content_effects (filter not_audio items))%list)).
  { rewrite (processModelTurn_split atob modelTurn items _ c Hparts Hcl).
    rewrite Haudio, Hother. unfold bind.
    rewrite processAudioValues_effects.
    - rewrite emitContent_effects. reflexivity.
    - apply Forall_forall. intros p Hin. apply filter_In in Hin.
      apply is_audio_not_null. apply Hin.
    - exact Hvalid. }
  split.
  { exists (select (map is_audio items) (elements items)),
           (select (map negb (map is_audio items)) (elements items)).
    split; [apply separateContentParts_classified; exact Hcl |].
    split; [rewrite elements_select_values; exact Haudio |].
    split; [rewrite elements_select_values; exact Hother |].
    rewrite <- (@length_map Element JsonValue snd
                  (select (map is_audio items) (elements items))).
    rewrite <- (@length_map Element JsonValue snd
                  (select (map negb (map is_audio items)) (elements items))).
    rewrite !elements_select_values, Haudio, Hother.
    apply filter_partition_length. }
  split; [exact Hrun |].
  rewrite Hrun. unfold effects. simpl.
  rewrite !count_events_app, count_content_events_parts.
  rewrite (count_audio_events_parts atob _ Hvalid).
  destruct (filter not_audio items); unfold content_effects, count_events; simpl;
    split; lia.
Qed.

Lemma model_turn_partition_witness :
  let c := constructor None "key" in
  member "parts" (model_turn mixed_parts) = Some (JArray mixed_parts)
  /\ Forall (fun p => is_Part p = true) mixed_parts
  /\ Forall (fun p => decodable Platform.atob p = true) (filter is_audio mixed_parts)
  /\ processModelTurn Platform.atob (Some (model_turn mixed_parts)) c
     = (Ok tt, c,
        (flat_map (audio_effects Platform.atob) (filter is_audio mixed_parts)
         ++ content_effects (filter not_audio mixed_parts))%list).
Proof.
  cbv zeta.
  assert (Ht : Forall (fun p => is_Part p = true) mixed_parts)
    by (repeat constructor).
  assert (Hv : Forall (fun p => decodable Platform.atob p = true)
                 (filter is_audio mixed_parts))
    by (repeat constructor).
  split; [reflexivity |]. split; [exact Ht |]. split; [exact Hv |].
  apply (model_turn_partition Platform.atob (model_turn mixed_parts) mixed_parts
           (constructor None "key") eq_refl Ht Hv).
Defined.

(** C2 as stated fails.  A part with an audio mimeType and empty data is in
    the audio partition, and no audio event is emitted for it; and a part
    with an audio mimeType whose data is not base64 makes the processing
    throw, so that no content event is emitted for the text part that is
    left. *)
Lemma model_turn_partition_counterexample :
  let c := constructor None "key" in
  let silent := inline_part "audio/pcm" EmptyString in
  let broken := inline_part "audio/pcm" "!" in
  separateContentParts (Some (JArray [silent])) = Ok ([(0, silent)], [])
  /\ count_events is_audio_event
       (effects (processModelTurn Platform.atob (Some (model_turn [silent])) c)) = 0
  /\ separateContentParts (Some (JArray [broken; text_part]))
     = Ok ([(0, broken)], [(1, text_part)])
  /\ processModelTurn Platform.atob (Some (model_turn [broken; text_part])) c
     = (Throw InvalidCharacterError, c, []).
Proof.
  cbv zeta. repeat split; reflexivity.
Qed.

(* ------------------------------------------------------------------ *)
(** ** Audio parts without data *)

Lemma silent_part_test (p d : JsonValue) (mime : string) :
  member "inlineData" p = Some d ->
  member "mimeType" d = Some (JString mime) ->
  String.prefix "audio/pcm" mime = true ->
  isAudioPart p = Ok true.
Proof.
  intros Hd Hm Hpre. unfold isAudioPart, read.
  destruct p; try discriminate Hd. rewrite Hd.
  destruct d; try discriminate Hm. simpl. simpl in Hm. rewrite Hm.
  simpl. rewrite Hpre. reflexivity.
Qed.

Lemma silent_part_data (p d : JsonValue) :
  member "inlineData" p = Some d ->
  is_null d = false ->
  data_of p = member "data" d.
Proof.
  intros Hd Hn. unfold data_of, inlineData_data, read.
  destruct p; try discriminate Hd. rewrite Hd.
  destruct d; try discriminate Hn; reflexivity.
Qed.

Lemma silent_part_alone atob (p d : JsonValue) (c : Client) :
  member "inlineData" p = Some d ->
  is_null d = false ->
  member "data" d = None \/ member "data" d = Some (JString EmptyString) ->
  processAudioValues atob [p] c = (Ok tt, c, []).
Proof.
  intros Hd Hn Hdata.
  assert (Hp : is_null p = false) by (destruct p; try discriminate Hd; reflexivity).
  unfold processAudioValues. simpl.
  rewrite (inlineData_data_of p Hp), (silent_part_data p d Hd Hn).
  destruct Hdata as [-> | ->]; reflexivity.
Qed.

Lemma processAudioValues_skip atob (p : JsonValue) (l1 l2 : list JsonValue) :
  (forall c, processAudioValues atob [p] c = (Ok tt, c, [])) ->
  forall c,
    processAudioValues atob (l1 ++ p :: l2) c = processAudioValues atob (l1 ++ l2) c.
Proof.
  intros Hp c. rewrite !processAudioValues_app.
  apply bind_ext. intros _ c'.
  rewrite processAudioValues_cons. unfold bind at 1. rewrite Hp.
  destruct (processAudioValues atob l2 c') as [[r c2] e2]. reflexivity.
Qed.

(** C10.  A part whose inlineData has a mimeType starting with audio/pcm and
    whose data is absent or the empty string passes the audio test, so
    [separateContentParts] puts it among the audio parts and not among the
    others (it is not in the content event); processing it emits no audio
    event and no log entry; and a model turn that contains it shows exactly
    what the same model turn without it shows. *)
Theorem audio_part_without_data_is_dropped
  (atob : JsonValue -> option string)
  (p d : JsonValue) (mime : string)
  (Hinline : member "inlineData" p = Some d)
  (Hmime : member "mimeType" d = Some (JString mime))
  (Hprefix : String.prefix "audio/pcm" mime = true)
  (Hdata : member "data" d = None \/ member "data" d = Some (JString EmptyString)) :
  isAudioPart p = Ok true
  /\ (forall (before rest : list JsonValue) (audioParts otherParts : list Element),
        separateContentParts (Some (JArray (before ++ p :: rest)))
          = Ok (audioParts, otherParts) ->
        In p (map snd audioParts) /\ ~ In p (map snd otherParts))
  /\ (forall (slot : nat) (c : Client),
        processAudioParts atob [(slot, p)] c = (Ok tt, c, []))
  /\ (forall (before rest : list JsonValue) (with_p without_p : JsonValue) (c : Client),
        member "parts" with_p = Some (JArray (before ++ p :: rest)) ->
        member "parts" without_p = Some (JArray (before ++ rest)) ->
        processModelTurn atob (Some with_p) c = processModelTurn atob (Some without_p) c).
Proof.
  assert (Htest : isAudioPart p = Ok true)
    by (apply silent_part_test with d mime; assumption).
  assert (Haud : is_audio p = true) by (unfold is_audio; rewrite Htest; reflexivity).
  assert (Hn : is_null d = false) by (destruct d; try discriminate Hmime; reflexivity).
  assert (Halone : forall c, processAudioValues atob [p] c = (Ok tt, c, []))
    by (intros c; apply silent_part_alone with d; assumption).
  split; [exact Htest |].
  split.
  { intros before rest audioParts otherParts Hsep.
    destruct (classify (before ++ p :: rest)) as [bs | e] eqn:Hcl.
    - rewrite (separateContentParts_classified _ bs Hcl) in Hsep.
      injection Hsep as <- <-.
      rewrite !elements_select_values.
      rewrite (classify_is_audio _ bs Hcl), map_map.
      rewrite select_map_filter, (select_map_filter not_audio).
      split.
      + apply filter_In. split; [apply in_elt | exact Haud].
      + intros Hin. apply filter_In in Hin. destruct Hin as [_ Hin].
        unfold not_audio in Hin. rewrite Haud in Hin. discriminate Hin.
    - rewrite (separateContentParts_throws _ e Hcl) in Hsep. discriminate Hsep. }
  split.
  { intros slot c. rewrite processAudioParts_values. apply Halone. }
  intros before rest with_p without_p c Hwith Hwithout.
  pose proof (classify_app before (p :: rest)) as Hc1.
  pose proof (classify_app before rest) as Hc2.
  simpl in Hc1. rewrite Htest in Hc1. simpl in Hc1.
  destruct (classify before) as [b1 | e] eqn:Hb1; simpl in Hc1, Hc2.
  - destruct (classify rest) as [b2 | e] eqn:Hb2; simpl in Hc1, Hc2.
    + rewrite (processModelTurn_split atob with_p _ _ c Hwith Hc1).
      rewrite (processModelTurn_split atob without_p _ _ c Hwithout Hc2).
      pose proof (classify_length before b1 Hb1) as Hlen.
      rewrite !map_app. simpl.
      rewrite !select_app by (rewrite ?length_map; exact Hlen).
      simpl.
      rewrite (bind_ext_l _ _ _ c (processAudioValues_skip atob p _ _ Halone c)).
      reflexivity.
    + rewrite (processModelTurn_throws atob with_p _ e c Hwith Hc1).
      rewrite (processModelTurn_throws atob without_p _ e c Hwithout Hc2).
      reflexivity.
  - rewrite (processModelTurn_throws atob with_p _ e c Hwith Hc1).
    rewrite (processModelTurn_throws atob without_p _ e c Hwithout Hc2).
    reflexivity.
Qed.

Lemma audio_part_without_data_is_dropped_witness :
  let p := inline_part "audio/pcm;rate=24000" EmptyString in
  let d := JObject [("mimeType", JString "audio/pcm;rate=24000");
                    ("data", JString EmptyString)] in
  member "inlineData" p = Some d
  /\ member "mimeType" d = Some (JString "audio/pcm;rate=24000")
  /\ String.prefix "audio/pcm" "audio/pcm;rate=24000" = true
  /\ member "data" d = Some (JString EmptyString)
  /\ isAudioPart p = Ok true.
Proof.
  cbv zeta. repeat (split; [reflexivity |]).
  apply (audio_part_without_data_is_dropped Platform.atob
           (inline_part "audio/pcm;rate=24000" EmptyString)
           (JObject [("mimeType", JString "audio/pcm;rate=24000");
                     ("data", JString EmptyString)])
           "audio/pcm;rate=24000" eq_refl eq_refl eq_refl (or_intror eq_refl)).
Defined.

(* ------------------------------------------------------------------ *)
(** ** The first frame on a socket, and setupcomplete *)

Section Effects.

Variable P : Effect -> bool.

Lemma only_ret {A} (a : A) : only P (ret a).
Proof. intros c. reflexivity. Qed.

Lemma only_lift {A} (o : outcome A) : only P (lift o).
Proof. intros c. reflexivity. Qed.

Lemma only_effect (e : Effect) : P e = true -> only P (effect e).
Proof. intros H c. simpl. rewrite H. reflexivity. Qed.

Lemma only_bind {A B} (m : M A) (k : A -> M B) :
  only P m -> (forall a, only P (k a)) -> only P (bind m k).
Proof.
  intros Hm Hk c. specialize (Hm c). unfold bind, effects in *.
  destruct (m c) as [[[a | e] c1] e1]; simpl in *; [| exact Hm].
  specialize (Hk a c1). unfold effects in Hk.
  destruct (k a c1) as [[r c2] e2]. simpl in *.
  rewrite forallb_app, Hm, Hk. reflexivity.
Qed.

End Effects.

Lemma keeps_ret {A} (a : A) : keeps (ret a).
Proof. intros c. reflexivity. Qed.

Lemma keeps_lift {A} (o : outcome A) : keeps (lift o).
Proof. intros c. reflexivity. Qed.

Lemma keeps_effect (e : Effect) : keeps (effect e).
Proof. intros c. reflexivity. Qed.

Lemma keeps_bind {A B} (m : M A) (k : A -> M B) :
  keeps m -> (forall a, keeps (k a)) -> keeps (bind m k).
Proof.
  intros Hm Hk c. specialize (Hm c). unfold bind, after in *.
  destruct (m c) as [[[a | e] c1] e1]; simpl in *; [| exact Hm].
  specialize (Hk a c1). unfold after in Hk.
  destruct (k a c1) as [[r c2] e2]. simpl in *. congruence.
Qed.

(** Steps of the receive path that emit events other than setupcomplete
    and leave the client alone. *)
Ltac quiet_step :=
  repeat first
    [ apply only_ret | apply only_lift
    | apply only_effect; reflexivity
    | apply only_bind; [| intros ?] ].

Ltac keeps_step :=
  repeat first
    [ apply keeps_ret | apply keeps_lift | apply keeps_effect
    | apply keeps_bind; [| intros ?] ].

Lemma processAudioParts_quiet atob (A : list Element) :
  only is_quiet (processAudioParts atob A).
Proof.
  induction A as [| part rest IH]; [apply only_ret |].
  simpl. apply only_bind; [apply only_lift | intros d].
  apply only_bind; [| intros _; exact IH].
  destruct d as [base64 |]; [| apply only_ret].
  destruct (truthy (Some base64)); [| apply only_ret].
  unfold log, emit. quiet_step.
Qed.

Lemma processAudioParts_keeps atob (A : list Element) :
  keeps (processAudioParts atob A).
Proof.
  induction A as [| part rest IH]; [apply keeps_ret |].
  simpl. apply keeps_bind; [apply keeps_lift | intros d].
  apply keeps_bind; [| intros _; exact IH].
  destruct d as [base64 |]; [| apply keeps_ret].
  destruct (truthy (Some base64)); [| apply keeps_ret].
  unfold log, emit. keeps_step.
Qed.

Lemma processModelTurn_quiet atob (modelTurn : JsValue) :
  only is_quiet (processModelTurn atob modelTurn).
Proof.
  unfold processModelTurn.
  apply only_bind; [apply only_lift | intros parts].
  apply only_bind; [apply only_lift | intros [audioParts otherParts]].
  apply only_bind; [apply processAudioParts_quiet | intros _].
  destruct otherParts; unfold log, emit; quiet_step.
Qed.

Lemma processModelTurn_keeps atob (modelTurn : JsValue) :
  keeps (processModelTurn atob modelTurn).
Proof.
  unfold processModelTurn.
  apply keeps_bind; [apply keeps_lift | intros parts].
  apply keeps_bind; [apply keeps_lift | intros [audioParts otherParts]].
  apply keeps_bind; [apply processAudioParts_keeps | intros _].
  destruct otherParts; unfold log, emit; keeps_step.
Qed.

Lemma handleServerContent_quiet atob (response : JsonValue) :
  only is_quiet (handleServerContent atob response).
Proof.
  unfold handleServerContent.
  destruct (member "serverContent" response) as [serverContent |]; [| apply only_ret].
  destruct (isInterrupted serverContent); [unfold log, emit; quiet_step |].
  apply only_bind.
  - destruct (isTurnComplete serverContent); unfold log, emit; quiet_step.
  - intros _. destruct (isModelTurn serverContent);
      [apply processModelTurn_quiet | apply only_ret].
Qed.

Lemma handleServerContent_keeps atob (response : JsonValue) :
  keeps (handleServerContent atob response).
Proof.
  unfold handleServerContent.
  destruct (member "serverContent" response) as [serverContent |]; [| apply keeps_ret].
  destruct (isInterrupted serverContent); [unfold log, emit; keeps_step |].
  apply keeps_bind.
  - destruct (isTurnComplete serverContent); unfold log, emit; keeps_step.
  - intros _. destruct (isModelTurn serverContent);
      [apply processModelTurn_keeps | apply keeps_ret].
Qed.

Lemma quiet_is_passive (effs : list Effect) :
  forallb is_quiet effs = true -> forallb is_passive effs = true.
Proof.
  induction effs as [| e effs IH]; [reflexivity |].
  simpl. intros H. apply andb_true_iff in H. destruct H as [He H].
  rewrite (IH H), andb_true_r.
  destruct e as [ev | | | | |]; try discriminate He; reflexivity.
Qed.

Lemma receive_keeps JSON_parse atob (blob : Blob) :
  keeps (receive JSON_parse atob blob).
Proof.
  unfold receive. apply keeps_bind; [apply keeps_lift | intros response].
  destruct (isToolCallMessage response);
    [unfold handleToolCall, log, emit; keeps_step |].
  destruct (isToolCallCancellationMessage response);
    [unfold handleToolCallCancellation, log, emit; keeps_step |].
  destruct (isSetupCompleteMessage response);
    [unfold handleSetupComplete, log, emit; keeps_step |].
  destruct (isServerContenteMessage response);
    [apply handleServerContent_keeps | apply keeps_effect].
Qed.

(** A frame makes [receive] emit setupcomplete only if it parses to a
    value that passes the setupComplete guard. *)
Lemma receive_quiet_or_setup JSON_parse atob (blob : Blob) (c : Client) :
  forallb is_quiet (effects (receive JSON_parse atob blob c)) = true
  \/ (exists text response,
         blob = Readable text
         /\ JSON_parse text = Some response
         /\ isSetupCompleteMessage response = true).
Proof.
  destruct blob as [text |]; [| left; reflexivity].
  destruct (JSON_parse text) as [response |] eqn:Hparse.
  - destruct (isSetupCompleteMessage response) eqn:Hsetup.
    + right. exists text, response. auto.
    + left. unfold receive, blobToJSON. rewrite Hparse.
      change (lift (Ok response)) with (ret response).
      rewrite bind_ret_l, Hsetup. revert c.
      match goal with |- forall c, forallb _ (effects (?m c)) = true =>
        change (only is_quiet m) end.
      destruct (isToolCallMessage response);
        [unfold handleToolCall, log, emit; quiet_step |].
      destruct (isToolCallCancellationMessage response);
        [unfold handleToolCallCancellation, log, emit; quiet_step |].
      destruct (isServerContenteMessage response);
        [apply handleServerContent_quiet | apply only_effect; reflexivity].
  - left. unfold receive, bind, lift, blobToJSON. rewrite Hparse. reflexivity.
Qed.

Lemma receive_passive JSON_parse atob (blob : Blob) (c : Client) :
  forallb is_passive (effects (receive JSON_parse atob blob c)) = true.
Proof.
  destruct (receive_quiet_or_setup JSON_parse atob blob c)
    as [Hq | (text & response & -> & Hparse & Hsetup)].
  - apply quiet_is_passive. exact Hq.
  - unfold receive, blobToJSON. rewrite Hparse.
    change (lift (Ok response)) with (ret response).
    rewrite bind_ret_l, Hsetup.
    destruct (isToolCallMessage response); [reflexivity |].
    destruct (isToolCallCancellationMessage response); reflexivity.
Qed.

Lemma sends_passive (w : WebSocket) (effs : list Effect) :
  forallb is_passive effs = true -> sends w effs = [].
Proof.
  induction effs as [| e effs IH]; [reflexivity |].
  simpl. intros H. apply andb_true_iff in H. destruct H as [He H].
  destruct e; try discriminate He; apply IH; exact H.
Qed.

Lemma quiet_no_setupcomplete (effs : list Effect) :
  forallb is_quiet effs = true -> ~ In (Emit EvSetupComplete) effs.
Proof.
  intros H Hin. rewrite forallb_forall in H. specialize (H _ Hin). discriminate H.
Qed.

Lemma frames_on_app (w : WebSocket) (l1 l2 : list Observation) :
  frames_on w (l1 ++ l2) = (frames_on w l1 ++ frames_on w l2)%list.
Proof.
  induction l1 as [| o l1 IH]; [reflexivity |].
  simpl. destruct o as [[] | | |]; simpl; try exact IH.
  destruct (Nat.eqb w0 w); simpl; rewrite IH; reflexivity.
Qed.

Lemma frames_on_Did (w : WebSocket) (effs : list Effect) :
  frames_on w (map Did effs) = sends w effs.
Proof.
  induction effs as [| e effs IH]; [reflexivity |].
  simpl. destruct e; simpl; try exact IH.
  destruct (Nat.eqb w0 w); rewrite IH; reflexivity.
Qed.

Lemma In_Did (e : Effect) (effs : list Effect) :
  In (Did e) (map Did effs) -> In e effs.
Proof.
  intros H. apply in_map_iff in H. destruct H as (e' & Heq & Hin).
  injection Heq as ->. exact Hin.
Qed.

(** The operations that are tame. *)
Ltac tame_by_cases :=
  intros [[cur |] cfg u] w;
  unfold handleCloseConnection, onError, send, sendRealtimeInput, sendToolResponse,
    disconnect, _sendDirect, bind, gets, set_ws, log, emit, effect, ret, throw,
    effects, after;
  cbn;
  repeat match goal with
         | |- context [Nat.eqb ?a ?b] => destruct (Nat.eqb_spec a b); subst; cbn
         end;
  (split; [auto | split; [auto; try discriminate |]]);
  intros Hin; repeat (destruct Hin as [Hin | Hin]; [discriminate Hin |]); exact Hin.

Lemma send_tame parts turnComplete : tame (send parts turnComplete).
Proof. tame_by_cases. Qed.

Lemma sendRealtimeInput_tame chunks : tame (sendRealtimeInput chunks).
Proof. tame_by_cases. Qed.

Lemma sendToolResponse_tame toolResponse : tame (sendToolResponse toolResponse).
Proof. tame_by_cases. Qed.

Lemma disconnect_tame arg : tame (disconnect arg).
Proof. destruct arg as [arg |]; tame_by_cases. Qed.

Lemma handleCloseConnection_tame w0 ev : tame (handleCloseConnection w0 ev).
Proof. tame_by_cases. Qed.

Lemma onError_tame w0 ev : tame (onError w0 ev).
Proof. tame_by_cases. Qed.

Lemma onMessage_frames JSON_parse atob (data : MessageData) (c : Client) (w : WebSocket) :
  sends w (effects (onMessage JSON_parse atob data c)) = []
  /\ after (onMessage JSON_parse atob data c) = c.
Proof.
  destruct data as [blob |]; [| split; reflexivity].
  split; [apply sends_passive, receive_passive | apply receive_keeps].
Qed.

Lemma frames_on_no_Did (w : WebSocket) (obs : list Observation) :
  (forall e, ~ In (Did e) obs) -> frames_on w obs = [].
Proof.
  induction obs as [| o obs IH]; intros H; [reflexivity |].
  destruct o as [e | | |];
    try (simpl; apply IH; intros e' Hin; apply (H e'); right; exact Hin).
  exfalso. apply (H e). left. reflexivity.
Qed.

Lemma settle_client (w : WebSocket) (s : Settle) (wd : World) :
  client (fst (settle w s wd)) = client wd.
Proof.
  unfold settle. destruct (nth_error (sockets wd) w) as [sock |]; [| reflexivity].
  destruct (settled sock); [reflexivity |].
  destruct s as [value | e]; [reflexivity |].
  destruct (Nat.eqb (attempt sock) reconnectAttempts); reflexivity.
Qed.

Lemma settle_no_effect (w : WebSocket) (s : Settle) (wd : World) (e : Effect) :
  ~ In (Did e) (snd (settle w s wd)).
Proof.
  unfold settle. destruct (nth_error (sockets wd) w) as [sock |]; [| intros []].
  destruct (settled sock); [intros [] |].
  destruct s as [value | e'].
  - intros [H | []]. discriminate H.
  - destruct (Nat.eqb (attempt sock) reconnectAttempts).
    + intros [H | []]. discriminate H.
    + intros [].
Qed.

(** A run of a piece of the client in a world, seen from outside. *)
Lemma exec_spec {A} (m : M A) (wd : World) :
  fst (fst (exec m wd)) = result (m (client wd))
  /\ client (snd (fst (exec m wd))) = after (m (client wd))
  /\ snd (exec m wd) = map Did (effects (m (client wd))).
Proof.
  unfold exec, result, after, effects.
  destruct (m (client wd)) as [[r c] effs]. auto.
Qed.

Lemma call_spec {A} (m : M A) (wd : World) :
  client (fst (call m wd)) = after (m (client wd))
  /\ (forall w, frames_on w (snd (call m wd)) = sends w (effects (m (client wd))))
  /\ (forall e, In (Did e) (snd (call m wd)) -> In e (effects (m (client wd)))).
Proof.
  unfold call, exec, result, after, effects.
  destruct (m (client wd)) as [[[a | e] c] effs]; simpl.
  - split; [reflexivity |]. split; [intros w; apply frames_on_Did |].
    intros e. apply In_Did.
  - split; [reflexivity |]. split.
    + intros w. rewrite frames_on_app, frames_on_Did. simpl. apply app_nil_r.
    + intros e0 Hin. apply in_app_or in Hin. destruct Hin as [Hin | [Hin | []]].
      * apply In_Did. exact Hin.
      * discriminate Hin.
Qed.

Lemma call_tame {A} (m : M A) (wd : World) :
  tame m ->
  frames_step (client wd) (snd (call m wd)) (client (fst (call m wd)))
  /\ ~ In (Did (Emit EvSetupComplete)) (snd (call m wd)).
Proof.
  intros Ht. destruct (call_spec m wd) as (Hc & Hf & Hin).
  split.
  - intros w. destruct (Ht (client wd) w) as (Hs & Hw & _).
    rewrite Hf, Hc. split.
    + destruct Hs; auto.
    + intros H. left. apply Hw. exact H.
  - intros H. apply Hin in H. destruct (Ht (client wd) 0) as (_ & _ & Hno).
    apply Hno. exact H.
Qed.

(** The open listener, with a config stored. *)
Lemma handleOpenConnection_run (c : Client) (cfg : LiveConfig) (w : WebSocket) (ev : Event) :
  config c = Some cfg ->
  handleOpenConnection w ev c
  = (Ok (Resolve true),
     {| ws := Some w; config := Some cfg; url := url c |},
     [Emit (EvLog {| type := "client." ++ event_type ev;
                     message := LogText "Connected to socket" |});
      Emit EvOpen;
      WsSend w (SetupMessage cfg);
      Emit (EvLog {| type := "client.send"; message := LogText "setup" |});
      RemoveErrorListener w;
      AddCloseListener w]).
Proof.
  intros H. destruct c as [cur cfg' u]. simpl in H. subst cfg'. reflexivity.
Qed.

Lemma handleOpenConnection_unconfigured (c : Client) (w : WebSocket) (ev : Event) :
  config c = None ->
  handleOpenConnection w ev c
  = (Ok (Reject (Error "Invalid config provided to connect()")), c, []).
Proof.
  intros H. destruct c as [cur cfg' u]. simpl in H. subst cfg'. reflexivity.
Qed.

Lemma frames_step_silent (c c1 : Client) (obs : list Observation) :
  (forall w, frames_on w obs = []) -> ws c1 = ws c -> frames_step c obs c1.
Proof.
  intros Hf Hw w. split; [left; apply Hf |].
  intros H. left. rewrite <- Hw. exact H.
Qed.

Lemma settle_after (w : WebSocket) (s : Settle) (wd : World) (effs : list Effect) :
  forall wd2 obs2, settle w s wd = (wd2, obs2) ->
    client wd2 = client wd
    /\ (forall w', frames_on w' (map Did effs ++ obs2) = sends w' effs)
    /\ (forall e, In (Did e) (map Did effs ++ obs2) -> In e effs).
Proof.
  intros wd2 obs2 Hs.
  pose proof (settle_client w s wd) as Hc.
  pose proof (settle_no_effect w s wd) as Hn.
  rewrite Hs in Hc, Hn. simpl in Hc, Hn.
  split; [exact Hc |]. split.
  - intros w'. rewrite frames_on_app, frames_on_Did, (frames_on_no_Did w' obs2 Hn).
    apply app_nil_r.
  - intros e Hin. apply in_app_or in Hin. destruct Hin as [Hin | Hin].
    + apply In_Did. exact Hin.
    + exfalso. exact (Hn e Hin).
Qed.

(** One turn of the event loop: what it does to the frames of each socket,
    and when it emits setupcomplete. *)
Lemma step_frames JSON_parse atob (a : Action) (wd : World) :
  frames_step (client wd) (snd (step JSON_parse atob a wd))
              (client (fst (step JSON_parse atob a wd)))
  /\ (In (Did (Emit EvSetupComplete)) (snd (step JSON_parse atob a wd)) ->
      exists w text response,
        a = SocketMessage w (BlobData (Readable text))
        /\ JSON_parse text = Some response
        /\ isSetupCompleteMessage response = true).
Proof.
  assert (Hidle : frames_step (client wd) [] (client wd)
                  /\ (In (Did (Emit EvSetupComplete)) [] ->
                      exists w text response,
                        a = SocketMessage w (BlobData (Readable text))
                        /\ JSON_parse text = Some response
                        /\ isSetupCompleteMessage response = true)).
  { split; [apply frames_step_silent; reflexivity | intros []]. }
  destruct a as [cfg | | parts tc | chunks | tr | w ev | w ev | w ev | w data |];
    cbn [step].
  - (* connect *)
    unfold connect, exec. cbn. split; [| intros []].
    apply frames_step_silent; reflexivity.
  - destruct (call_tame (disconnect None) wd (disconnect_tame None)) as [H1 H2].
    split; [exact H1 | intros H; contradiction].
  - destruct (call_tame (send parts tc) wd (send_tame parts tc)) as [H1 H2].
    split; [exact H1 | intros H; contradiction].
  - destruct (call_tame (sendRealtimeInput chunks) wd (sendRealtimeInput_tame chunks))
      as [H1 H2].
    split; [exact H1 | intros H; contradiction].
  - destruct (call_tame (sendToolResponse tr) wd (sendToolResponse_tame tr)) as [H1 H2].
    split; [exact H1 | intros H; contradiction].
  - (* open *)
    destruct (nth_error (sockets wd) w) as [[n rs st el cl] |]; [| exact Hidle].
    destruct rs; try exact Hidle.
    unfold exec. cbn [client sockets timers].
    destruct (config (client wd)) as [cfg |] eqn:Hcfg.
    + rewrite (handleOpenConnection_run (client wd) cfg w ev Hcfg).
      match goal with
      | |- context [settle w ?s ?W] => destruct (settle w s W) as [wd2 obs2] eqn:Hs
      end.
      match type of Hs with
      | settle _ _ ?W = _ =>
          destruct (settle_after w (Resolve true) W
                      [Emit (EvLog {| type := "client." ++ event_type ev;
                                      message := LogText "Connected to socket" |});
                       Emit EvOpen;
                       WsSend w (SetupMessage cfg);
                       Emit (EvLog {| type := "client.send"; message := LogText "setup" |});
                       RemoveErrorListener w;
                       AddCloseListener w]
                      wd2 obs2 Hs) as (Hc & Hf & Hin)
      end.
      cbn [fst snd]. split.
      * intros w'. rewrite Hf, Hc. cbn.
        destruct (Nat.eqb_spec w w') as [-> | Hne].
        -- split; [right; right; eauto | intros _; right; discriminate].
        -- split; [left; reflexivity |].
           intros H. injection H as H. contradiction.
      * intros H. apply Hin in H.
        repeat (destruct H as [H | H]; [discriminate H |]). contradiction.
    + rewrite (handleOpenConnection_unconfigured (client wd) w ev Hcfg).
      match goal with
      | |- context [settle w ?s ?W] => destruct (settle w s W) as [wd2 obs2] eqn:Hs
      end.
      match type of Hs with
      | settle _ ?s ?W = _ =>
          destruct (settle_after w s W [] wd2 obs2 Hs)
            as (Hc & Hf & Hin)
      end.
      cbn [fst snd]. split.
      * apply frames_step_silent; [intros w'; rewrite Hf; reflexivity |].
        rewrite Hc. reflexivity.
      * intros H. apply Hin in H. contradiction.
  - (* error *)
    destruct (nth_error (sockets wd) w) as [sock |]; [| exact Hidle].
    destruct (error_listener sock); [| exact Hidle].
    destruct (exec_spec (onError w ev) wd) as (Hr & Hc & Ho).
    destruct (onError_tame w ev (client wd) 0) as (_ & _ & Hno).
    destruct (exec (onError w ev) wd) as [[[e | e] wd1] obs] eqn:Hx;
      cbn [fst snd] in Hr, Hc, Ho.
    + destruct (settle w (Reject e) wd1) as [wd2 obs2] eqn:Hs.
      destruct (settle_after w (Reject e) wd1
                  (effects (onError w ev (client wd))) wd2 obs2 Hs)
        as (Hc2 & Hf & Hin).
      cbn [fst snd]. rewrite Ho. split.
      * intros w'. destruct (onError_tame w ev (client wd) w') as (Hs' & Hw' & _).
        rewrite Hf, Hc2, Hc. split.
        -- destruct Hs'; auto.
        -- intros H. left. apply Hw'. exact H.
      * intros H. apply Hin in H. contradiction.
    + cbn [fst snd]. rewrite Ho. split.
      * intros w'. destruct (onError_tame w ev (client wd) w') as (Hs' & Hw' & _).
        rewrite frames_on_app, frames_on_Did, Hc. cbn. rewrite app_nil_r. split.
        -- destruct Hs'; auto.
        -- intros H. left. apply Hw'. exact H.
      * intros H. apply in_app_or in H. destruct H as [H | [H | []]].
        -- apply In_Did in H. contradiction.
        -- discriminate H.
  - (* close *)
    destruct (nth_error (sockets wd) w) as [sock |]; [| exact Hidle].
    destruct (close_listener sock).
    + destruct (readyState sock); try exact Hidle;
        match goal with
        | |- context [call ?m ?W] =>
            destruct (call_tame m W (handleCloseConnection_tame w ev)) as [H1 H2];
            split; [exact H1 | intros H; contradiction]
        end.
    + destruct (readyState sock); try exact Hidle;
        (split; [apply frames_step_silent; reflexivity | intros []]).
  - (* message *)
    destruct (nth_error (sockets wd) w) as [[n rs st el cl] |]; [| exact Hidle].
    destruct rs; try exact Hidle.
    destruct (call_spec (onMessage JSON_parse atob data) wd) as (Hc & Hf & Hin).
    destruct (onMessage_frames JSON_parse atob data (client wd) 0) as [_ Hkeep].
    split.
    + apply frames_step_silent.
      * intros w'. rewrite Hf.
        apply (onMessage_frames JSON_parse atob data (client wd) w').
      * rewrite Hc, Hkeep. reflexivity.
    + intros H. apply Hin in H.
      destruct data as [blob |]; [| destruct H as [H | []]; discriminate H].
      simpl in H.
      destruct (receive_quiet_or_setup JSON_parse atob blob (client wd))
        as [Hq | (text & response & -> & Hparse & Hsetup)].
      * exfalso. exact (quiet_no_setupcomplete _ Hq H).
      * exists w, text, response. auto.
  - (* timer *)
    destruct (timers wd); [exact Hidle |].
    split; [apply frames_step_silent; reflexivity | intros []].
Qed.

Lemma frames_invariant_step (c c1 : Client) (past obs : list Observation) :
  frames_invariant c past ->
  frames_step c obs c1 ->
  frames_invariant c1 (past ++ obs).
Proof.
  intros Hinv Hstep w.
  destruct (Hinv w) as [Hfirst Hstored]. destruct (Hstep w) as [Hs1 Hs2].
  rewrite frames_on_app. split.
  - destruct Hfirst as [Hnil | (cfg & rest & Heq)].
    + rewrite Hnil. simpl.
      destruct Hs1 as [Hs1 | [Hs1 | Hs1]]; auto.
      exfalso. apply (Hstored Hs1). exact Hnil.
    + right. rewrite Heq. simpl. eauto.
  - intros Hw Happ. apply app_eq_nil in Happ. destruct Happ as [Hp Ho].
    destruct (Hs2 Hw) as [Hold | Hnew].
    + apply (Hstored Hold). exact Hp.
    + apply Hnew. exact Ho.
Qed.

Lemma run_frames_invariant JSON_parse atob (actions : list Action) :
  forall (wd : World) (past : list Observation),
    frames_invariant (client wd) past ->
    frames_invariant (client (snd (run JSON_parse atob actions wd)))
                     (past ++ observations (fst (run JSON_parse atob actions wd))).
Proof.
  induction actions as [| a actions IH]; intros wd past Hinv.
  - simpl. rewrite app_nil_r. exact Hinv.
  - simpl.
    pose proof (proj1 (step_frames JSON_parse atob a wd)) as Hstep.
    destruct (step JSON_parse atob a wd) as [wd1 obs]. simpl in Hstep.
    specialize (IH wd1 (past ++ obs)%list (frames_invariant_step _ _ _ _ Hinv Hstep)).
    destruct (run JSON_parse atob actions wd1) as [history wd2].
    simpl in *. unfold observations in *. simpl.
    rewrite app_assoc. exact IH.
Qed.

Lemma run_setupcomplete JSON_parse atob (actions : list Action) :
  forall (wd : World) (a : Action) (obs : list Observation),
    In (a, obs) (fst (run JSON_parse atob actions wd)) ->
    In (Did (Emit EvSetupComplete)) obs ->
    exists w text response,
      a = SocketMessage w (BlobData (Readable text))
      /\ JSON_parse text = Some response
      /\ isSetupCompleteMessage response = true.
Proof.
  induction actions as [| a0 actions IH]; intros wd a obs Hin Hsetup.
  - contradiction.
  - simpl in Hin.
    pose proof (proj2 (step_frames JSON_parse atob a0 wd)) as Hstep.
    destruct (step JSON_parse atob a0 wd) as [wd1 obs0]. simpl in Hstep.
    destruct (run JSON_parse atob actions wd1) as [history wd2] eqn:Hrun.
    simpl in Hin. destruct Hin as [Heq | Hin].
    + injection Heq as <- <-. apply Hstep. exact Hsetup.
    + apply (IH wd1 a obs); [rewrite Hrun; exact Hin | exact Hsetup].
Qed.

(** The stored config changes in [connect] only. *)
Ltac config_by_cases :=
  intros [[cur |] cfg u];
  unfold handleCloseConnection, onError, send, sendRealtimeInput, sendToolResponse,
    disconnect, _sendDirect, bind, gets, set_ws, log, emit, effect, ret, throw,
    effects, after;
  cbn;
  repeat match goal with
         | |- context [Nat.eqb ?a ?b] => destruct (Nat.eqb a b); cbn
         end;
  reflexivity.

Lemma send_keeps_config parts turnComplete : keeps_config (send parts turnComplete).
Proof. config_by_cases. Qed.

Lemma sendRealtimeInput_keeps_config chunks : keeps_config (sendRealtimeInput chunks).
Proof. config_by_cases. Qed.

Lemma sendToolResponse_keeps_config toolResponse :
  keeps_config (sendToolResponse toolResponse).
Proof. config_by_cases. Qed.

Lemma handleCloseConnection_keeps_config w ev : keeps_config (handleCloseConnection w ev).
Proof. config_by_cases. Qed.

Lemma onError_keeps_config w ev : keeps_config (onError w ev).
Proof. config_by_cases. Qed.

Lemma handleOpenConnection_keeps_config w ev : keeps_config (handleOpenConnection w ev).
Proof. intros [cur [cfg |] u]; reflexivity. Qed.

Lemma onMessage_keeps_config JSON_parse atob data :
  keeps_config (onMessage JSON_parse atob data).
Proof.
  intros c. rewrite (proj2 (onMessage_frames JSON_parse atob data c 0)). reflexivity.
Qed.

Lemma apply_effects_nil (effs : list Effect) : fold_left apply_effect effs [] = [].
Proof.
  induction effs as [| e effs IH]; [reflexivity |].
  simpl. destruct e; exact IH.
Qed.

Lemma call_world {A} (m : M A) (wd : World) :
  sockets (fst (call m wd)) = fold_left apply_effect (effects (m (client wd))) (sockets wd)
  /\ timers (fst (call m wd)) = timers wd.
Proof.
  unfold call, exec, effects. destruct (m (client wd)) as [[[a | e] c] effs]; auto.
Qed.

Lemma call_keeps_config {A} (m : M A) (wd : World) :
  keeps_config m -> config (client (fst (call m wd))) = config (client wd).
Proof.
  intros H. rewrite (proj1 (call_spec m wd)). apply H.
Qed.

Lemma exec_settle_config {A} (m : M A) (wd : World) (w : WebSocket)
      (k : A -> Settle) :
  keeps_config m ->
  config (client (fst (match exec m wd with
                       | (Ok a, wd1, obs) =>
                           let (wd2, obs2) := settle w (k a) wd1 in
                           (wd2, (obs ++ obs2)%list)
                       | (Throw e, wd1, obs) => (wd1, (obs ++ [Raised e])%list)
                       end)))
  = config (client wd).
Proof.
  intros H. destruct (exec_spec m wd) as (_ & Hc & _).
  destruct (exec m wd) as [[[a | e] wd1] obs]; cbn [fst snd] in Hc.
  - pose proof (settle_client w (k a) wd1) as Hs.
    destruct (settle w (k a) wd1) as [wd2 obs2]. cbn [fst] in *.
    rewrite Hs, Hc. apply H.
  - cbn [fst]. rewrite Hc. apply H.
Qed.

Lemma step_config JSON_parse atob (a : Action) (wd : World) :
  (forall cfg, a <> CallConnect cfg) ->
  config (client (fst (step JSON_parse atob a wd))) = config (client wd).
Proof.
  intros Hnc.
  destruct a as [cfg | | parts tc | chunks | tr | w ev | w ev | w ev | w data |];
    cbn [step].
  - exfalso. apply (Hnc cfg). reflexivity.
  - apply call_keeps_config. intros c. apply disconnect_keeps_config.
  - apply call_keeps_config, send_keeps_config.
  - apply call_keeps_config, sendRealtimeInput_keeps_config.
  - apply call_keeps_config, sendToolResponse_keeps_config.
  - destruct (nth_error (sockets wd) w) as [[n rs st el cl] |]; [| reflexivity].
    destruct rs; try reflexivity.
    match goal with
    | |- context [exec ?m ?W] =>
        apply (exec_settle_config m W w (fun s => s)
                 (handleOpenConnection_keeps_config w ev))
    end.
  - destruct (nth_error (sockets wd) w) as [sock |]; [| reflexivity].
    destruct (error_listener sock); [| reflexivity].
    apply (exec_settle_config (onError w ev) wd w (fun e => Reject e)
             (onError_keeps_config w ev)).
  - destruct (nth_error (sockets wd) w) as [sock |]; [| reflexivity].
    destruct (readyState sock); try reflexivity;
      (destruct (close_listener sock); [| reflexivity];
       match goal with
       | |- context [call ?m ?W] =>
           apply (call_keeps_config m W (handleCloseConnection_keeps_config w ev))
       end).
  - destruct (nth_error (sockets wd) w) as [[n rs st el cl] |]; [| reflexivity].
    destruct rs; try reflexivity.
    apply call_keeps_config, onMessage_keeps_config.
  - destruct (timers wd); reflexivity.
Qed.

Lemma step_configured JSON_parse atob (a : Action) (wd : World) :
  configured wd -> configured (fst (step JSON_parse atob a wd)).
Proof.
  intros Hconf.
  assert (Hcall : forall {A} (m : M A),
             sockets wd = [] -> timers wd = [] ->
             sockets (fst (call m wd)) = [] /\ timers (fst (call m wd)) = []).
  { intros A m Hs Ht. destruct (call_world m wd) as [H1 H2].
    rewrite H1, H2, Hs, Ht. split; [apply apply_effects_nil | reflexivity]. }
  destruct Hconf as [[Hs Ht] | Hcfg].
  - destruct a as [cfg | | parts tc | chunks | tr | w ev | w ev | w ev | w data |];
      cbn [step];
      try (left; apply Hcall; assumption);
      try (rewrite Hs; destruct w; left; auto).
    + right. unfold connect, exec. cbn. discriminate.
    + rewrite Ht. left. auto.
  - right. destruct a as [cfg | | parts tc | chunks | tr | w ev | w ev | w ev | w data |];
      try (rewrite step_config; [exact Hcfg | intros cfg0; discriminate]).
    cbn [step]. unfold connect, exec. cbn. discriminate.
Qed.

Lemma run_configured JSON_parse atob (actions : list Action) :
  forall wd, configured wd -> configured (snd (run JSON_parse atob actions wd)).
Proof.
  induction actions as [| a actions IH]; intros wd H; [exact H |].
  simpl.
  pose proof (step_configured JSON_parse atob a wd H) as H1.
  destruct (step JSON_parse atob a wd) as [wd1 obs]. cbn [fst] in H1.
  specialize (IH wd1 H1).
  destruct (run JSON_parse atob actions wd1) as [history wd2]. exact IH.
Qed.

Lemma reachable_configured JSON_parse atob (wd : World) :
  reachable JSON_parse atob wd -> configured wd.
Proof.
  intros (url & apiKey & actions & ->).
  apply run_configured. left. split; reflexivity.
Qed.

(** In a configured world, the open event of a connecting socket makes the
    client send the setup message with the stored config on that socket. *)
Lemma open_sends_setup JSON_parse atob (wd : World) (w : WebSocket) (sock : Socket)
      (ev : Event) :
  configured wd ->
  nth_error (sockets wd) w = Some sock ->
  readyState sock = CONNECTING ->
  exists cfg,
    config (client wd) = Some cfg
    /\ frames_on w (snd (step JSON_parse atob (SocketOpen w ev) wd)) = [SetupMessage cfg]
    /\ In (Did (Emit EvOpen)) (snd (step JSON_parse atob (SocketOpen w ev) wd))
    /\ ws (client (fst (step JSON_parse atob (SocketOpen w ev) wd))) = Some w.
Proof.
  intros Hconf Hsock Hstate.
  destruct Hconf as [[Hs _] | Hcfg];
    [rewrite Hs in Hsock; destruct w; discriminate Hsock |].
  destruct (config (client wd)) as [cfg |] eqn:Hc; [| contradiction].
  exists cfg. split; [reflexivity |].
  cbn [step]. rewrite Hsock.
  destruct sock as [n rs st el cl]. cbn in Hstate. subst rs.
  unfold exec. cbn [client sockets timers].
  rewrite (handleOpenConnection_run (client wd) cfg w ev Hc).
  match goal with
  | |- context [settle w ?s ?W] => destruct (settle w s W) as [wd2 obs2] eqn:Hsettle
  end.
  match type of Hsettle with
  | settle _ ?s ?W = _ =>
      pose proof (settle_client w s W) as Hcl;
      pose proof (settle_no_effect w s W) as Hno
  end.
  rewrite Hsettle in Hcl, Hno. cbn [fst snd] in Hcl, Hno |- *.
  split.
  - rewrite frames_on_app, (frames_on_no_Did w obs2 Hno). cbn.
    rewrite Nat.eqb_refl. reflexivity.
  - split; [apply in_or_app; left; right; left; reflexivity |].
    rewrite Hcl. reflexivity.
Qed.

(** C6.  When the open event of a socket arrives and a config is stored,
    the listener logs, emits the open event, stores the socket and at once
    sends the setup message that carries the stored config, before it
    resolves the attempt.  In every world a freshly built client can reach
    (by any interleaving of calls from the application, socket events and
    retry timers) a config is stored whenever a socket is connecting, so the
    open event of such a socket sends the setup message with the stored
    config as the only frame of that turn.  In every run of a freshly built
    client the first frame sent on any socket is a setup message.  And in
    every such run the setupcomplete event is emitted only in the turn that
    handles an incoming frame whose JSON has a setupComplete member of type
    object. *)
Theorem setup_is_first_frame
  (JSON_parse : string -> option JsonValue) (atob : JsonValue -> option string) :
  (forall (c : Client) (cfg : LiveConfig) (w : WebSocket) (ev : Event),
      config c = Some cfg ->
      handleOpenConnection w ev c
      = (Ok (Resolve true),
         {| ws := Some w; config := Some cfg; url := url c |},
         [Emit (EvLog {| type := "client." ++ event_type ev;
                         message := LogText "Connected to socket" |});
          Emit EvOpen;
          WsSend w (SetupMessage cfg);
          Emit (EvLog {| type := "client.send"; message := LogText "setup" |});
          RemoveErrorListener w;
          AddCloseListener w]))
  /\ (forall (wd : World) (w : WebSocket) (sock : Socket) (ev : Event),
        reachable JSON_parse atob wd ->
        nth_error (sockets wd) w = Some sock ->
        readyState sock = CONNECTING ->
        exists cfg,
          config (client wd) = Some cfg
          /\ frames_on w (snd (step JSON_parse atob (SocketOpen w ev) wd))
             = [SetupMessage cfg]
          /\ In (Did (Emit EvOpen)) (snd (step JSON_parse atob (SocketOpen w ev) wd))
          /\ ws (client (fst (step JSON_parse atob (SocketOpen w ev) wd))) = Some w)
  /\ (forall (url : option string) (apiKey : string)
             (actions : list Action) (w : WebSocket),
        match frames_on w (observations
                             (fst (run JSON_parse atob actions
                                     (start (constructor url apiKey))))) with
        | [] => True
        | first :: _ => exists cfg, first = SetupMessage cfg
        end)
  /\ (forall (url : option string) (apiKey : string)
             (actions : list Action) (a : Action) (obs : list Observation),
        In (a, obs) (fst (run JSON_parse atob actions (start (constructor url apiKey)))) ->
        In (Did (Emit EvSetupComplete)) obs ->
        exists w text response,
          a = SocketMessage w (BlobData (Readable text))
          /\ JSON_parse text = Some response
          /\ isSetupCompleteMessage response = true).
Proof.
  split; [intros c cfg w ev H; apply handleOpenConnection_run; exact H |].
  split.
  { intros wd w sock ev Hreach. apply open_sends_setup.
    apply (reachable_configured JSON_parse atob). exact Hreach. }
  split.
  - intros url apiKey actions w.
    assert (Hinit : frames_invariant (client (start (constructor url apiKey))) []).
    { intros w'. split; [left; reflexivity | intros H; discriminate H]. }
    pose proof (run_frames_invariant JSON_parse atob actions _ [] Hinit w) as [Hfirst _].
    simpl in Hfirst.
    destruct Hfirst as [-> | (cfg & rest & ->)]; [exact I | eauto].
  - intros url apiKey actions a obs. apply run_setupcomplete.
Qed.

Lemma setup_is_first_frame_witness :
  let c := {| ws := None; config := Some example_config; url := "wss://host?key=k" |} in
  let fresh := start (constructor None "key") in
  let history := fst (run Platform.JSON_parse Platform.atob session fresh) in
  let connecting :=
    snd (run Platform.JSON_parse Platform.atob [CallConnect example_config] fresh) in
  let confirmed :=
    [Did (Emit (EvLog {| type := "server.send"; message := LogText "setupComplete" |}));
     Did (Emit EvSetupComplete)] in
  config c = Some example_config
  /\ reachable Platform.JSON_parse Platform.atob connecting
  /\ In (SocketMessage 0 (BlobData (Readable setupComplete_text)), confirmed) history
  /\ In (Did (Emit EvSetupComplete)) confirmed
  /\ result (handleOpenConnection 0 open_event c) = Ok (Resolve true)
  /\ frames_on 0 (observations history)
     = [SetupMessage example_config;
        ClientContentMessage [{| role := "user"; parts := [text_part] |}] true]
  /\ (exists cfg,
         config (client connecting) = Some cfg
         /\ frames_on 0 (snd (step Platform.JSON_parse Platform.atob
                                (SocketOpen 0 open_event) connecting))
            = [SetupMessage cfg]
         /\ In (Did (Emit EvOpen))
               (snd (step Platform.JSON_parse Platform.atob
                       (SocketOpen 0 open_event) connecting))
         /\ ws (client (fst (step Platform.JSON_parse Platform.atob
                               (SocketOpen 0 open_event) connecting))) = Some 0)
  /\ exists w text response,
       SocketMessage 0 (BlobData (Readable setupComplete_text))
       = SocketMessage w (BlobData (Readable text))
       /\ Platform.JSON_parse text = Some response
       /\ isSetupCompleteMessage response = true.
Proof.
  cbv zeta.
  assert (Hcfg : config {| ws := None; config := Some example_config;
                           url := "wss://host?key=k" |} = Some example_config)
    by reflexivity.
  assert (Hreach : reachable Platform.JSON_parse Platform.atob
                     (snd (run Platform.JSON_parse Platform.atob
                             [CallConnect example_config]
                             (start (constructor None "key")))))
    by (exists None, "key", [CallConnect example_config]; reflexivity).
  assert (Hin : In (SocketMessage 0 (BlobData (Readable setupComplete_text)),
                    [Did (Emit (EvLog {| type := "server.send";
                                         message := LogText "setupComplete" |}));
                     Did (Emit EvSetupComplete)])
                   (fst (run Platform.JSON_parse Platform.atob session
                           (start (constructor None "key")))))
    by (vm_compute; right; right; left; reflexivity).
  assert (Hev : In (Did (Emit EvSetupComplete))
                   [Did (Emit (EvLog {| type := "server.send";
                                        message := LogText "setupComplete" |}));
                    Did (Emit EvSetupComplete)])
    by (right; left; reflexivity).
  destruct (setup_is_first_frame Platform.JSON_parse Platform.atob)
    as (Hopen & Hattempt & _ & Hsetup).
  split; [exact Hcfg |]. split; [exact Hreach |].
  split; [exact Hin |]. split; [exact Hev |].
  split; [rewrite (Hopen _ example_config 0 open_event Hcfg); reflexivity |].
  split; [reflexivity |].
  split.
  - exact (Hattempt _ 0 _ open_event Hreach eq_refl eq_refl).
  - exact (Hsetup None "key" session _ _ Hin Hev).
Defined.

(* ------------------------------------------------------------------ *)
(** ** The log store *)

Lemma log_merges (entry prev : Logger.StreamingLog) (state : Logger.StoreLoggerState) :
  Logger.at_last (Logger.logs state) = Some prev ->
  duplicate_of prev entry = true ->
  Logger.logs (Logger.log entry state)
  = (removelast (Logger.logs state) ++ [counted_again prev])%list.
Proof.
  intros Hlast Hdup. unfold Logger.log. rewrite Hlast.
  unfold duplicate_of in Hdup. rewrite Hdup. reflexivity.
Qed.

Lemma log_appends (entry : Logger.StreamingLog) (state : Logger.StoreLoggerState) :
  (forall prev, Logger.at_last (Logger.logs state) = Some prev ->
                duplicate_of prev entry = false) ->
  Logger.logs (Logger.log entry state)
  = (Logger.slice (- (Logger.maxLogs state - 1)) (Logger.logs state) ++ [entry])%list.
Proof.
  intros H. unfold Logger.log.
  destruct (Logger.at_last (Logger.logs state)) as [prev |]; [| reflexivity].
  specialize (H prev eq_refl). unfold duplicate_of in H. rewrite H. reflexivity.
Qed.

Lemma slice_length {A} (start : Z) (l : list A) :
  (start < 0)%Z ->
  (Z.of_nat (List.length (Logger.slice start l)) <= - start)%Z.
Proof.
  intros H. unfold Logger.slice.
  apply Z.ltb_lt in H. rewrite H. rewrite length_skipn. lia.
Qed.

(** With a capacity of at least two, an append that is not a merge leaves
    the store within its capacity. *)
Lemma log_within_capacity (entry : Logger.StreamingLog) (state : Logger.StoreLoggerState) :
  (2 <= Logger.maxLogs state)%Z ->
  (forall prev, Logger.at_last (Logger.logs state) = Some prev ->
                duplicate_of prev entry = false) ->
  (Z.of_nat (List.length (Logger.logs (Logger.log entry state)))
   <= Logger.maxLogs state)%Z.
Proof.
  intros Hcap Hnew. rewrite (log_appends entry state Hnew).
  rewrite length_app. simpl.
  pose proof (slice_length (- (Logger.maxLogs state - 1)) (Logger.logs state)).
  lia.
Qed.

(** C5, at the capacity where it fails.  With the capacity set to one, a
    second entry that differs from the first is appended without any
    eviction: the store then holds two entries, more than its capacity.
    The slice start is -(1 - 1), which is 0 and keeps the whole array. *)
Theorem log_exceeds_capacity_of_one :
  let state := Logger.setMaxLogs 1 Logger.initial in
  let first := text_entry "client.send" "setup" in
  let second := text_entry "server.send" "setupComplete" in
  let stored := Logger.log second (Logger.log first state) in
  Logger.maxLogs stored = 1%Z
  /\ Logger.logs stored = [first; second]
  /\ (Logger.maxLogs stored < Z.of_nat (List.length (Logger.logs stored)))%Z.
Proof.
  cbv zeta. repeat split.
Qed.

(* ------------------------------------------------------------------ *)
(** ** Playback of PCM *)

Lemma addPCM16_of_one (s : Streamer.AudioStreamer) :
  Streamer.pcmSource s = None ->
  Streamer.workletNode s = false ->
  exists s', Streamer.addPCM16 [x00; x01] s
    = Ok (s', [Streamer.SourceStart (Streamer.created s)
                 {| Streamer.numberOfChannels := 1;
                    Streamer.sampleRate := 48000%Z;
                    Streamer.channel := [(1 # 32768)%Q] |}
                 Streamer.ToGain]).
Proof.
  intros Hsrc Hw. unfold Streamer.addPCM16. simpl. rewrite Hsrc, Hw.
  eexists. reflexivity.
Qed.

(** C8, at an input where it fails.  The bytes ff ff are the 16-bit
    pattern of the signed sample -1; [addPCM16] combines them without a
    sign and writes 65535/32768, which is above 1. *)
Theorem addPCM16_reads_unsigned :
  Streamer.addPCM16 [xff; xff] idle_streamer
  = Ok ({| Streamer.workletNode := false; Streamer.pcmSource := Some 0;
           Streamer.created := 1 |},
        [Streamer.SourceStart 0
           {| Streamer.numberOfChannels := 1;
              Streamer.sampleRate := 48000%Z;
              Streamer.channel := [(65535 # 32768)%Q] |}
           Streamer.ToGain])
  /\ (1 < 65535 # 32768)%Q
  /\ Streamer.signed16 xff xff = (-1)%Z.
Proof.
  repeat split.
Qed.

(* ------------------------------------------------------------------ *)
(** ** Capture of microphone samples *)

Lemma set_nth_length {A} (l : list A) :
  forall (i : nat) (v : A), List.length (Streamer.set_nth i v l) = List.length l.
Proof.
  induction l as [| x l IH]; intros i v; [reflexivity |].
  destruct i; simpl; [reflexivity | rewrite IH; reflexivity].
Qed.

Lemma set_nth_firstn {A} (l : list A) :
  forall (i : nat) (v : A),
    i < List.length l ->
    firstn (S i) (Streamer.set_nth i v l) = (firstn i l ++ [v])%list.
Proof.
  induction l as [| x l IH]; intros i v Hi; simpl in Hi; [lia |].
  destruct i as [| i].
  - reflexivity.
  - change (firstn (S (S i)) (Streamer.set_nth (S i) v (x :: l)))
      with (x :: firstn (S i) (Streamer.set_nth i v l)).
    rewrite IH by lia. reflexivity.
Qed.

Lemma set_nth_lookup {A} (l : list A) :
  forall (i : nat) (v : A),
    i < List.length l -> nth_error (Streamer.set_nth i v l) i = Some v.
Proof.
  induction l as [| x l IH]; intros i v Hi; simpl in Hi; [lia |].
  destruct i as [| i]; [reflexivity |]. simpl. apply IH. lia.
Qed.

(** In range, the conversion is the rounding alone: the 16-bit store does
    not wrap. *)
Lemma converted_in_range (x : Q) :
  (-1 <= x)%Q -> (x <= 1)%Q ->
  converted x = Qfloor (x * (32767 # 1) + (1 # 2))%Q
  /\ (-32767 <= converted x <= 32767)%Z.
Proof.
  intros Hlo Hhi. unfold converted, Worklet.Math_round, Worklet.INT16_MAX.
  change (inject_Z 32767) with (32767 # 1)%Q.
  set (q := (x * (32767 # 1) + (1 # 2))%Q).
  assert (Hq1 : (inject_Z (-32767) <= q)%Q).
  { unfold q. change (inject_Z (-32767)) with (-32767 # 1)%Q. lra. }
  assert (Hq2 : (q <= (65535 # 2))%Q) by (unfold q; lra).
  pose proof (Qfloor_resp_le _ _ Hq1) as H1. rewrite Qfloor_Z in H1.
  pose proof (Qfloor_resp_le _ _ Hq2) as H2.
  change (Qfloor (65535 # 2)) with 32767%Z in H2.
  unfold Worklet.ToInt16.
  rewrite Z.mod_small by lia.
  split; lia.
Qed.

(** One sample: it is written after the pending ones, and the buffer is
    posted whole and emptied exactly when the write fills it. *)
Lemma processSample_spec (w : Worklet.AudioProcessingWorklet)
      (posted : list (list Z)) (x : Q) :
  ready w ->
  let r := Worklet.processSample (w, posted) x in
  ready (fst r)
  /\ nth_error (Worklet.buffer (fst r)) (Worklet.bufferWriteIndex w) = Some (converted x)
  /\ ((S (Worklet.bufferWriteIndex w) < Worklet.BUFFER_SIZE
       /\ snd r = posted
       /\ pending (fst r) = (pending w ++ [converted x])%list)
      \/ (S (Worklet.bufferWriteIndex w) = Worklet.BUFFER_SIZE
          /\ snd r = (posted ++ [(pending w ++ [converted x])%list])%list
          /\ pending (fst r) = [])).
Proof.
  intros [Hlen Hidx]. unfold Worklet.processSample.
  fold (converted x). cbv zeta. cbn [Worklet.buffer Worklet.bufferWriteIndex].
  rewrite set_nth_length.
  assert (Hi : Worklet.bufferWriteIndex w < List.length (Worklet.buffer w))
    by (rewrite Hlen; exact Hidx).
  destruct (Nat.leb_spec (List.length (Worklet.buffer w)) (S (Worklet.bufferWriteIndex w)))
    as [Hfull | Hroom].
  - unfold Worklet.sendAndClearBuffer.
    cbn [Worklet.buffer Worklet.bufferWriteIndex Worklet.isReceivingAudio fst snd].
    change (0 <? S (Worklet.bufferWriteIndex w))%nat with true.
    cbn [fst snd Worklet.buffer Worklet.bufferWriteIndex].
    unfold ready, pending. cbn [Worklet.buffer Worklet.bufferWriteIndex].
    rewrite set_nth_length, set_nth_firstn by exact Hi.
    split; [split; [exact Hlen | lia] |].
    split; [apply set_nth_lookup; exact Hi |].
    right. split; [lia |]. split; reflexivity.
  - cbn [fst snd Worklet.buffer Worklet.bufferWriteIndex].
    unfold ready, pending. cbn [Worklet.buffer Worklet.bufferWriteIndex].
    rewrite set_nth_length.
    split; [split; [exact Hlen | lia] |].
    split; [apply set_nth_lookup; exact Hi |].
    left. split; [lia |]. split; [reflexivity |].
    apply set_nth_firstn. exact Hi.
Qed.

(** A block of samples: every posted chunk is a full buffer, and the chunks
    followed by what is pending are the samples in order. *)
Lemma processChunk_spec (xs : list Q) :
  forall (w : Worklet.AudioProcessingWorklet) (posted : list (list Z)),
    ready w ->
    Forall (fun chunk => List.length chunk = Worklet.BUFFER_SIZE) posted ->
    let r := fold_left Worklet.processSample xs (w, posted) in
    ready (fst r)
    /\ Forall (fun chunk => List.length chunk = Worklet.BUFFER_SIZE) (snd r)
    /\ (List.concat (snd r) ++ pending (fst r)
        = List.concat posted ++ pending w ++ map converted xs)%list.
Proof.
  induction xs as [| x xs IH]; intros w posted Hready Hposted.
  - simpl. split; [exact Hready |]. split; [exact Hposted |].
    rewrite app_nil_r. reflexivity.
  - cbn [fold_left].
    destruct (processSample_spec w posted x Hready) as (Hr & _ & Hcase).
    destruct (Worklet.processSample (w, posted) x) as [w1 posted1].
    cbn [fst snd] in Hr, Hcase.
    assert (Hlenp : List.length (pending w) = Worklet.bufferWriteIndex w).
    { unfold pending. apply firstn_length_le. destruct Hready as [Hl Hi']. lia. }
    destruct Hcase as [(Hroom & -> & Hpend) | (Hfull & -> & Hpend)].
    + destruct (IH w1 posted Hr Hposted) as (H1 & H2 & H3).
      split; [exact H1 |]. split; [exact H2 |].
      rewrite H3, Hpend, <- !app_assoc. reflexivity.
    + assert (Hposted1 : Forall (fun chunk => List.length chunk = Worklet.BUFFER_SIZE)
                           (posted ++ [(pending w ++ [converted x])%list])).
      { apply Forall_app. split; [exact Hposted |].
        constructor; [| constructor].
        rewrite length_app, Hlenp. simpl. lia. }
      destruct (IH w1 _ Hr Hposted1) as (H1 & H2 & H3).
      split; [exact H1 |]. split; [exact H2 |].
      rewrite H3, Hpend, concat_app. simpl.
      rewrite !app_nil_r, <- !app_assoc. reflexivity.
Qed.

Lemma initial_ready : ready Worklet.initial.
Proof.
  split; [apply repeat_length |].
  unfold Worklet.BUFFER_SIZE. cbn [Worklet.bufferWriteIndex Worklet.initial]. lia.
Qed.

(** C9, as the code has it.  A sample x in [-1,1] is converted to the
    integer floor(x * 32767 + 1/2), the nearest integer with a tie rounded
    up (Math.round), which lies in [-32767, 32767] and is stored as it is.
    The buffer holds 2048 samples.  From a buffer that is not full, a block
    of samples is written in order after the pending ones; the buffer is
    posted whole, and emptied, exactly when a write fills it, so every posted
    chunk has 2048 samples and the chunks followed by the pending samples are
    the converted input. *)
Theorem capture_rounds_half_up :
  (forall x : Q,
      (-1 <= x)%Q -> (x <= 1)%Q ->
      converted x = Qfloor (x * (32767 # 1) + (1 # 2))%Q
      /\ (-32767 <= converted x <= 32767)%Z)
  /\ Worklet.BUFFER_SIZE = 2048
  /\ ready Worklet.initial
  /\ (forall (w : Worklet.AudioProcessingWorklet) (posted : list (list Z)) (x : Q),
        ready w ->
        let r := Worklet.processSample (w, posted) x in
        ready (fst r)
        /\ nth_error (Worklet.buffer (fst r)) (Worklet.bufferWriteIndex w)
           = Some (converted x)
        /\ ((S (Worklet.bufferWriteIndex w) < Worklet.BUFFER_SIZE
             /\ snd r = posted
             /\ pending (fst r) = (pending w ++ [converted x])%list)
            \/ (S (Worklet.bufferWriteIndex w) = Worklet.BUFFER_SIZE
                /\ snd r = (posted ++ [(pending w ++ [converted x])%list])%list
                /\ pending (fst r) = [])))
  /\ (forall (w : Worklet.AudioProcessingWorklet) (xs : list Q),
        ready w ->
        let r := Worklet.processChunk xs w in
        ready (fst r)
        /\ Forall (fun chunk => List.length chunk = Worklet.BUFFER_SIZE) (snd r)
        /\ (List.concat (snd r) ++ pending (fst r) = pending w ++ map converted xs)%list).
Proof.
  split; [exact converted_in_range |].
  split; [reflexivity |].
  split; [exact initial_ready |].
  split; [exact processSample_spec |].
  intros w xs Hready.
  exact (processChunk_spec xs w [] Hready (Forall_nil _)).
Qed.

Lemma capture_rounds_half_up_witness :
  (-1 <= 1 # 2)%Q
  /\ (1 # 2 <= 1)%Q
  /\ ready Worklet.initial
  /\ converted (1 # 2) = Qfloor ((1 # 2) * (32767 # 1) + (1 # 2))%Q
  /\ (List.concat (snd (Worklet.processChunk [(1 # 2)%Q] Worklet.initial))
      ++ pending (fst (Worklet.processChunk [(1 # 2)%Q] Worklet.initial))
      = pending Worklet.initial ++ map converted [(1 # 2)%Q])%list.
Proof.
  assert (Hlo : (-1 <= 1 # 2)%Q) by (unfold Qle; simpl; lia).
  assert (Hhi : (1 # 2 <= 1)%Q) by (unfold Qle; simpl; lia).
  destruct capture_rounds_half_up as (Hround & _ & Hinit & _ & Hchunk).
  split; [exact Hlo |]. split; [exact Hhi |]. split; [exact Hinit |].
  split; [exact (proj1 (Hround (1 # 2)%Q Hlo Hhi)) |].
  exact (proj2 (proj2 (Hchunk Worklet.initial [(1 # 2)%Q] Hinit))).
Defined.

(** C9 as stated fails: the sample -1/2 is in range, its product with
    32767 is the tie -16383.5, and the processor stores -16383, where
    rounding the tie away from zero gives -16384. *)
Lemma capture_rounding_counterexample :
  let x := (-1 # 2)%Q in
  (-1 <= x)%Q
  /\ (x <= 1)%Q
  /\ nth_error (Worklet.buffer (fst (Worklet.processChunk [x] Worklet.initial))) 0
     = Some (-16383)%Z
  /\ Worklet.round_half_away (x * inject_Z Worklet.INT16_MAX) = (-16384)%Z
  /\ converted x <> Worklet.round_half_away (x * inject_Z Worklet.INT16_MAX).
Proof.
  cbv zeta.
  split; [unfold Qle; simpl; lia |].
  split; [unfold Qle; simpl; lia |].
  split; [vm_compute; reflexivity |].
  split; [vm_compute; reflexivity |].
  vm_compute. discriminate.
Qed.

(* ================================================================== *)
(** * Further properties of the receive path *)
(* ================================================================== *)

Lemma apply_passive_effects (effs : list Effect) (l : list Socket) :
  forallb is_passive effs = true -> fold_left apply_effect effs l = l.
Proof.
  revert l. induction effs as [| e effs IH]; intros l H; [reflexivity |].
  simpl in H. apply andb_true_iff in H. destruct H as [He H].
  simpl. destruct e; try discriminate He; apply IH; exact H.
Qed.

Lemma passive_observations (effs : list Effect) :
  forallb is_passive effs = true ->
  forallb is_passive_observation (map Did effs) = true.
Proof.
  induction effs as [| e effs IH]; [reflexivity |].
  simpl. intros H. apply andb_true_iff in H. destruct H as [-> H].
  simpl. apply IH. exact H.
Qed.

(** X1.  Whatever a socket delivers (a blob that cannot be read, text that
    is not JSON, any JSON value, or something that is not a blob), handling
    it leaves the fields of the client, every socket and every retry timer
    as they were, and shows nothing but events for the listeners, console
    output and possibly the exception that [receive] ended with. *)
Theorem message_changes_nothing
  (JSON_parse : string -> option JsonValue) (atob : JsonValue -> option string)
  (data : MessageData) :
  (forall c : Client,
      after (onMessage JSON_parse atob data c) = c
      /\ forallb is_passive (effects (onMessage JSON_parse atob data c)) = true)
  /\ (forall (wd : World) (w : WebSocket),
        let r := step JSON_parse atob (SocketMessage w data) wd in
        client (fst r) = client wd
        /\ sockets (fst r) = sockets wd
        /\ timers (fst r) = timers wd
        /\ forallb is_passive_observation (snd r) = true).
Proof.
  assert (Hfun : forall c : Client,
             after (onMessage JSON_parse atob data c) = c
             /\ forallb is_passive (effects (onMessage JSON_parse atob data c)) = true).
  { intros c. destruct data as [blob |]; [| split; reflexivity].
    split; [apply receive_keeps | apply receive_passive]. }
  split; [exact Hfun |].
  intros wd w. cbn [step].
  destruct (nth_error (sockets wd) w) as [[n rs st el cl] |]; [| repeat split].
  destruct rs; [repeat split | | repeat split | repeat split].
  destruct (Hfun (client wd)) as [Hkeep Hpass].
  cbv zeta. unfold call, exec.
  unfold after, effects in Hkeep, Hpass.
  destruct (onMessage JSON_parse atob data (client wd)) as [[[[] | e] c1] effs];
    cbn [fst snd] in *; subst c1;
    rewrite (apply_passive_effects effs _ Hpass);
    repeat split.
  - apply passive_observations. exact Hpass.
  - rewrite forallb_app, (passive_observations effs Hpass). reflexivity.
Qed.

(* ------------------------------------------------------------------ *)
(** ** Which frames the guards accept *)

Lemma prop_object_shape (v : JsonValue) (name : string) :
  prop v name "object" = true
  <-> exists ms x, v = JObject ms /\ lookup name ms = Some x /\ typeof_object x = true.
Proof.
  unfold prop, has_property, member. split.
  - intros H. destruct v as [| | | | | ms]; try discriminate H.
    simpl in H. destruct (lookup name ms) as [x |] eqn:Hx; [| discriminate H].
    exists ms, x. split; [reflexivity |]. split; [exact Hx |].
    destruct x; try discriminate H; reflexivity.
  - intros (ms & x & -> & Hx & Ht). simpl. rewrite Hx.
    destruct x; try discriminate Ht; reflexivity.
Qed.

(** X4.  The guards of the incoming frames, by the shape of the JSON value.
    A frame passes the toolCall, setupComplete or serverContent guard
    exactly when it is an object with that member and the member is an
    object, an array or null (all three have type "object"); it passes the
    toolCallCancellation guard exactly when that member is an object with an
    array under ids; and a serverContent value passes the turnComplete guard
    exactly when it is an object whose turnComplete is a boolean. *)
Theorem incoming_guards_by_shape (v : JsonValue) :
  (isToolCallMessage v = true
   <-> exists ms x, v = JObject ms /\ lookup "toolCall" ms = Some x
                    /\ typeof_object x = true)
  /\ (isSetupCompleteMessage v = true
      <-> exists ms x, v = JObject ms /\ lookup "setupComplete" ms = Some x
                       /\ typeof_object x = true)
  /\ (isServerContenteMessage v = true
      <-> exists ms x, v = JObject ms /\ lookup "serverContent" ms = Some x
                       /\ typeof_object x = true)
  /\ (isToolCallCancellationMessage v = true
      <-> exists ms tc ids, v = JObject ms
                            /\ lookup "toolCallCancellation" ms = Some (JObject tc)
                            /\ lookup "ids" tc = Some (JArray ids))
  /\ (isTurnComplete v = true
      <-> exists ms b, v = JObject ms /\ lookup "turnComplete" ms = Some (JBool b)).
Proof.
  split; [apply prop_object_shape |].
  split; [apply prop_object_shape |].
  split; [apply prop_object_shape |].
  split.
  - unfold isToolCallCancellationMessage. split.
    + intros H. apply andb_true_iff in H. destruct H as [Hp Hc].
      apply prop_object_shape in Hp. destruct Hp as (ms & x & -> & Hx & _).
      simpl in Hc. rewrite Hx in Hc. simpl in Hc.
      destruct x as [| | | | | tc]; try discriminate Hc.
      simpl in Hc. destruct (lookup "ids" tc) as [[| | | | ids |] |] eqn:Hids;
        try discriminate Hc.
      exists ms, tc, ids. auto.
    + intros (ms & tc & ids & -> & Htc & Hids).
      unfold prop, has_property. simpl. rewrite Htc. simpl. rewrite Hids. reflexivity.
  - unfold isTurnComplete, has_property, member. split.
    + intros H. destruct v as [| | | | | ms]; try discriminate H.
      simpl in H. destruct (lookup "turnComplete" ms) as [[| b | | | |] |] eqn:Hx;
        try discriminate H.
      exists ms, b. auto.
    + intros (ms & b & -> & Hx). simpl. rewrite Hx. reflexivity.
Qed.

(* ------------------------------------------------------------------ *)
(** ** Frames that no guard accepts *)

Lemma receive_parsed JSON_parse atob (text : string) (r : JsonValue) (c : Client) :
  JSON_parse text = Some r ->
  receive JSON_parse atob (Readable text) c
  = (if isToolCallMessage r then handleToolCall r
     else if isToolCallCancellationMessage r then handleToolCallCancellation r
          else if isSetupCompleteMessage r then handleSetupComplete
               else if isServerContenteMessage r then handleServerContent atob r
                    else effect (ConsoleWarn "Received unmatched message:" (Some r))) c.
Proof.
  intros H. unfold receive, blobToJSON. rewrite H.
  change (lift (Ok r)) with (ret r). apply bind_ret_l.
Qed.

Lemma guards_reject_non_objects (r : JsonValue) :
  is_object r = false ->
  isToolCallMessage r = false
  /\ isToolCallCancellationMessage r = false
  /\ isSetupCompleteMessage r = false
  /\ isServerContenteMessage r = false.
Proof.
  intros H. destruct r; try discriminate H; repeat split; reflexivity.
Qed.

Lemma guard_names_key (r : JsonValue) (k : string) :
  prop r k "object" = true ->
  exists x, member k r = Some x /\ typeof_object x = true.
Proof.
  intros H. apply prop_object_shape in H. destruct H as (ms & x & -> & Hx & Ht).
  exists x. split; assumption.
Qed.

(** X3.  A frame that parses but passes none of the four guards gets the
    unmatched-message warning on the console and nothing else; this is so
    for every JSON value that is not an object (an array, a string, a
    number, a boolean, null).  And whenever [receive] hands an event to the
    listeners, the frame is an object that has one of the four recognised
    keys with a value of type "object". *)
Theorem events_need_a_recognised_key
  (JSON_parse : string -> option JsonValue) (atob : JsonValue -> option string)
  (text : string) (r : JsonValue) (c : Client)
  (Hparse : JSON_parse text = Some r) :
  (isToolCallMessage r = false ->
   isToolCallCancellationMessage r = false ->
   isSetupCompleteMessage r = false ->
   isServerContenteMessage r = false ->
   receive JSON_parse atob (Readable text) c
   = (Ok tt, c, [ConsoleWarn "Received unmatched message:" (Some r)]))
  /\ (is_object r = false ->
      receive JSON_parse atob (Readable text) c
      = (Ok tt, c, [ConsoleWarn "Received unmatched message:" (Some r)]))
  /\ (forall ev : ClientEvent,
        In (Emit ev) (effects (receive JSON_parse atob (Readable text) c)) ->
        exists k x, In k recognised_keys
                    /\ member k r = Some x
                    /\ typeof_object x = true).
Proof.
  assert (Hwarn : isToolCallMessage r = false ->
                  isToolCallCancellationMessage r = false ->
                  isSetupCompleteMessage r = false ->
                  isServerContenteMessage r = false ->
                  receive JSON_parse atob (Readable text) c
                  = (Ok tt, c, [ConsoleWarn "Received unmatched message:" (Some r)])).
  { intros H1 H2 H3 H4. rewrite (receive_parsed _ _ _ _ _ Hparse), H1, H2, H3, H4.
    reflexivity. }
  split; [exact Hwarn |].
  split.
  { intros Hno. destruct (guards_reject_non_objects r Hno) as (H1 & H2 & H3 & H4).
    apply Hwarn; assumption. }
  intros ev Hin.
  destruct (isToolCallMessage r) eqn:H1.
  { destruct (guard_names_key r "toolCall" H1) as (x & Hx & Ht).
    exists "toolCall", x. simpl. auto. }
  destruct (isToolCallCancellationMessage r) eqn:H2.
  { unfold isToolCallCancellationMessage in H2. apply andb_true_iff in H2.
    destruct (guard_names_key r "toolCallCancellation" (proj1 H2)) as (x & Hx & Ht).
    exists "toolCallCancellation", x. simpl. auto. }
  destruct (isSetupCompleteMessage r) eqn:H3.
  { destruct (guard_names_key r "setupComplete" H3) as (x & Hx & Ht).
    exists "setupComplete", x. simpl. auto. }
  destruct (isServerContenteMessage r) eqn:H4.
  { destruct (guard_names_key r "serverContent" H4) as (x & Hx & Ht).
    exists "serverContent", x. simpl. auto 6. }
  rewrite (Hwarn eq_refl eq_refl eq_refl eq_refl) in Hin.
  destruct Hin as [Hin | []]. discriminate Hin.
Qed.

Lemma events_need_a_recognised_key_witness :
  Platform.JSON_parse "[1,2]" = Some (JArray [JNumber 1; JNumber 2])
  /\ is_object (JArray [JNumber 1; JNumber 2]) = false
  /\ receive Platform.JSON_parse Platform.atob (Readable "[1,2]") (constructor None "key")
     = (Ok tt, constructor None "key",
        [ConsoleWarn "Received unmatched message:"
           (Some (JArray [JNumber 1; JNumber 2]))]).
Proof.
  split; [reflexivity |]. split; [reflexivity |].
  apply (proj1 (proj2 (events_need_a_recognised_key Platform.JSON_parse Platform.atob
                         "[1,2]" (JArray [JNumber 1; JNumber 2])
                         (constructor None "key") eq_refl))).
  reflexivity.
Defined.

(* ------------------------------------------------------------------ *)
(** ** How the receive path can fail *)

Lemma throws_only_ret (P : Exn -> Prop) {A} (a : A) : throws_only P (ret a).
Proof. intros c e H. discriminate H. Qed.

Lemma throws_only_effect (P : Exn -> Prop) (x : Effect) : throws_only P (effect x).
Proof. intros c e H. discriminate H. Qed.

Lemma throws_only_lift (P : Exn -> Prop) {A} (o : outcome A) :
  (forall e, o = Throw e -> P e) -> throws_only P (lift o).
Proof. intros H c e He. apply H. exact He. Qed.

Lemma throws_only_bind (P : Exn -> Prop) {A B} (m : M A) (k : A -> M B) :
  throws_only P m -> (forall a, throws_only P (k a)) -> throws_only P (bind m k).
Proof.
  intros Hm Hk c e. specialize (Hm c). unfold bind, result in *.
  destruct (m c) as [[[a | e1] c1] e1']; cbn [fst] in *.
  - specialize (Hk a c1 e). unfold result in Hk.
    destruct (k a c1) as [[r c2] e2]. cbn [fst] in *. exact Hk.
  - intros H. injection H as <-. apply Hm. reflexivity.
Qed.

Lemma read_throws (v : JsValue) (name : string) (e : Exn) :
  read v name = Throw e -> e = TypeError.
Proof.
  destruct v as [[] |]; simpl; intros H; congruence.
Qed.

Lemma isAudioPart_throws (p : JsonValue) (e : Exn) :
  isAudioPart p = Throw e -> e = TypeError.
Proof.
  unfold isAudioPart. destruct (read (Some p) "inlineData") as [d | e0] eqn:Hr; simpl.
  - destruct d as [[] |]; try discriminate;
      (destruct (read _ "mimeType") as [m | e1] eqn:Hm; simpl;
       [destruct m as [[] |]; simpl; congruence
       | intros H; injection H as <-; apply (read_throws _ _ _ Hm)]).
  - intros H. injection H as <-. apply (read_throws _ _ _ Hr).
Qed.

Lemma filter_array_throws {A} (f : A -> outcome bool) (l : list A) (e : Exn) :
  (forall x e', f x = Throw e' -> e' = TypeError) ->
  filter_array f l = Throw e -> e = TypeError.
Proof.
  intros Hf. induction l as [| x l IH]; simpl; [discriminate |].
  destruct (f x) as [b | e0] eqn:Hx; simpl.
  - destruct (filter_array f l) as [kept | e1]; simpl; [discriminate |].
    intros H. injection H as <-. apply IH. reflexivity.
  - intros H. injection H as <-. apply (Hf x). exact Hx.
Qed.

Lemma separateContentParts_throws_type (parts : JsValue) (e : Exn) :
  separateContentParts parts = Throw e -> e = TypeError.
Proof.
  unfold separateContentParts.
  destruct parts as [[| | | | items |] |]; try congruence.
  cbv zeta.
  match goal with
  | |- obind ?x _ = _ -> _ => destruct x as [audio | e0] eqn:Hf
  end; simpl; [discriminate |].
  intros H. injection H as <-.
  apply (filter_array_throws (fun p : Element => isAudioPart (snd p)) _ _
           (fun x e' => isAudioPart_throws (snd x) e') Hf).
Qed.

Lemma inlineData_data_throws (p : JsonValue) (e : Exn) :
  inlineData_data p = Throw e -> e = TypeError.
Proof.
  unfold inlineData_data. destruct (read (Some p) "inlineData") as [d | e0] eqn:Hr; simpl.
  - destruct d as [[] |]; try discriminate; apply read_throws.
  - intros H. injection H as <-. apply (read_throws _ _ _ Hr).
Qed.

Lemma processAudioParts_throws atob (A : list Element) :
  throws_only model_turn_error (processAudioParts atob A).
Proof.
  induction A as [| part rest IH]; [apply throws_only_ret |].
  simpl. apply throws_only_bind.
  - apply throws_only_lift. intros e H. left. apply (inlineData_data_throws _ _ H).
  - intros d. apply throws_only_bind; [| intros _; exact IH].
    destruct d as [base64 |]; [| apply throws_only_ret].
    destruct (truthy (Some base64)); [| apply throws_only_ret].
    apply throws_only_bind.
    + apply throws_only_lift. intros e H. right.
      unfold base64ToArrayBuffer in H. destruct (atob base64); congruence.
    + intros data. unfold log, emit.
      apply throws_only_bind; [| intros _]; apply throws_only_effect.
Qed.

Lemma processModelTurn_throws_only atob (modelTurn : JsValue) :
  throws_only model_turn_error (processModelTurn atob modelTurn).
Proof.
  unfold processModelTurn. apply throws_only_bind.
  - apply throws_only_lift. intros e H. left. apply (read_throws _ _ _ H).
  - intros parts. apply throws_only_bind.
    + apply throws_only_lift. intros e H. left.
      apply (separateContentParts_throws_type _ _ H).
    + intros [audioParts otherParts].
      apply throws_only_bind; [apply processAudioParts_throws | intros _].
      destruct otherParts; [apply throws_only_ret |].
      unfold log, emit. apply throws_only_bind; [| intros _]; apply throws_only_effect.
Qed.

Lemma handleServerContent_result atob (r sc : JsonValue) (c : Client) :
  member "serverContent" r = Some sc ->
  result (handleServerContent atob r c)
  = if isInterrupted sc then Ok tt
    else if isModelTurn sc
         then result (processModelTurn atob (member "modelTurn" sc) c)
         else Ok tt.
Proof.
  intros Hsc. unfold handleServerContent. rewrite Hsc.
  destruct (isInterrupted sc); [reflexivity |].
  destruct (isTurnComplete sc); (destruct (isModelTurn sc); [| reflexivity]);
    unfold bind, result, log, emit, effect, ret; cbv beta iota zeta;
    destruct (processModelTurn atob (member "modelTurn" sc) c) as [[r0 c0] e0];
    reflexivity.
Qed.

(** X2.  [receive] can end with an exception in three ways only: the blob
    cannot be read ("Failed to read blob"); its text is not JSON ("Failed to
    parse blob as JSON"); or the frame is dispatched as server content that is
    not interrupted and has a modelTurn member, and the handling of the
    model turn ends with a TypeError (a value of the wrong shape) or with the
    error of [atob] (a payload that is not base64).  Tool calls,
    cancellations, setupComplete, interrupted or turn-complete content and
    unmatched frames never make it throw. *)
Theorem receive_throws_only
  (JSON_parse : string -> option JsonValue) (atob : JsonValue -> option string)
  (blob : Blob) (c : Client) (e : Exn)
  (H : result (receive JSON_parse atob blob c) = Throw e) :
  (blob = Unreadable /\ e = Error "Failed to read blob")
  \/ (exists text,
         blob = Readable text /\ JSON_parse text = None
         /\ e = Error "Failed to parse blob as JSON")
  \/ (exists text r sc,
         blob = Readable text /\ JSON_parse text = Some r
         /\ isServerContenteMessage r = true
         /\ member "serverContent" r = Some sc
         /\ isInterrupted sc = false
         /\ isModelTurn sc = true
         /\ model_turn_error e).
Proof.
  destruct blob as [text |].
  - destruct (JSON_parse text) as [r |] eqn:Hparse.
    + right. right. rewrite (receive_parsed _ _ _ _ _ Hparse) in H.
      destruct (isToolCallMessage r); [discriminate H |].
      destruct (isToolCallCancellationMessage r); [discriminate H |].
      destruct (isSetupCompleteMessage r); [discriminate H |].
      destruct (isServerContenteMessage r) eqn:Hsc; [| discriminate H].
      destruct (guard_names_key r "serverContent" Hsc) as (sc & Hm & _).
      rewrite (handleServerContent_result atob r sc c Hm) in H.
      destruct (isInterrupted sc) eqn:Hi; [discriminate H |].
      destruct (isModelTurn sc) eqn:Hmt; [| discriminate H].
      exists text, r, sc. repeat split; try assumption.
      apply (processModelTurn_throws_only atob _ c e H).
    + right. left. exists text.
      unfold receive, bind, lift, blobToJSON, result in H. rewrite Hparse in H.
      cbn in H. repeat split; [exact Hparse | congruence].
  - left. split; [reflexivity |]. cbn in H. congruence.
Qed.

Lemma receive_throws_only_witness :
  result (receive Platform.JSON_parse Platform.atob (Readable null_turn_text)
            (constructor None "key")) = Throw TypeError
  /\ exists text r sc,
       Readable null_turn_text = Readable text
       /\ Platform.JSON_parse text = Some r
       /\ isServerContenteMessage r = true
       /\ member "serverContent" r = Some sc
       /\ isInterrupted sc = false
       /\ isModelTurn sc = true
       /\ model_turn_error TypeError.
Proof.
  assert (Hthrow : result (receive Platform.JSON_parse Platform.atob
                             (Readable null_turn_text) (constructor None "key"))
                   = Throw TypeError) by reflexivity.
  split; [exact Hthrow |].
  destruct (receive_throws_only Platform.JSON_parse Platform.atob
              (Readable null_turn_text) (constructor None "key") TypeError Hthrow)
    as [[Hb _] | [(text & Hb & Hp & He) | Hcase]].
  - discriminate Hb.
  - discriminate He.
  - exact Hcase.
Defined.


(* ------------------------------------------------------------------ *)
(** ** The reason of a close event *)





(* ------------------------------------------------------------------ *)
(** ** The close and error listeners *)

(** What the close and the error listener of socket [w] do. *)
Lemma listeners_own_socket (c : Client) (w : WebSocket) (cev : CloseEvent) :
  handleCloseConnection w cev c
  = (Ok tt,
     (if is_stored w c then clear_socket c else c),
     ((if is_stored w c then [WsClose w; close_log] else [])
      ++ [close_event_log cev; Emit (EvClose cev)])%list)
  /\ forall ev,
       onError w ev c
       = (Ok (Error (connection_failed c)),
          (if is_stored w c then clear_socket c else c),
          ((if is_stored w c then [WsClose w; close_log] else [])
           ++ [error_event_log c ev])%list).
Proof.
  destruct c as [[cur |] cfg u]; unfold is_stored; cbn [ws].
  - destruct (Nat.eqb_spec cur w) as [-> | Hne].
    + unfold handleCloseConnection, onError, disconnect, bind, gets; cbn.
      rewrite Nat.eqb_refl. split; reflexivity.
    + apply Nat.eqb_neq in Hne.
      unfold handleCloseConnection, onError, disconnect, bind, gets; cbn.
      rewrite Hne. split; reflexivity.
  - split; reflexivity.
Qed.

(** X6.  The close listener of socket [w] always ends with its log entry
    followed by the [close] event, and the error listener always ends with its
    log entry and hands back the error for the rejection; neither throws.
    Before that, each closes and forgets the stored socket (with the
    client.close log entry) exactly when the stored socket is [w] itself: an
    event of any other socket leaves the stored socket in place and open. *)
Theorem listeners_touch_their_own_socket (c : Client) (w : WebSocket)
  (cev : CloseEvent) (ev : Event) :
  handleCloseConnection w cev c
  = (Ok tt,
     (if is_stored w c then clear_socket c else c),
     ((if is_stored w c then [WsClose w; close_log] else [])
      ++ [close_event_log cev; Emit (EvClose cev)])%list)
  /\ onError w ev c
  = (Ok (Error (connection_failed c)),
     (if is_stored w c then clear_socket c else c),
     ((if is_stored w c then [WsClose w; close_log] else [])
      ++ [error_event_log c ev])%list).
Proof.
  destruct (listeners_own_socket c w cev) as [Hclose Herror].
  split; [exact Hclose | apply Herror].
Qed.


(* ------------------------------------------------------------------ *)
(** ** The stored socket is an open socket *)

Lemma nth_error_update_from (w : WebSocket) (f : Socket -> Socket) (l : list Socket) :
  forall k i,
    nth_error (map (fun p => if Nat.eqb (fst p) w then f (snd p) else snd p)
                   (combine (seq k (List.length l)) l)) i
    = option_map (fun s => if Nat.eqb (k + i) w then f s else s) (nth_error l i).
Proof.
  induction l as [| s l IH]; intros k i.
  - destruct i; reflexivity.
  - destruct i as [| i]; simpl.
    + rewrite Nat.add_0_r. reflexivity.
    + rewrite IH. rewrite Nat.add_succ_r. reflexivity.
Qed.

Lemma nth_error_update_socket (w : WebSocket) (f : Socket -> Socket) (l : list Socket)
      (i : nat) :
  nth_error (update_socket w f l) i
  = option_map (fun s => if Nat.eqb i w then f s else s) (nth_error l i).
Proof. unfold update_socket. apply (nth_error_update_from w f l 0 i). Qed.

Lemma update_socket_other (w : WebSocket) (f : Socket -> Socket) (l : list Socket)
      (i : nat) :
  i <> w -> nth_error (update_socket w f l) i = nth_error l i.
Proof.
  intros H. rewrite nth_error_update_socket. apply Nat.eqb_neq in H. rewrite H.
  destruct (nth_error l i); reflexivity.
Qed.

Lemma update_socket_same (w : WebSocket) (f : Socket -> Socket) (l : list Socket)
      (s : Socket) :
  nth_error l w = Some s -> nth_error (update_socket w f l) w = Some (f s).
Proof.
  intros H. rewrite nth_error_update_socket, H, Nat.eqb_refl. reflexivity.
Qed.

Lemma apply_effects_untouched (i : WebSocket) (effs : list Effect) :
  forall l, forallb (fun e => negb (touches i e)) effs = true ->
            nth_error (fold_left apply_effect effs l) i = nth_error l i.
Proof.
  induction effs as [| e effs IH]; intros l H; [reflexivity |].
  simpl in H. apply andb_true_iff in H. destruct H as [He H].
  simpl. rewrite (IH _ H).
  destruct e as [ev | w r | w | w | w | t v]; simpl in *; try reflexivity;
    apply update_socket_other; apply negb_true_iff, Nat.eqb_neq in He;
    intros Heq; apply He; symmetry; exact Heq.
Qed.

Lemma settle_sockets (w : WebSocket) (s : Settle) (wd : World) (i : nat) :
  nth_error (sockets (fst (settle w s wd))) i
  = option_map (fun x => if Nat.eqb i w then
                           {| attempt := attempt x; readyState := readyState x;
                              settled := true;
                              error_listener := error_listener x;
                              close_listener := close_listener x |}
                         else x)
               (nth_error (sockets wd) i)
  \/ nth_error (sockets (fst (settle w s wd))) i = nth_error (sockets wd) i.
Proof.
  unfold settle. destruct (nth_error (sockets wd) w) as [sock |]; [| right; reflexivity].
  destruct (settled sock); [right; reflexivity |].
  left. destruct s as [value | e]; [apply nth_error_update_socket |].
  destruct (Nat.eqb (attempt sock) reconnectAttempts); apply nth_error_update_socket.
Qed.

Lemma settle_linked (w : WebSocket) (s : Settle) (wd : World) (i : nat) (x : Socket) :
  nth_error (sockets wd) i = Some x ->
  exists y, nth_error (sockets (fst (settle w s wd))) i = Some y
            /\ linked y = linked x.
Proof.
  intros H. destruct (settle_sockets w s wd i) as [Hs | Hs]; rewrite Hs, H.
  - simpl. destruct (Nat.eqb i w); eexists; split; reflexivity.
  - exists x. split; reflexivity.
Qed.

Lemma stored_open_elim (wd : World) (w : WebSocket) :
  stored_socket_open wd = true -> ws (client wd) = Some w ->
  exists s, nth_error (sockets wd) w = Some s /\ linked s = true.
Proof.
  unfold stored_socket_open. intros H Hw. rewrite Hw in H.
  destruct (nth_error (sockets wd) w) as [s |]; [| discriminate H].
  exists s. split; [reflexivity | exact H].
Qed.

(** A call that leaves the client and the sockets alone keeps the invariant. *)
Lemma stored_open_same (wd wd' : World) :
  ws (client wd') = ws (client wd) ->
  (forall w, ws (client wd) = Some w ->
             nth_error (sockets wd') w = nth_error (sockets wd) w) ->
  stored_socket_open wd = true -> stored_socket_open wd' = true.
Proof.
  unfold stored_socket_open. intros Hc Hs. rewrite Hc.
  destruct (ws (client wd)) as [w |]; [| reflexivity].
  rewrite (Hs w eq_refl). auto.
Qed.

Lemma passive_untouched (i : WebSocket) (effs : list Effect) :
  forallb is_passive effs = true ->
  forallb (fun e => negb (touches i e)) effs = true.
Proof.
  induction effs as [| e effs IH]; [reflexivity |].
  simpl. intros H. apply andb_true_iff in H. destruct H as [He H].
  rewrite (IH H), andb_true_r. destruct e; try discriminate He; reflexivity.
Qed.

Lemma call_is_exec {A} (m : M A) (wd : World) :
  fst (call m wd) = snd (fst (exec m wd)).
Proof.
  unfold call. destruct (exec m wd) as [[[a | e] wd1] obs]; reflexivity.
Qed.

Lemma exec_world {A} (m : M A) (wd : World) :
  snd (fst (exec m wd))
  = {| client := after (m (client wd));
       sockets := fold_left apply_effect (effects (m (client wd))) (sockets wd);
       timers := timers wd |}.
Proof.
  unfold exec, after, effects. destruct (m (client wd)) as [[r c] effs]. reflexivity.
Qed.

Lemma exec_stored_open {A} (m : M A) (wd : World) :
  spares_stored m ->
  stored_socket_open wd = true -> stored_socket_open (snd (fst (exec m wd))) = true.
Proof.
  intros Hm Hinv. rewrite exec_world.
  destruct (Hm (client wd)) as [Hnone | [Hsame Hun]].
  - unfold stored_socket_open. cbn [client]. rewrite Hnone. reflexivity.
  - revert Hinv. apply stored_open_same; cbn [client sockets]; [exact Hsame |].
    intros w Hw. apply apply_effects_untouched. apply Hun. exact Hw.
Qed.

Lemma settle_stored_open (w : WebSocket) (s : Settle) (wd : World) :
  stored_socket_open wd = true -> stored_socket_open (fst (settle w s wd)) = true.
Proof.
  unfold stored_socket_open. rewrite settle_client.
  destruct (ws (client wd)) as [cur |]; [| reflexivity].
  destruct (nth_error (sockets wd) cur) as [x |] eqn:Hx; [| discriminate].
  destruct (settle_linked w s wd cur x Hx) as (y & Hy & Hl).
  rewrite Hy, Hl. auto.
Qed.

Ltac spares_by_cases :=
  intros [[cur |] cfg u];
  unfold handleCloseConnection, onError, send, sendRealtimeInput, sendToolResponse,
    disconnect, _sendDirect, bind, gets, set_ws, log, emit, effect, ret, throw,
    effects, after;
  cbn;
  repeat match goal with
         | |- context [Nat.eqb ?a ?b] => destruct (Nat.eqb a b); cbn
         end;
  try (left; reflexivity);
  right; (split; [reflexivity | intros w' Hw'; try discriminate Hw'; reflexivity]).

Lemma send_spares parts turnComplete : spares_stored (send parts turnComplete).
Proof. spares_by_cases. Qed.

Lemma sendRealtimeInput_spares chunks : spares_stored (sendRealtimeInput chunks).
Proof. spares_by_cases. Qed.

Lemma sendToolResponse_spares toolResponse : spares_stored (sendToolResponse toolResponse).
Proof. spares_by_cases. Qed.

Lemma disconnect_spares arg : spares_stored (disconnect arg).
Proof. destruct arg as [arg |]; spares_by_cases. Qed.

Lemma handleCloseConnection_spares w ev : spares_stored (handleCloseConnection w ev).
Proof. spares_by_cases. Qed.

Lemma onError_spares w ev : spares_stored (onError w ev).
Proof. spares_by_cases. Qed.

Lemma onMessage_spares JSON_parse atob data : spares_stored (onMessage JSON_parse atob data).
Proof.
  intros c. right. split.
  - destruct data as [blob |]; [| reflexivity].
    simpl. rewrite receive_keeps. reflexivity.
  - intros w _. apply passive_untouched.
    destruct data as [blob |]; [| reflexivity].
    apply receive_passive.
Qed.

Lemma exec_settle_stored_open {A} (m : M A) (wd : World) (w : WebSocket)
      (k : A -> Settle) :
  stored_socket_open (snd (fst (exec m wd))) = true ->
  stored_socket_open (fst (match exec m wd with
                           | (Ok a, wd1, obs) =>
                               let (wd2, obs2) := settle w (k a) wd1 in
                               (wd2, (obs ++ obs2)%list)
                           | (Throw e, wd1, obs) => (wd1, (obs ++ [Raised e])%list)
                           end)) = true.
Proof.
  destruct (exec m wd) as [[[a | e] wd1] obs]; cbn [fst snd]; intros H.
  - pose proof (settle_stored_open w (k a) wd1 H) as Hs.
    destruct (settle w (k a) wd1) as [wd2 obs2]. exact Hs.
  - exact H.
Qed.

Lemma step_stored_open JSON_parse atob (a : Action) (wd : World) :
  stored_socket_open wd = true ->
  stored_socket_open (fst (step JSON_parse atob a wd)) = true.
Proof.
  intros Hinv.
  destruct a as [cfg | | parts tc | chunks | tr | w ev | w ev | w ev | w data |];
    cbn [step].
  - (* connect *)
    revert Hinv. unfold connect, exec, establishConnection, stored_socket_open. cbn.
    destruct (ws (client wd)) as [cur |]; [| reflexivity].
    destruct (nth_error (sockets wd) cur) as [s |] eqn:Hs; [| discriminate].
    rewrite nth_error_app1; [rewrite Hs; auto |].
    apply nth_error_Some. rewrite Hs. discriminate.
  - rewrite call_is_exec. apply exec_stored_open; [apply disconnect_spares | exact Hinv].
  - rewrite call_is_exec. apply exec_stored_open; [apply send_spares | exact Hinv].
  - rewrite call_is_exec. apply exec_stored_open; [apply sendRealtimeInput_spares | exact Hinv].
  - rewrite call_is_exec. apply exec_stored_open; [apply sendToolResponse_spares | exact Hinv].
  - (* open *)
    destruct (nth_error (sockets wd) w) as [[n rs st el cl] |] eqn:Hw; [| exact Hinv].
    destruct rs; try exact Hinv.
    apply exec_settle_stored_open. rewrite exec_world. cbn [client sockets timers].
    destruct (config (client wd)) as [cfg |] eqn:Hcfg.
    + rewrite (handleOpenConnection_run _ cfg w ev Hcfg).
      unfold stored_socket_open, after, effects, set_readyState.
      cbn -[update_socket].
      rewrite !nth_error_update_socket, Hw, Nat.eqb_refl.
      reflexivity.
    + rewrite (handleOpenConnection_unconfigured _ w ev Hcfg).
      apply (stored_open_same wd); [reflexivity | | exact Hinv].
      intros cur Hcur. cbn. unfold set_readyState. apply update_socket_other.
      intros ->. unfold stored_socket_open in Hinv. rewrite Hcur, Hw in Hinv.
      discriminate Hinv.
  - (* error *)
    destruct (nth_error (sockets wd) w) as [sock |]; [| exact Hinv].
    destruct (error_listener sock); [| exact Hinv].
    apply (exec_settle_stored_open (onError w ev) wd w (fun e => Reject e)).
    apply exec_stored_open; [apply onError_spares | exact Hinv].
  - (* close *)
    destruct (nth_error (sockets wd) w) as [sock |] eqn:Hw; [| exact Hinv].
    destruct (readyState sock) eqn:Hrs; try exact Hinv;
      (destruct (ws (client wd)) as [cur |] eqn:Hcur;
       [destruct (Nat.eq_dec cur w) as [-> | Hne] |]).
    all: try (* the stored socket closes *)
      (assert (Hcl : close_listener sock = true)
         by (unfold stored_socket_open, linked in Hinv;
             rewrite Hcur, Hw, Hrs in Hinv;
             try discriminate Hinv;
             apply andb_true_iff in Hinv; apply Hinv);
       rewrite Hcl, call_is_exec, exec_world;
       unfold stored_socket_open; cbn [client];
       destruct (listeners_own_socket (client wd) w ev) as [Hclose _];
       unfold after; rewrite Hclose; cbn [fst snd];
       unfold is_stored; rewrite Hcur, Nat.eqb_refl; reflexivity).
    all: try (unfold stored_socket_open, linked in Hinv;
              rewrite Hcur, Hw, Hrs in Hinv; discriminate Hinv).
    all: (assert (Hinv0 : stored_socket_open
                            {| client := client wd;
                               sockets := set_readyState w CLOSED (sockets wd);
                               timers := timers wd |} = true)
            by (revert Hinv; apply stored_open_same; [reflexivity |];
                intros cur' Hcur'; cbn; unfold set_readyState;
                apply update_socket_other; congruence);
          destruct (close_listener sock); [| exact Hinv0];
          rewrite call_is_exec;
          apply exec_stored_open; [apply handleCloseConnection_spares | exact Hinv0]).
  - (* message *)
    destruct (nth_error (sockets wd) w) as [[n rs st el cl] |]; [| exact Hinv].
    destruct rs; try exact Hinv.
    rewrite call_is_exec. apply exec_stored_open; [apply onMessage_spares | exact Hinv].
  - (* timer *)
    destruct (timers wd) as [| n rest]; [exact Hinv |].
    revert Hinv. unfold establishConnection, stored_socket_open. cbn.
    destruct (ws (client wd)) as [cur |]; [| reflexivity].
    destruct (nth_error (sockets wd) cur) as [s |] eqn:Hs; [| discriminate].
    rewrite nth_error_app1; [rewrite Hs; auto |].
    apply nth_error_Some. rewrite Hs. discriminate.
Qed.

Lemma run_stored_open JSON_parse atob (actions : list Action) :
  forall wd, stored_socket_open wd = true ->
             stored_socket_open (snd (run JSON_parse atob actions wd)) = true.
Proof.
  induction actions as [| a actions IH]; intros wd H; [exact H |].
  simpl.
  pose proof (step_stored_open JSON_parse atob a wd H) as H1.
  destruct (step JSON_parse atob a wd) as [wd1 obs]. cbn [fst] in H1.
  specialize (IH wd1 H1).
  destruct (run JSON_parse atob actions wd1) as [history wd2]. exact IH.
Qed.
















(* ------------------------------------------------------------------ *)
(** ** The attempts of connect *)

Lemma forallb_update_from (P : Socket -> bool) (w : WebSocket) (f : Socket -> Socket)
      (l : list Socket) :
  (forall s, P (f s) = P s) ->
  forall k,
    forallb P (map (fun p => if Nat.eqb (fst p) w then f (snd p) else snd p)
                   (combine (seq k (List.length l)) l))
    = forallb P l.
Proof.
  intros Hf. induction l as [| s l IH]; intros k; [reflexivity |].
  simpl. rewrite IH. destruct (Nat.eqb k w); [rewrite Hf |]; reflexivity.
Qed.

Lemma forallb_update_socket (P : Socket -> bool) (w : WebSocket) (f : Socket -> Socket)
      (l : list Socket) :
  (forall s, P (f s) = P s) -> forallb P (update_socket w f l) = forallb P l.
Proof. intros Hf. apply (forallb_update_from P w f l Hf 0). Qed.

Lemma apply_effects_in_range (effs : list Effect) :
  forall l, forallb attempt_in_range (fold_left apply_effect effs l)
            = forallb attempt_in_range l.
Proof.
  induction effs as [| e effs IH]; intros l; [reflexivity |].
  simpl. rewrite IH.
  destruct e; try reflexivity; apply forallb_update_socket; reflexivity.
Qed.

Lemma exec_bounded {A} (m : M A) (wd : World) :
  attempts_bounded (snd (fst (exec m wd))) = attempts_bounded wd.
Proof.
  rewrite exec_world. unfold attempts_bounded. cbn [sockets timers].
  rewrite apply_effects_in_range. reflexivity.
Qed.

Lemma settle_bounded (w : WebSocket) (s : Settle) (wd : World) :
  attempts_bounded wd = true -> attempts_bounded (fst (settle w s wd)) = true.
Proof.
  intros H. unfold settle.
  destruct (nth_error (sockets wd) w) as [sock |] eqn:Hw; [| exact H].
  destruct (settled sock); [exact H |].
  unfold attempts_bounded in *. apply andb_true_iff in H. destruct H as [Hs Ht].
  assert (Hset : forallb attempt_in_range (set_settled w (sockets wd)) = true).
  { unfold set_settled. rewrite forallb_update_socket; [exact Hs | reflexivity]. }
  destruct s as [value | e]; cbn [fst sockets timers];
    [rewrite Hset, Ht; reflexivity |].
  destruct (Nat.eqb_spec (attempt sock) reconnectAttempts) as [Heq | Hne];
    cbn [fst sockets timers]; rewrite Hset; [rewrite Ht; reflexivity |].
  rewrite forallb_app, Ht. simpl.
  rewrite forallb_forall in Hs. specialize (Hs sock (nth_error_In _ _ Hw)).
  unfold attempt_in_range in Hs. apply andb_true_iff in Hs. destruct Hs as [H1 H3].
  apply Nat.leb_le in H1, H3. unfold retry_in_range.
  rewrite andb_true_r. apply andb_true_iff. split; apply Nat.leb_le; lia.
Qed.

Lemma exec_settle_bounded {A} (m : M A) (wd : World) (w : WebSocket)
      (k : A -> Settle) :
  attempts_bounded wd = true ->
  attempts_bounded (fst (match exec m wd with
                         | (Ok a, wd1, obs) =>
                             let (wd2, obs2) := settle w (k a) wd1 in
                             (wd2, (obs ++ obs2)%list)
                         | (Throw e, wd1, obs) => (wd1, (obs ++ [Raised e])%list)
                         end)) = true.
Proof.
  intros H. rewrite <- (exec_bounded m wd) in H.
  destruct (exec m wd) as [[[a | e] wd1] obs]; cbn [fst snd] in *; [| exact H].
  pose proof (settle_bounded w (k a) wd1 H) as Hs.
  destruct (settle w (k a) wd1) as [wd2 obs2]. exact Hs.
Qed.

Lemma call_bounded {A} (m : M A) (wd : World) :
  attempts_bounded wd = true -> attempts_bounded (fst (call m wd)) = true.
Proof. intros H. rewrite call_is_exec, exec_bounded. exact H. Qed.

Lemma set_readyState_bounded (w : WebSocket) (st : ReadyState) (wd : World) :
  attempts_bounded {| client := client wd;
                      sockets := set_readyState w st (sockets wd);
                      timers := timers wd |}
  = attempts_bounded wd.
Proof.
  unfold attempts_bounded, set_readyState. cbn [sockets timers].
  rewrite forallb_update_socket; reflexivity.
Qed.

Lemma step_bounded JSON_parse atob (a : Action) (wd : World) :
  attempts_bounded wd = true ->
  attempts_bounded (fst (step JSON_parse atob a wd)) = true.
Proof.
  intros H.
  destruct a as [cfg | | parts tc | chunks | tr | w ev | w ev | w ev | w data |];
    cbn [step]; try (apply call_bounded; exact H).
  - unfold connect, exec, establishConnection, attempts_bounded in *. cbn.
    rewrite forallb_app. apply andb_true_iff in H. destruct H as [-> ->]. reflexivity.
  - destruct (nth_error (sockets wd) w) as [[n rs st el cl] |]; [| exact H].
    destruct rs; try exact H.
    apply exec_settle_bounded. rewrite set_readyState_bounded. exact H.
  - destruct (nth_error (sockets wd) w) as [sock |]; [| exact H].
    destruct (error_listener sock); [| exact H].
    apply (exec_settle_bounded (onError w ev) wd w (fun e => Reject e) H).
  - destruct (nth_error (sockets wd) w) as [sock |]; [| exact H].
    rewrite <- (set_readyState_bounded w CLOSED wd) in H.
    destruct (readyState sock); try (rewrite set_readyState_bounded in H; exact H);
      (destruct (close_listener sock); [apply call_bounded |]; exact H).
  - destruct (nth_error (sockets wd) w) as [[n rs st el cl] |]; [| exact H].
    destruct rs; try exact H. apply call_bounded. exact H.
  - destruct (timers wd) as [| n rest] eqn:Ht; [exact H |].
    unfold establishConnection, attempts_bounded in *. cbn. rewrite Ht in H.
    simpl in H. rewrite forallb_app. simpl.
    apply andb_true_iff in H. destruct H as [Hs H].
    apply andb_true_iff in H. destruct H as [Hn Hr].
    rewrite Hs, Hr. unfold retry_in_range in Hn. unfold attempt_in_range.
    cbn [attempt].
    apply andb_true_iff in Hn. destruct Hn as [H2 H3].
    apply Nat.leb_le in H2. rewrite H3.
    replace (1 <=? n)%nat with true; [reflexivity |].
    symmetry. apply Nat.leb_le. lia.
Qed.


Lemma exec_eq {A} (m : M A) (wd : World) :
  exec m wd
  = (result (m (client wd)),
     {| client := after (m (client wd));
        sockets := fold_left apply_effect (effects (m (client wd))) (sockets wd);
        timers := timers wd |},
     map Did (effects (m (client wd)))).
Proof.
  unfold exec, result, after, effects. destruct (m (client wd)) as [[r c] effs].
  reflexivity.
Qed.










(* ------------------------------------------------------------------ *)
(** ** The sockets a call of connect can make *)

Lemma map_update_from {B} (g : Socket -> B) (w : WebSocket) (f : Socket -> Socket)
      (l : list Socket) :
  (forall s, g (f s) = g s) ->
  forall k,
    map g (map (fun p => if Nat.eqb (fst p) w then f (snd p) else snd p)
               (combine (seq k (List.length l)) l))
    = map g l.
Proof.
  intros Hf. induction l as [| s l IH]; intros k; [reflexivity |].
  simpl. rewrite IH. destruct (Nat.eqb k w); [rewrite Hf |]; reflexivity.
Qed.

Lemma map_update_socket {B} (g : Socket -> B) (w : WebSocket) (f : Socket -> Socket)
      (l : list Socket) :
  (forall s, g (f s) = g s) -> map g (update_socket w f l) = map g l.
Proof. intros Hf. apply (map_update_from g w f l Hf 0). Qed.

Lemma apply_effects_debt (effs : list Effect) :
  forall l, map (fun s => 1 + debt s) (fold_left apply_effect effs l)
            = map (fun s => 1 + debt s) l.
Proof.
  induction effs as [| e effs IH]; intros l; [reflexivity |].
  simpl. rewrite IH.
  destruct e; try reflexivity; apply map_update_socket; reflexivity.
Qed.

Lemma exec_potential {A} (m : M A) (wd : World) :
  potential (snd (fst (exec m wd))) = potential wd.
Proof.
  rewrite exec_world. unfold potential. cbn [sockets timers].
  rewrite apply_effects_debt. reflexivity.
Qed.

Lemma set_readyState_potential (w : WebSocket) (st : ReadyState) (wd : World) :
  potential {| client := client wd;
               sockets := set_readyState w st (sockets wd);
               timers := timers wd |}
  = potential wd.
Proof.
  unfold potential, set_readyState. cbn [sockets timers].
  rewrite map_update_socket; reflexivity.
Qed.

Lemma sum_update_from (g : Socket -> nat) (w : WebSocket) (f : Socket -> Socket)
      (l : list Socket) :
  forall k i s,
    nth_error l i = Some s -> w = k + i ->
    list_sum (map g (map (fun p => if Nat.eqb (fst p) w then f (snd p) else snd p)
                         (combine (seq k (List.length l)) l)))
    + g s
    = list_sum (map g l) + g (f s).
Proof.
  induction l as [| x l IH]; intros k i s Hi Hw; [destruct i; discriminate Hi |].
  destruct i as [| i]; simpl in Hi.
  - injection Hi as ->. rewrite Nat.add_0_r in Hw. subst w. simpl.
    rewrite Nat.eqb_refl.
    assert (Hrest : map (fun p : nat * Socket =>
                           if Nat.eqb (fst p) k then f (snd p) else snd p)
                        (combine (seq (S k) (List.length l)) l) = l).
    { clear. assert (H : forall j, k < j ->
                 map (fun p : nat * Socket =>
                        if Nat.eqb (fst p) k then f (snd p) else snd p)
                     (combine (seq j (List.length l)) l) = l).
      { induction l as [| y l IH]; intros j Hj; [reflexivity |].
        simpl. rewrite IH by lia.
        destruct (Nat.eqb_spec j k); [lia | reflexivity]. }
      apply H. lia. }
    rewrite Hrest. lia.
  - simpl. destruct (Nat.eqb_spec k w) as [Heq | Hne]; [lia |].
    assert (Hk : w = S k + i) by lia.
    pose proof (IH (S k) i s Hi Hk) as IH'. simpl. lia.
Qed.

Lemma list_sum_cons (a : nat) (l : list nat) : list_sum (a :: l) = a + list_sum l.
Proof. reflexivity. Qed.

Lemma settle_potential (w : WebSocket) (s : Settle) (wd : World) :
  potential (fst (settle w s wd)) <= potential wd.
Proof.
  unfold settle. destruct (nth_error (sockets wd) w) as [sock |] eqn:Hw;
    [| apply Nat.le_refl].
  destruct (settled sock) eqn:Hst; [apply Nat.le_refl |].
  pose proof (sum_update_from (fun x => 1 + debt x) w
                (fun x => {| attempt := attempt x; readyState := readyState x;
                             settled := true;
                             error_listener := error_listener x;
                             close_listener := close_listener x |})
                (sockets wd) 0 w sock Hw eq_refl) as Hsum.
  assert (Hd : forall x, debt {| attempt := attempt x; readyState := readyState x;
                                 settled := true;
                                 error_listener := error_listener x;
                                 close_listener := close_listener x |} = 0)
    by reflexivity.
  assert (Hds : debt sock = reconnectAttempts - attempt sock)
    by (unfold debt; rewrite Hst; reflexivity).
  cbv beta in Hsum. rewrite Hd in Hsum.
  unfold set_settled, update_socket.
  destruct s as [value | e]; unfold potential; cbn [fst sockets timers]; [lia |].
  destruct (Nat.eqb (attempt sock) reconnectAttempts);
    unfold potential; cbn [fst sockets timers]; [lia |].
  rewrite map_app, list_sum_app. cbn [map].
  rewrite !list_sum_cons. change (list_sum (@nil nat)) with 0. lia.
Qed.

Lemma exec_settle_potential {A} (m : M A) (wd : World) (w : WebSocket)
      (k : A -> Settle) :
  potential (fst (match exec m wd with
                  | (Ok a, wd1, obs) =>
                      let (wd2, obs2) := settle w (k a) wd1 in
                      (wd2, (obs ++ obs2)%list)
                  | (Throw e, wd1, obs) => (wd1, (obs ++ [Raised e])%list)
                  end))
  <= potential wd.
Proof.
  rewrite <- (exec_potential m wd).
  destruct (exec m wd) as [[[a | e] wd1] obs]; cbn [fst snd]; [| apply Nat.le_refl].
  pose proof (settle_potential w (k a) wd1) as Hs.
  destruct (settle w (k a) wd1) as [wd2 obs2]. exact Hs.
Qed.

Lemma call_potential {A} (m : M A) (wd : World) :
  potential (fst (call m wd)) = potential wd.
Proof. rewrite call_is_exec. apply exec_potential. Qed.

Lemma step_potential JSON_parse atob (a : Action) (wd : World) :
  attempts_bounded wd = true ->
  potential (fst (step JSON_parse atob a wd))
  <= potential wd + reconnectAttempts * connects [a].
Proof.
  intros Hb.
  destruct a as [cfg | | parts tc | chunks | tr | w ev | w ev | w ev | w data |];
    cbn [step]; unfold connects; cbn [filter List.length];
    rewrite ?Nat.mul_0_r, ?Nat.add_0_r;
    try (rewrite call_potential; apply Nat.le_refl).
  - unfold connect. rewrite exec_eq. unfold establishConnection, potential.
    cbn [fst snd sockets timers effects set_config fold_left].
    rewrite map_app, list_sum_app. cbn [map debt settled attempt].
    rewrite !list_sum_cons. change (list_sum (@nil nat)) with 0.
    unfold reconnectAttempts. lia.
  - destruct (nth_error (sockets wd) w) as [[n rs st el cl] |]; [| apply Nat.le_refl].
    destruct rs; try apply Nat.le_refl.
    rewrite <- (set_readyState_potential w OPEN wd). apply exec_settle_potential.
  - destruct (nth_error (sockets wd) w) as [sock |]; [| apply Nat.le_refl].
    destruct (error_listener sock); [| apply Nat.le_refl].
    apply (exec_settle_potential (onError w ev) wd w (fun e => Reject e)).
  - destruct (nth_error (sockets wd) w) as [sock |]; [| apply Nat.le_refl].
    destruct (readyState sock); try apply Nat.le_refl;
      (destruct (close_listener sock);
       [rewrite call_potential | cbn [fst]]; rewrite set_readyState_potential;
       apply Nat.le_refl).
  - destruct (nth_error (sockets wd) w) as [[n rs st el cl] |]; [| apply Nat.le_refl].
    destruct rs; try apply Nat.le_refl. rewrite call_potential. apply Nat.le_refl.
  - destruct (timers wd) as [| n rest] eqn:Ht; [apply Nat.le_refl |].
    unfold attempts_bounded in Hb. rewrite Ht in Hb. simpl in Hb.
    apply andb_true_iff in Hb. destruct Hb as [_ Hb].
    apply andb_true_iff in Hb. destruct Hb as [Hn _].
    unfold retry_in_range in Hn. apply andb_true_iff in Hn. destruct Hn as [_ H3].
    apply Nat.leb_le in H3. unfold reconnectAttempts in H3.
    unfold establishConnection, potential. cbn [fst sockets timers]. rewrite Ht.
    rewrite map_app, list_sum_app. cbn [map debt settled attempt].
    rewrite !list_sum_cons. change (list_sum (@nil nat)) with 0.
    unfold reconnectAttempts. lia.
Qed.

Lemma connects_cons (a : Action) (actions : list Action) :
  connects (a :: actions) = connects [a] + connects actions.
Proof. unfold connects. simpl. destruct a; reflexivity. Qed.

Lemma run_potential JSON_parse atob (actions : list Action) :
  forall wd, attempts_bounded wd = true ->
             potential (snd (run JSON_parse atob actions wd))
             <= potential wd + reconnectAttempts * connects actions.
Proof.
  induction actions as [| a actions IH]; intros wd H.
  - simpl. lia.
  - rewrite connects_cons. simpl run.
    pose proof (step_bounded JSON_parse atob a wd H) as Hb.
    pose proof (step_potential JSON_parse atob a wd H) as Hp.
    destruct (step JSON_parse atob a wd) as [wd1 obs]. cbn [fst] in Hb, Hp.
    specialize (IH wd1 Hb).
    destruct (run JSON_parse atob actions wd1) as [history wd2]. cbn [snd] in *.
    lia.
Qed.

Lemma sockets_within_potential (wd : World) :
  List.length (sockets wd) <= potential wd.
Proof.
  unfold potential. generalize (sockets wd) as l.
  induction l as [| s l IH]; [apply Nat.le_0_l |].
  cbn [map List.length]. rewrite list_sum_cons. lia.
Qed.

(** X9.  However the events of the sockets, the retry delays and the calls
    of the application interleave, the client makes at most three sockets for
    each call of [connect]: after any sequence of actions on a freshly built
    client the number of sockets made is at most three times the number of
    connect calls among the actions. *)
Theorem sockets_per_connect
  (JSON_parse : string -> option JsonValue) (atob : JsonValue -> option string)
  (url : option string) (apiKey : string) (actions : list Action) :
  List.length (sockets (snd (run JSON_parse atob actions
                               (start (constructor url apiKey)))))
  <= reconnectAttempts * connects actions.
Proof.
  pose proof (run_potential JSON_parse atob actions
                (start (constructor url apiKey)) eq_refl) as Hp.
  pose proof (sockets_within_potential
                (snd (run JSON_parse atob actions (start (constructor url apiKey)))))
    as Hl.
  change (potential (start (constructor url apiKey))) with 0 in Hp.
  lia.
Qed.


(* ------------------------------------------------------------------ *)
(** ** The log store over many calls *)

Lemma at_last_app {A} (l : list A) (x : A) : Logger.at_last (l ++ [x])%list = Some x.
Proof.
  destruct l as [| y l]; [reflexivity |].
  simpl. f_equal. apply last_last.
Qed.

Lemma at_last_length {A} (l : list A) (x : A) :
  Logger.at_last l = Some x -> List.length (removelast l ++ [x])%list = List.length l.
Proof.
  intros H. destruct l as [| y l]; [discriminate H |].
  rewrite length_app. simpl List.length at 2.
  assert (Hne : y :: l <> []) by discriminate.
  rewrite (app_removelast_last y Hne) at 2. rewrite length_app. reflexivity.
Qed.

Lemma strict_equal_refl (m : Logger.Message) : Logger.strict_equal m m = true.
Proof. destruct m; simpl; [apply String.eqb_refl | apply Nat.eqb_refl]. Qed.

Lemma duplicate_of_refl (entry : Logger.StreamingLog) : duplicate_of entry entry = true.
Proof.
  unfold duplicate_of. rewrite String.eqb_refl, strict_equal_refl. reflexivity.
Qed.

Lemma log_keeps_maxLogs (entry : Logger.StreamingLog) (state : Logger.StoreLoggerState) :
  Logger.maxLogs (Logger.log entry state) = Logger.maxLogs state.
Proof.
  unfold Logger.log. destruct (Logger.at_last (Logger.logs state)) as [prev |];
    [| reflexivity].
  destruct (String.eqb _ _ && Logger.strict_equal _ _); reflexivity.
Qed.

(** One call: the capacity is respected whether the entry is merged or not. *)
Lemma log_bounded (entry : Logger.StreamingLog) (state : Logger.StoreLoggerState) :
  (2 <= Logger.maxLogs state)%Z ->
  (Z.of_nat (List.length (Logger.logs state)) <= Logger.maxLogs state)%Z ->
  (Z.of_nat (List.length (Logger.logs (Logger.log entry state)))
   <= Logger.maxLogs state)%Z.
Proof.
  intros Hcap Hlen.
  destruct (Logger.at_last (Logger.logs state)) as [prev |] eqn:Hlast.
  - destruct (duplicate_of prev entry) eqn:Hdup.
    + rewrite (log_merges entry prev state Hlast Hdup).
      rewrite length_app. simpl List.length at 2.
      pose proof (at_last_length _ _ Hlast) as Hl. rewrite length_app in Hl.
      simpl List.length at 2 in Hl. rewrite Hl. exact Hlen.
    + apply log_within_capacity; [exact Hcap |].
      intros prev' H. rewrite Hlast in H. injection H as <-. exact Hdup.
  - apply log_within_capacity; [exact Hcap |]. intros prev' H. congruence.
Qed.

Lemma log_stores_entry (entry : Logger.StreamingLog) (state : Logger.StoreLoggerState) :
  exists newest,
    Logger.at_last (Logger.logs (Logger.log entry state)) = Some newest
    /\ Logger.type newest = Logger.type entry
    /\ Logger.strict_equal (Logger.message newest) (Logger.message entry) = true.
Proof.
  destruct (Logger.at_last (Logger.logs state)) as [prev |] eqn:Hlast.
  - destruct (duplicate_of prev entry) eqn:Hdup.
    + rewrite (log_merges entry prev state Hlast Hdup), at_last_app.
      exists (counted_again prev). split; [reflexivity |].
      unfold duplicate_of in Hdup. apply andb_true_iff in Hdup.
      destruct Hdup as [Ht Hm]. apply String.eqb_eq in Ht. simpl. auto.
    + rewrite log_appends, at_last_app.
      * exists entry. split; [reflexivity |]. split; [reflexivity |].
        apply strict_equal_refl.
      * intros prev' H. rewrite Hlast in H. injection H as <-. exact Hdup.
  - rewrite log_appends, at_last_app.
    + exists entry. split; [reflexivity |]. split; [reflexivity |].
      apply strict_equal_refl.
    + intros prev' H. congruence.
Qed.

Lemma log_all_last (entries : list Logger.StreamingLog) (entry : Logger.StreamingLog)
      (state : Logger.StoreLoggerState) :
  log_all (entries ++ [entry]) state = Logger.log entry (log_all entries state).
Proof. unfold log_all. rewrite fold_left_app. reflexivity. Qed.

(** X10.  With a capacity of at least two, a store that is within its
    capacity stays within it under any sequence of [log] calls, merged or
    appended, and the capacity itself is not changed by logging.  After a
    non-empty sequence, with any capacity, the newest stored entry has the
    type of the entry logged last and a message identical to its message. *)
Theorem log_all_within_capacity
  (entries : list Logger.StreamingLog) (state : Logger.StoreLoggerState)
  (Hcap : (2 <= Logger.maxLogs state)%Z)
  (Hlen : (Z.of_nat (List.length (Logger.logs state)) <= Logger.maxLogs state)%Z) :
  Logger.maxLogs (log_all entries state) = Logger.maxLogs state
  /\ (Z.of_nat (List.length (Logger.logs (log_all entries state)))
      <= Logger.maxLogs state)%Z
  /\ forall earlier entry,
       entries = (earlier ++ [entry])%list ->
       exists newest,
         Logger.at_last (Logger.logs (log_all entries state)) = Some newest
         /\ Logger.type newest = Logger.type entry
         /\ Logger.strict_equal (Logger.message newest) (Logger.message entry) = true.
Proof.
  assert (Hinv : forall es st,
             (2 <= Logger.maxLogs st)%Z ->
             (Z.of_nat (List.length (Logger.logs st)) <= Logger.maxLogs st)%Z ->
             Logger.maxLogs (log_all es st) = Logger.maxLogs st
             /\ (Z.of_nat (List.length (Logger.logs (log_all es st)))
                 <= Logger.maxLogs st)%Z).
  { induction es as [| e es IH]; intros st Hc Hl; [split; [reflexivity | exact Hl] |].
    change (log_all (e :: es) st) with (log_all es (Logger.log e st)).
    pose proof (log_keeps_maxLogs e st) as Hm.
    pose proof (log_bounded e st Hc Hl) as Hb.
    rewrite <- Hm in Hc, Hb. destruct (IH _ Hc Hb) as [H1 H2].
    rewrite H1, <- Hm. split; [reflexivity | exact H2]. }
  destruct (Hinv entries state Hcap Hlen) as [H1 H2].
  split; [exact H1 |]. split; [exact H2 |].
  intros earlier entry ->. rewrite log_all_last. apply log_stores_entry.
Qed.

Lemma log_all_within_capacity_witness :
  (2 <= Logger.maxLogs (Logger.setMaxLogs 2 Logger.initial))%Z
  /\ (Z.of_nat (List.length
        (Logger.logs
           (log_all [text_entry "client.send" "setup";
                     text_entry "server.send" "setupComplete";
                     text_entry "server.send" "setupComplete";
                     text_entry "server.send" "turnComplete"]
                    (Logger.setMaxLogs 2 Logger.initial))))
      <= 2)%Z.
Proof.
  assert (Hcap : (2 <= Logger.maxLogs (Logger.setMaxLogs 2 Logger.initial))%Z)
    by (simpl; lia).
  assert (Hlen : (Z.of_nat (List.length
                              (Logger.logs (Logger.setMaxLogs 2 Logger.initial)))
                  <= Logger.maxLogs (Logger.setMaxLogs 2 Logger.initial))%Z)
    by (simpl; lia).
  split; [exact Hcap |].
  exact (proj1 (proj2 (log_all_within_capacity
                         [text_entry "client.send" "setup";
                          text_entry "server.send" "setupComplete";
                          text_entry "server.send" "setupComplete";
                          text_entry "server.send" "turnComplete"]
                         (Logger.setMaxLogs 2 Logger.initial) Hcap Hlen))).
Defined.

Lemma merged_again (k : nat) (entry : Logger.StreamingLog) :
  counted_again (merged k entry) = merged (S k) entry.
Proof.
  unfold counted_again. destruct k as [| k]; simpl.
  - unfold count_or_zero. reflexivity.
  - f_equal. f_equal. lia.
Qed.

Lemma removelast_snoc {A} (l : list A) (x : A) : removelast (l ++ [x])%list = l.
Proof. apply removelast_last. Qed.

(** X11.  Logging an entry that is not a duplicate of the newest stored
    one, and then the same entry [k] more times, stores it once: the store
    holds what the first call left, with the count of that entry raised by
    [k] (its own count when [k] is 0) and its date and fields unchanged. *)
Theorem repeats_are_counted
  (k : nat) (entry : Logger.StreamingLog) (state : Logger.StoreLoggerState)
  (Hnew : forall prev, Logger.at_last (Logger.logs state) = Some prev ->
                       duplicate_of prev entry = false) :
  Logger.logs (log_all (repeat entry (S k)) state)
  = (Logger.slice (- (Logger.maxLogs state - 1)) (Logger.logs state)
     ++ [merged k entry])%list.
Proof.
  induction k as [| k IH].
  - simpl. apply log_appends. exact Hnew.
  - replace (repeat entry (S (S k))) with (repeat entry (S k) ++ [entry])%list
      by (rewrite <- repeat_cons; reflexivity).
    rewrite log_all_last.
    assert (Hlast : Logger.at_last (Logger.logs (log_all (repeat entry (S k)) state))
                    = Some (merged k entry))
      by (rewrite IH; apply at_last_app).
    assert (Hdup : duplicate_of (merged k entry) entry = true).
    { destruct k; [apply duplicate_of_refl |].
      unfold duplicate_of. simpl. rewrite String.eqb_refl, strict_equal_refl.
      reflexivity. }
    rewrite (log_merges entry _ _ Hlast Hdup), IH, removelast_snoc, merged_again.
    reflexivity.
Qed.

Lemma repeats_are_counted_witness :
  Logger.logs (log_all (repeat (text_entry "server.audio" "buffer (9600)") 3)
                       Logger.initial)
  = [{| Logger.date := 0; Logger.type := "server.audio"; Logger.count := Some 2;
        Logger.message := Logger.MsgString "buffer (9600)" |}].
Proof.
  apply (repeats_are_counted 2 (text_entry "server.audio" "buffer (9600)")
           Logger.initial).
  intros prev H. discriminate H.
Defined.


(* ------------------------------------------------------------------ *)
(** ** Playback of PCM: every input *)

Lemma ToInt32_small (z : Z) :
  (- 2 ^ 31 <= z < 2 ^ 31)%Z -> Streamer.ToInt32 z = z.
Proof.
  intros H. unfold Streamer.ToInt32. rewrite Z.mod_small; lia.
Qed.

Lemma lor_high_low (h l : Z) :
  (0 <= l < 256)%Z -> Z.lor (h * 256) l = (h * 256 + l)%Z.
Proof.
  intros Hl. rewrite <- (Z.add_lor_land (h * 256) l).
  assert (Hland : Z.land (h * 256) l = 0%Z).
  { apply Z.bits_inj'. intros n Hn. rewrite Z.land_spec, Z.bits_0.
    destruct (Z.ltb_spec n 8) as [Hlt | Hge].
    - change 256%Z with (2 ^ 8)%Z. rewrite <- Z.shiftl_mul_pow2 by lia.
      rewrite Z.shiftl_spec_low by exact Hlt. reflexivity.
    - destruct (Z.eq_dec l 0) as [-> | Hne];
        [rewrite Z.bits_0; apply andb_false_r |].
      rewrite (Z.bits_above_log2 l n); [apply andb_false_r | lia |].
      assert (Z.log2 l < 8)%Z; [| lia].
      apply Z.log2_lt_pow2; [lia |]. change (2 ^ 8)%Z with 256%Z. lia. }
  rewrite Hland. lia.
Qed.

Lemma byte_at_range (data : list byte) (i : nat) :
  (0 <= Streamer.byte_at data i < 256)%Z.
Proof.
  unfold Streamer.byte_at. destruct (nth_error data i) as [b |]; [| lia].
  pose proof (Byte.to_N_bounded b). lia.
Qed.

Lemma sample_is_unsigned (h l : Z) :
  (0 <= h < 256)%Z -> (0 <= l < 256)%Z ->
  Streamer.bor (Streamer.shl h 8) l = (256 * h + l)%Z.
Proof.
  intros Hh Hl. unfold Streamer.bor, Streamer.shl.
  rewrite (ToInt32_small h) by lia.
  rewrite Z.shiftl_mul_pow2 by lia. change (2 ^ 8)%Z with 256%Z.
  rewrite (ToInt32_small (h * 256)) by lia.
  rewrite (ToInt32_small (h * 256)) by lia.
  rewrite (ToInt32_small l) by lia.
  rewrite lor_high_low by exact Hl.
  rewrite ToInt32_small by lia. lia.
Qed.

Lemma set_nth_nth_error {A} (l : list A) :
  forall (i j : nat) (v : A),
    nth_error (Streamer.set_nth i v l) j
    = if (Nat.eqb j i && (i <? List.length l)%nat)%bool then Some v else nth_error l j.
Proof.
  induction l as [| x l IH]; intros i j v.
  - simpl. rewrite andb_false_r. reflexivity.
  - destruct i as [| i], j as [| j]; simpl; try reflexivity.
    rewrite IH. reflexivity.
Qed.

Lemma fold_set_nth {A} (f : nat -> A) (m : nat) :
  forall (ch : list A) (j : nat),
    nth_error (fold_left (fun ch k => Streamer.set_nth k (f k) ch) (seq 0 m) ch) j
    = if ((j <? m)%nat && (j <? List.length ch)%nat)%bool then Some (f j)
      else nth_error ch j.
Proof.
  induction m as [| m IH]; intros ch j; [reflexivity |].
  rewrite seq_S, fold_left_app. simpl fold_left.
  rewrite set_nth_nth_error, IH.
  assert (Hlen : List.length (fold_left (fun ch k => Streamer.set_nth k (f k) ch)
                                        (seq 0 m) ch) = List.length ch).
  { clear. generalize (seq 0 m) as ks. intros ks. revert ch.
    induction ks as [| k ks IH]; intros ch; [reflexivity |].
    simpl. rewrite IH. apply set_nth_length. }
  rewrite Hlen.
  destruct (Nat.eqb_spec j m) as [-> | Hne].
  - rewrite Nat.ltb_irrefl. simpl.
    replace (m <? S m)%nat with true by (symmetry; apply Nat.ltb_lt; lia).
    simpl. destruct (m <? List.length ch)%nat eqn:Hm; [reflexivity |].
    reflexivity.
  - simpl.
    replace (j <? S m)%nat with (j <? m)%nat; [reflexivity |].
    destruct (Nat.ltb_spec j m), (Nat.ltb_spec j (S m)); try reflexivity; lia.
Qed.

Lemma decode_frames (data : list byte) :
  Streamer.decode data (repeat 0%Q (List.length data / 2))
  = map (fun i => (unsigned16 data i # 32768)%Q) (seq 0 (List.length data / 2)).
Proof.
  unfold Streamer.decode.
  assert (Hstep : forall ks ch,
             fold_left
               (fun channel k =>
                  let i := (2 * k)%nat in
                  let sample := Streamer.bor (Streamer.shl (Streamer.byte_at data i) 8)
                                             (Streamer.byte_at data (i + 1)) in
                  Streamer.set_nth (i / 2) (sample # 32768)%Q channel) ks ch
             = fold_left
                 (fun ch k => Streamer.set_nth k (unsigned16 data k # 32768)%Q ch) ks ch).
  { induction ks as [| k ks IH]; intros ch; [reflexivity |].
    cbn [fold_left]. rewrite IH. f_equal. cbv zeta.
    rewrite sample_is_unsigned by apply byte_at_range.
    rewrite (Nat.mul_comm 2 k), Nat.div_mul by discriminate.
    unfold unsigned16. rewrite (Nat.mul_comm 2 k). reflexivity. }
  rewrite Hstep. apply nth_error_ext. intros j.
  rewrite (fold_set_nth (fun k => (unsigned16 data k # 32768)%Q)).
  rewrite repeat_length.
  assert (Hle : List.length data / 2 <= (List.length data + 1) / 2)
    by (apply Nat.Div0.div_le_mono; lia).
  destruct (Nat.ltb_spec j (List.length data / 2)) as [Hlt | Hge].
  - replace (j <? (List.length data + 1) / 2)%nat with true
      by (symmetry; apply Nat.ltb_lt; lia).
    replace (j <? List.length data / 2)%nat with true
      by (symmetry; apply Nat.ltb_lt; lia).
    cbn [andb]. rewrite nth_error_map, nth_error_seq.
    replace (j <? List.length data / 2)%nat with true
      by (symmetry; apply Nat.ltb_lt; lia).
    reflexivity.
  - rewrite andb_false_r.
    rewrite (proj2 (nth_error_None _ _)) by (rewrite repeat_length; lia).
    symmetry. apply nth_error_None. rewrite length_map, length_seq. lia.
Qed.

Lemma createBuffer_frames (n : nat) :
  Streamer.createBuffer 1 (Z.of_nat n # 2)%Q 48000%Z
  = if (n <? 2)%nat then Throw NotSupportedError
    else Ok {| Streamer.numberOfChannels := 1; Streamer.sampleRate := 48000%Z;
               Streamer.channel := repeat 0%Q (n / 2) |}.
Proof.
  unfold Streamer.createBuffer.
  assert (Hfloor : Z.to_nat (Qfloor (Z.of_nat n # 2)) = n / 2).
  { unfold Qfloor. change (Z.pos 2) with (Z.of_nat 2).
    rewrite <- Nat2Z.inj_div. apply Nat2Z.id. }
  rewrite Hfloor.
  destruct (Nat.ltb_spec n 2) as [Hlt | Hge].
  - rewrite Nat.div_small by exact Hlt. reflexivity.
  - destruct (n / 2) as [| frames] eqn:Hn; [| reflexivity].
    exfalso. apply Nat.div_small_iff in Hn; lia.
Qed.

Lemma byte_at_firstn (data : list byte) (m j : nat) :
  j < m -> Streamer.byte_at (firstn m data) j = Streamer.byte_at data j.
Proof.
  intros H. unfold Streamer.byte_at. rewrite nth_error_firstn.
  replace (j <? m)%nat with true by (symmetry; apply Nat.ltb_lt; exact H).
  reflexivity.
Qed.

Lemma addPCM16_plays_frames (data : list byte) (s : Streamer.AudioStreamer) :
  Streamer.addPCM16 data s = Throw NotSupportedError
  \/ Streamer.addPCM16 data s = Ok (playing s, replaces s (decoded data)).
Proof.
  unfold Streamer.addPCM16. rewrite createBuffer_frames.
  destruct (List.length data <? 2)%nat; [left; reflexivity | right].
  simpl obind. cbn [Streamer.channel Streamer.numberOfChannels Streamer.sampleRate].
  rewrite decode_frames. reflexivity.
Qed.

(** X12.  [addPCM16] on every input.  Fewer than two bytes make
    [createBuffer] throw NotSupportedError before anything is stopped or
    started.  Otherwise the source that was playing, if any, is stopped and a
    new source is started on a one-channel 48 kHz buffer with one frame per
    whole pair of bytes, frame [i] holding the pair read high byte first as
    an unsigned number, over 32768; the frames lie in [0, 2), never below
    zero.  A trailing odd byte changes nothing: the buffer is the one of the
    whole pairs alone. *)
Theorem addPCM16_plays_unsigned_frames (data : list byte) (s : Streamer.AudioStreamer) :
  Streamer.addPCM16 data s
  = (if (List.length data <? 2)%nat then Throw NotSupportedError
     else Ok (playing s, replaces s (decoded data)))
  /\ (forall i, 0 <= unsigned16 data i < 65536)%Z
  /\ decoded (firstn (2 * (List.length data / 2)) data) = decoded data.
Proof.
  split; [| split].
  - unfold Streamer.addPCM16. rewrite createBuffer_frames.
    destruct (List.length data <? 2)%nat; [reflexivity |].
    simpl obind. cbn [Streamer.channel Streamer.numberOfChannels Streamer.sampleRate].
    rewrite decode_frames. reflexivity.
  - intros i. unfold unsigned16.
    pose proof (byte_at_range data (2 * i)).
    pose proof (byte_at_range data (2 * i + 1)). lia.
  - unfold decoded. f_equal.
    assert (Hlen : List.length (firstn (2 * (List.length data / 2)) data)
                   = 2 * (List.length data / 2)).
    { apply firstn_length_le. apply Nat.Div0.mul_div_le. }
    rewrite Hlen, (Nat.mul_comm 2), Nat.div_mul by discriminate.
    apply map_ext_in. intros i Hi. apply in_seq in Hi.
    unfold unsigned16. rewrite !byte_at_firstn by lia. reflexivity.
Qed.

Lemma perform_sounding (call : StreamerCall) (s : Streamer.AudioStreamer) :
  sounding (snd (perform call s)) (held s) = held (fst (perform call s)).
Proof.
  destruct call as [data |]; simpl.
  - destruct (addPCM16_plays_frames data s) as [-> | ->]; [reflexivity |].
    unfold replaces, held, sounding. cbn [fst snd playing Streamer.pcmSource].
    destruct (Streamer.pcmSource s) as [old |]; simpl;
      [rewrite Nat.eqb_refl |]; reflexivity.
  - unfold Streamer.stop, held, sounding.
    destruct (Streamer.pcmSource s) as [old |] eqn:Hp; simpl;
      [rewrite Nat.eqb_refl | rewrite Hp]; reflexivity.
Qed.

Lemma sounding_app (effs1 effs2 : list Streamer.AudioEffect) (before : list nat) :
  sounding (effs1 ++ effs2) before = sounding effs2 (sounding effs1 before).
Proof. unfold sounding. apply fold_left_app. Qed.

(** X13.  Whatever sequence of [addPCM16] and [stop] calls is made on a
    streamer, including calls of [addPCM16] that throw, the sources that
    have been started and not stopped are exactly the source the streamer
    holds: at most one source sounds at any time, and after [stop] none. *)
Theorem one_source_sounds (calls : list StreamerCall) (s : Streamer.AudioStreamer) :
  sounding (snd (perform_all calls s)) (held s) = held (fst (perform_all calls s))
  /\ List.length (sounding (snd (perform_all calls s)) (held s)) <= 1
  /\ sounding (snd (perform_all (calls ++ [CallStop]) s)) (held s) = [].
Proof.
  assert (Hinv : forall cs st,
             sounding (snd (perform_all cs st)) (held st)
             = held (fst (perform_all cs st))).
  { induction cs as [| call cs IH]; intros st; [reflexivity |].
    simpl. pose proof (perform_sounding call st) as H1.
    destruct (perform call st) as [s1 effs1]. cbn [fst snd] in H1.
    specialize (IH s1). destruct (perform_all cs s1) as [s2 effs2].
    cbn [fst snd] in *. rewrite sounding_app, H1. exact IH. }
  split; [apply Hinv |]. split.
  - rewrite Hinv. unfold held.
    destruct (Streamer.pcmSource (fst (perform_all calls s))); simpl; lia.
  - rewrite Hinv.
    assert (Hsplit : forall cs st,
               fst (perform_all (cs ++ [CallStop]) st)
               = fst (Streamer.stop (fst (perform_all cs st)))).
    { induction cs as [| call cs IH]; intros st.
      - simpl. destruct (Streamer.stop st). reflexivity.
      - simpl. destruct (perform call st) as [s1 effs1].
        specialize (IH s1).
        destruct (perform_all (cs ++ [CallStop]) s1) as [s2 effs2].
        destruct (perform_all cs s1) as [s3 effs3]. exact IH. }
    rewrite Hsplit. unfold Streamer.stop, held.
    destruct (Streamer.pcmSource (fst (perform_all calls s))) eqn:Hp; simpl;
      [reflexivity | rewrite Hp; reflexivity].
Qed.


(* ------------------------------------------------------------------ *)
(** ** Capture over a whole stream *)

Lemma processSample_receiving (acc : Worklet.AudioProcessingWorklet * list (list Z))
      (x : Q) :
  Worklet.isReceivingAudio (fst (Worklet.processSample acc x))
  = Worklet.isReceivingAudio (fst acc).
Proof.
  destruct acc as [w posted]. unfold Worklet.processSample. cbv zeta.
  destruct (_ <=? _)%nat; [| reflexivity].
  unfold Worklet.sendAndClearBuffer. destruct (0 <? _)%nat; reflexivity.
Qed.

Lemma processChunk_receiving (xs : list Q) :
  forall acc,
    Worklet.isReceivingAudio (fst (fold_left Worklet.processSample xs acc))
    = Worklet.isReceivingAudio (fst acc).
Proof.
  induction xs as [| x xs IH]; intros acc; [reflexivity |].
  simpl. rewrite IH. apply processSample_receiving.
Qed.

Lemma pending_length (w : Worklet.AudioProcessingWorklet) :
  ready w -> List.length (pending w) = Worklet.bufferWriteIndex w.
Proof.
  intros [Hl Hi]. unfold pending. apply firstn_length_le. lia.
Qed.

(** One call of [process]. *)
Lemma process_spec (inputs : list (list (list Q))) (w : Worklet.AudioProcessingWorklet) :
  capturing w ->
  let r := Worklet.process inputs w in
  capturing (fst r)
  /\ Forall is_chunk (snd r)
  /\ (List.concat (snd r) ++ pending (fst r)
      = pending w ++ map converted (heard inputs))%list
  /\ (inputs = [] -> pending (fst r) = []).
Proof.
  intros [Hready Hidle].
  assert (Hflush : let r := Worklet.process [] w in
                   capturing (fst r)
                   /\ Forall is_chunk (snd r)
                   /\ (List.concat (snd r) ++ pending (fst r) = pending w ++ [])%list
                   /\ pending (fst r) = []).
  { simpl. destruct (Worklet.isReceivingAudio w) eqn:Hrec.
    - unfold Worklet.sendAndClearBuffer. cbn [Worklet.bufferWriteIndex Worklet.buffer].
      destruct (Nat.ltb_spec 0 (Worklet.bufferWriteIndex w)) as [Hpos | Hzero].
      + cbn [fst snd].
        split; [split; [split; [apply Hready | unfold Worklet.BUFFER_SIZE; simpl; lia]
                       | reflexivity] |].
        split; [constructor; [| constructor] |].
        * unfold is_chunk. fold (pending w). rewrite (pending_length w Hready).
          destruct Hready as [_ Hi]. lia.
        * split; [| reflexivity]. simpl. unfold pending. simpl.
          rewrite !app_nil_r. reflexivity.
      + cbn [fst snd].
        assert (H0 : Worklet.bufferWriteIndex w = 0) by lia.
        split; [split; [exact Hready | intros _; exact H0] |].
        split; [constructor |].
        unfold pending. cbn [Worklet.bufferWriteIndex Worklet.buffer].
        rewrite H0. split; reflexivity.
    - cbn [fst snd]. split; [split; [exact Hready | intros _; exact (Hidle eq_refl)] |].
      split; [constructor |].
      unfold pending. rewrite (Hidle eq_refl). split; reflexivity. }
  destruct inputs as [| [| channel0 others] rest].
  - destruct Hflush as (H1 & H2 & H3 & H4).
    split; [exact H1 |]. split; [exact H2 |]. split; [exact H3 | intros _; exact H4].
  - (* an input without channels *)
    assert (Hsame : Worklet.process ([] :: rest) w = Worklet.process [] w)
      by reflexivity.
    rewrite Hsame. destruct Hflush as (H1 & H2 & H3 & H4).
    split; [exact H1 |]. split; [exact H2 |].
    split; [exact H3 | intros H; discriminate H].
  - cbn [Worklet.process heard]. unfold Worklet.processChunk.
    set (w0 := {| Worklet.buffer := Worklet.buffer w;
                  Worklet.bufferWriteIndex := Worklet.bufferWriteIndex w;
                  Worklet.isReceivingAudio := true |}).
    assert (Hready0 : ready w0) by exact Hready.
    destruct (processChunk_spec channel0 w0 [] Hready0 (Forall_nil _))
      as (Hr & Hfull & Hcons).
    pose proof (processChunk_receiving channel0 (w0, [])) as Hrec.
    cbv zeta in *. cbn [fst] in Hrec.
    split; [split; [exact Hr | intros H; rewrite Hrec in H; discriminate H] |].
    split.
    + eapply Forall_impl; [| exact Hfull].
      intros chunk Hc. unfold is_chunk. rewrite Hc. unfold Worklet.BUFFER_SIZE. lia.
    + split; [exact Hcons | intros H; discriminate H].
Qed.

Lemma process_all_spec (quanta : list (list (list (list Q)))) :
  forall (acc : Worklet.AudioProcessingWorklet * list (list Z)),
    capturing (fst acc) ->
    Forall is_chunk (snd acc) ->
    let r := fold_left
               (fun acc inputs =>
                  let (w1, chunks) := Worklet.process inputs (fst acc) in
                  (w1, (snd acc ++ chunks)%list))
               quanta acc in
    capturing (fst r)
    /\ Forall is_chunk (snd r)
    /\ (List.concat (snd r) ++ pending (fst r)
        = List.concat (snd acc) ++ pending (fst acc)
          ++ map converted (flat_map heard quanta))%list.
Proof.
  induction quanta as [| inputs quanta IH]; intros [w posted] Hcap Hposted.
  - cbn [fold_left flat_map map fst snd]. split; [exact Hcap |].
    split; [exact Hposted |]. rewrite app_nil_r. reflexivity.
  - cbn [fold_left flat_map fst snd] in *.
    destruct (process_spec inputs w Hcap) as (H1 & H2 & H3 & _).
    destruct (Worklet.process inputs w) as [w1 chunks]. cbn [fst snd] in *.
    assert (Hposted1 : Forall is_chunk (posted ++ chunks)%list)
      by (apply Forall_app; split; assumption).
    destruct (IH (w1, (posted ++ chunks)%list) H1 Hposted1) as (H4 & H5 & H6).
    split; [exact H4 |]. split; [exact H5 |].
    cbn [fst snd] in H6. rewrite H6, concat_app, map_app, <- app_assoc.
    f_equal. rewrite !app_assoc, H3. reflexivity.
Qed.

Lemma initial_capturing : capturing Worklet.initial.
Proof. split; [exact initial_ready | reflexivity]. Qed.

(** X14.  The processor over a whole stream, from its initial state: for
    any sequence of render quanta, with audio or without, the chunks posted
    so far followed by the samples still in the buffer are exactly the
    converted samples of the first channel of every quantum, in order, none
    lost and none repeated; no posted chunk is empty or longer than the
    buffer; and after a quantum without input nothing is left in the buffer. *)
Theorem capture_stream_is_conserved (quanta : list (list (list (list Q)))) :
  (List.concat (snd (process_all quanta Worklet.initial))
   ++ pending (fst (process_all quanta Worklet.initial))
   = map converted (flat_map heard quanta))%list
  /\ Forall is_chunk (snd (process_all quanta Worklet.initial))
  /\ pending (fst (process_all (quanta ++ [[]]) Worklet.initial)) = [].
Proof.
  destruct (process_all_spec quanta (Worklet.initial, []) initial_capturing
              (Forall_nil _)) as (Hcap & Hchunks & Hcons).
  split; [exact Hcons |]. split; [exact Hchunks |].
  unfold process_all. rewrite fold_left_app. cbn [fold_left].
  fold (process_all quanta Worklet.initial).
  destruct (process_spec [] (fst (process_all quanta Worklet.initial)) Hcap)
    as (_ & _ & _ & Hflush).
  destruct (Worklet.process [] (fst (process_all quanta Worklet.initial)))
    as [w1 chunks].
  cbn [fst] in *. exact (Hflush eq_refl).
Qed.

(** X15.  The conversion of a sample never clips.  Whatever the sample,
    the stored value is the rounded product wrapped to 16 bits.  A sample
    from 65535/65534 (just above 1) up to 2 rounds to 32768 or more and is
    stored 65536 lower, as a negative number: too loud a positive sample
    comes out negative. *)
Theorem loud_sample_wraps (x : Q) (Hlow : (65535 # 65534 <= x)%Q) (Hhigh : (x <= 2)%Q) :
  converted x = (Qfloor (x * (32767 # 1) + (1 # 2))%Q - 65536)%Z
  /\ (-32768 <= converted x < 0)%Z.
Proof.
  unfold converted, Worklet.Math_round, Worklet.ToInt16, Worklet.INT16_MAX.
  change (inject_Z 32767) with (32767 # 1)%Q.
  assert (H1 : (32768 <= Qfloor (x * (32767 # 1) + (1 # 2)))%Z).
  { change 32768%Z with (Qfloor (32768 # 1)). apply Qfloor_resp_le. lra. }
  assert (H2 : (Qfloor (x * (32767 # 1) + (1 # 2)) <= 65534)%Z).
  { change 65534%Z with (Qfloor (131069 # 2)). apply Qfloor_resp_le. lra. }
  set (r := Qfloor (x * (32767 # 1) + (1 # 2))) in *.
  replace ((r + 32768) mod 65536)%Z with (r + 32768 - 65536)%Z.
  - lia.
  - symmetry. rewrite <- (Z.mod_small (r + 32768 - 65536) 65536) by lia.
    replace (r + 32768)%Z with (r + 32768 - 65536 + 1 * 65536)%Z at 1 by lia.
    apply Z.mod_add. lia.
Qed.

Lemma loud_sample_wraps_witness :
  (65535 # 65534 <= 2)%Q /\ (2 <= 2)%Q /\ converted 2 = (-2)%Z.
Proof.
  assert (Hlow : (65535 # 65534 <= 2)%Q) by (unfold Qle; simpl; lia).
  assert (Hhigh : (2 <= 2)%Q) by apply Qle_refl.
  split; [exact Hlow |]. split; [exact Hhigh |].
  exact (proj1 (loud_sample_wraps 2 Hlow Hhigh)).
Defined.


(* ------------------------------------------------------------------ *)
(** ** One handler for each frame *)

Lemma processAudioParts_from_content atob (A : list Element) :
  only (from_handler (Some ServerContentHandler)) (processAudioParts atob A).
Proof.
  induction A as [| part rest IH]; [apply only_ret |].
  simpl. apply only_bind; [apply only_lift | intros d].
  apply only_bind; [| intros _; exact IH].
  destruct d as [base64 |]; [| apply only_ret].
  destruct (truthy (Some base64)); [| apply only_ret].
  unfold log, emit. quiet_step.
Qed.

Lemma handleServerContent_from_content atob (response : JsonValue) :
  only (from_handler (Some ServerContentHandler)) (handleServerContent atob response).
Proof.
  unfold handleServerContent.
  destruct (member "serverContent" response) as [serverContent |]; [| apply only_ret].
  destruct (isInterrupted serverContent); [unfold log, emit; quiet_step |].
  apply only_bind.
  - destruct (isTurnComplete serverContent); unfold log, emit; quiet_step.
  - intros _. destruct (isModelTurn serverContent); [| apply only_ret].
    unfold processModelTurn.
    apply only_bind; [apply only_lift | intros parts].
    apply only_bind; [apply only_lift | intros [audioParts otherParts]].
    apply only_bind; [apply processAudioParts_from_content | intros _].
    destruct otherParts; unfold log, emit; quiet_step.
Qed.

Lemma receive_from_chosen JSON_parse atob (text : string) (r : JsonValue) (c : Client) :
  JSON_parse text = Some r ->
  forallb (from_handler (chosen r))
          (effects (receive JSON_parse atob (Readable text) c)) = true.
Proof.
  intros Hparse. rewrite (receive_parsed _ _ _ _ _ Hparse). unfold chosen.
  destruct (isToolCallMessage r); [reflexivity |].
  destruct (isToolCallCancellationMessage r); [reflexivity |].
  destruct (isSetupCompleteMessage r); [reflexivity |].
  destruct (isServerContenteMessage r); [| reflexivity].
  apply handleServerContent_from_content.
Qed.

(** X16.  A frame is handled by one handler, the one of the first guard
    that accepts it in the order toolCall, toolCallCancellation,
    setupComplete, serverContent: every event [receive] emits for the frame,
    log entries apart, is an event of that handler, so events of two
    handlers never come from one frame and the recognised keys of lower
    priority in the frame are ignored. *)
Theorem one_handler_per_frame
  (JSON_parse : string -> option JsonValue) (atob : JsonValue -> option string)
  (text : string) (r : JsonValue) (c : Client)
  (Hparse : JSON_parse text = Some r) :
  (forall ev h,
      In (Emit ev) (effects (receive JSON_parse atob (Readable text) c)) ->
      handler_of ev = Some h -> chosen r = Some h)
  /\ (forall ev1 ev2 h1 h2,
        In (Emit ev1) (effects (receive JSON_parse atob (Readable text) c)) ->
        In (Emit ev2) (effects (receive JSON_parse atob (Readable text) c)) ->
        handler_of ev1 = Some h1 -> handler_of ev2 = Some h2 -> h1 = h2).
Proof.
  pose proof (receive_from_chosen JSON_parse atob text r c Hparse) as Hall.
  rewrite forallb_forall in Hall.
  assert (Hone : forall ev h,
             In (Emit ev) (effects (receive JSON_parse atob (Readable text) c)) ->
             handler_of ev = Some h -> chosen r = Some h).
  { intros ev h Hin Hh. specialize (Hall _ Hin). unfold from_handler in Hall.
    destruct ev; try discriminate Hh; rewrite Hh in Hall;
      destruct h, (chosen r) as [[] |]; try discriminate Hall; reflexivity. }
  split; [exact Hone |].
  intros ev1 ev2 h1 h2 H1 H2 Hh1 Hh2.
  pose proof (Hone ev1 h1 H1 Hh1) as E1. pose proof (Hone ev2 h2 H2 Hh2) as E2.
  congruence.
Qed.

Lemma one_handler_per_frame_witness :
  Platform.JSON_parse two_key_text = Some two_key_frame
  /\ chosen two_key_frame = Some ToolCallHandler
  /\ effects (receive Platform.JSON_parse Platform.atob (Readable two_key_text)
                (constructor None "key"))
     = [Emit (EvLog {| type := "server.toolCall"; message := LogIncoming two_key_frame |});
        Emit (EvToolCall (Some (JObject [])))].
Proof.
  assert (Hparse : Platform.JSON_parse two_key_text = Some two_key_frame)
    by reflexivity.
  split; [exact Hparse |].
  split; [| reflexivity].
  apply (proj1 (one_handler_per_frame Platform.JSON_parse Platform.atob two_key_text
                  two_key_frame (constructor None "key") Hparse)
           (EvToolCall (Some (JObject []))) ToolCallHandler);
    [right; left; reflexivity | reflexivity].
Defined.


(* ------------------------------------------------------------------ *)
(** ** The label of realtime input *)

Lemma analyzeMediaTypes_from (chunks : list GenerativeContentBlob) :
  forall a v,
    fold_left
      (fun types chunk =>
         (fst types || includes "audio" (mimeType chunk),
          snd types || includes "image" (mimeType chunk)))
      chunks (a, v)
    = (a || existsb mentions_audio chunks, v || existsb mentions_image chunks).
Proof.
  induction chunks as [| chunk chunks IH]; intros a v.
  - simpl. rewrite !orb_false_r. reflexivity.
  - simpl. rewrite IH. unfold mentions_audio, mentions_image.
    rewrite !orb_assoc. reflexivity.
Qed.

Lemma analyzeMediaTypes_exists (chunks : list GenerativeContentBlob) :
  analyzeMediaTypes chunks
  = (existsb mentions_audio chunks, existsb mentions_image chunks).
Proof. unfold analyzeMediaTypes. apply analyzeMediaTypes_from. Qed.

Lemma existsb_same_members {A} (f : A -> bool) (l l' : list A) :
  (forall x, In x l <-> In x l') -> existsb f l = existsb f l'.
Proof.
  intros H. apply eq_true_iff_eq. rewrite !existsb_exists.
  split; intros (x & Hin & Hx); exists x; (split; [apply H; exact Hin | exact Hx]).
Qed.

(** X17.  With a socket stored, [sendRealtimeInput] sends one frame that
    carries the chunks as they are, and logs a label that says only whether
    some chunk's MIME type mentions audio and whether some chunk's mentions
    image (which the label calls video); neither throws nor changes the
    client.  The label does not depend on the order or the number of the
    chunks, only on which chunks there are. *)
Theorem realtime_input_is_labelled
  (chunks : list GenerativeContentBlob) (c : Client) (w : WebSocket)
  (H : ws c = Some w) :
  sendRealtimeInput chunks c
  = (Ok tt, c, [WsSend w (RealtimeInputMessage chunks); realtime_log chunks])
  /\ forall chunks',
       (forall x, In x chunks <-> In x chunks') ->
       realtime_log chunks' = realtime_log chunks.
Proof.
  split.
  - unfold sendRealtimeInput. cbv zeta. rewrite analyzeMediaTypes_exists.
    destruct c as [cur cfg u]. simpl in H. subst cur.
    unfold realtime_log, formatMediaMessage.
    destruct (existsb mentions_audio chunks), (existsb mentions_image chunks);
      reflexivity.
  - intros chunks' Hsame. unfold realtime_log.
    rewrite (existsb_same_members mentions_audio chunks chunks' Hsame).
    rewrite (existsb_same_members mentions_image chunks chunks' Hsame).
    reflexivity.
Qed.

Lemma realtime_input_is_labelled_witness :
  sendRealtimeInput [camera_chunk; microphone_chunk]
    {| ws := Some 0; config := Some example_config; url := defaultUrl |}
  = (Ok tt,
     {| ws := Some 0; config := Some example_config; url := defaultUrl |},
     [WsSend 0 (RealtimeInputMessage [camera_chunk; microphone_chunk]);
      Emit (EvLog {| type := "client.realtimeInput";
                     message := LogText "audio + video" |})]).
Proof.
  exact (proj1 (realtime_input_is_labelled [camera_chunk; microphone_chunk]
                  {| ws := Some 0; config := Some example_config; url := defaultUrl |}
                  0 eq_refl)).
Defined.


(* ------------------------------------------------------------------ *)
(** ** Which config the setup frame carries *)

Lemma step_last_config JSON_parse atob (a : Action) (wd : World) :
  config (client (fst (step JSON_parse atob a wd)))
  = last_config [a] (config (client wd)).
Proof.
  destruct a as [cfg | | parts tc | chunks | tr | w ev | w ev | w ev | w data |];
    try (apply step_config; intros cfg0; discriminate).
  cbn [step]. unfold connect. rewrite exec_eq. reflexivity.
Qed.

Lemma run_last_config JSON_parse atob (actions : list Action) :
  forall wd,
    config (client (snd (run JSON_parse atob actions wd)))
    = last_config actions (config (client wd)).
Proof.
  induction actions as [| a actions IH]; intros wd; [reflexivity |].
  simpl run. pose proof (step_last_config JSON_parse atob a wd) as Hs.
  destruct (step JSON_parse atob a wd) as [wd1 obs]. cbn [fst] in Hs.
  specialize (IH wd1). destruct (run JSON_parse atob actions wd1) as [history wd2].
  cbn [snd] in *. rewrite IH, Hs. reflexivity.
Qed.

(** X18.  The client keeps one config, that of the most recent call of
    [connect]: after any sequence of actions on a freshly built client the
    stored config is the config of the last connect call among them.  So
    when a connecting socket opens, the setup frame it gets carries the config
    of the most recent connect call, which need not be the call that made
    the socket. *)
Theorem setup_carries_latest_config
  (JSON_parse : string -> option JsonValue) (atob : JsonValue -> option string)
  (url : option string) (apiKey : string) (actions : list Action)
  (w : WebSocket) (sock : Socket) (ev : Event)
  (Hsock : nth_error (sockets (snd (run JSON_parse atob actions
                                      (start (constructor url apiKey))))) w
           = Some sock)
  (Hstate : readyState sock = CONNECTING) :
  config (client (snd (run JSON_parse atob actions (start (constructor url apiKey)))))
  = last_config actions None
  /\ exists cfg,
       last_config actions None = Some cfg
       /\ frames_on w (snd (step JSON_parse atob (SocketOpen w ev)
                              (snd (run JSON_parse atob actions
                                      (start (constructor url apiKey))))))
          = [SetupMessage cfg].
Proof.
  pose proof (run_last_config JSON_parse atob actions (start (constructor url apiKey)))
    as Hcfg.
  change (config (client (start (constructor url apiKey)))) with (@None LiveConfig)
    in Hcfg.
  split; [exact Hcfg |].
  assert (Hconf : configured (snd (run JSON_parse atob actions
                                     (start (constructor url apiKey)))))
    by (apply run_configured; left; split; reflexivity).
  destruct (open_sends_setup JSON_parse atob _ w sock ev Hconf Hsock Hstate)
    as (cfg & Hc & Hframes & _).
  exists cfg. split; [rewrite <- Hcfg; exact Hc | exact Hframes].
Qed.

Lemma setup_carries_latest_config_witness :
  frames_on 0
    (snd (step Platform.JSON_parse Platform.atob (SocketOpen 0 open_event)
            (snd (run Platform.JSON_parse Platform.atob
                    [CallConnect example_config; CallConnect other_config]
                    (start (constructor None "key"))))))
  = [SetupMessage other_config].
Proof.
  destruct (setup_carries_latest_config Platform.JSON_parse Platform.atob None "key"
              [CallConnect example_config; CallConnect other_config] 0
              {| attempt := 1; readyState := CONNECTING; settled := false;
                 error_listener := true; close_listener := false |}
              open_event eq_refl eq_refl) as (_ & cfg & Hc & Hframes).
  injection Hc as <-. exact Hframes.
Defined.


(* ------------------------------------------------------------------ *)
(** ** The guards of tool calls and responses *)

Lemma isLiveFunctionCall_shape (v : JsonValue) :
  isLiveFunctionCall (Some v) = call_shaped v.
Proof.
  destruct v as [| b | q | s | items | ms]; try reflexivity.
  - unfold isLiveFunctionCall, candidate_of. simpl. destruct b; reflexivity.
  - unfold isLiveFunctionCall, candidate_of. simpl.
    destruct (Qeq_bool q 0); reflexivity.
  - unfold isLiveFunctionCall, candidate_of. simpl.
    destruct (String.eqb s EmptyString); reflexivity.
  - unfold isLiveFunctionCall, candidate_of, call_shaped. simpl.
    destruct (lookup "name" ms) as [[] |]; try reflexivity;
      destruct (lookup "id" ms) as [[] |]; try reflexivity;
      destruct (lookup "args" ms) as [[] |]; reflexivity.
Qed.

Lemma isLiveFunctionResponse_shape (v : JsonValue) :
  isLiveFunctionResponse (Some v) = response_shaped v.
Proof.
  destruct v as [| b | q | s | items | ms]; try reflexivity.
  - unfold isLiveFunctionResponse, candidate_of. simpl. destruct b; reflexivity.
  - unfold isLiveFunctionResponse, candidate_of. simpl.
    destruct (Qeq_bool q 0); reflexivity.
  - unfold isLiveFunctionResponse, candidate_of. simpl.
    destruct (String.eqb s EmptyString); reflexivity.
  - unfold isLiveFunctionResponse, candidate_of, response_shaped. simpl.
    destruct (lookup "response" ms) as [[] |]; try reflexivity;
      destruct (lookup "id" ms) as [[] |]; reflexivity.
Qed.

Lemma candidate_is_container (v : JsonValue) (candidate : JsonValue) :
  candidate_of (Some v) = Some candidate -> candidate = v /\ is_container v = true.
Proof.
  unfold candidate_of.
  destruct v as [| b | q | s | items | ms]; simpl;
    try discriminate;
    try (destruct b; discriminate);
    try (destruct (Qeq_bool q 0); discriminate);
    try (destruct (String.eqb s EmptyString); discriminate);
    intros H; injection H as <-; split; reflexivity.
Qed.

(** X19.  The guards of tool calls and tool responses, by the shape of the
    JSON value.  [isToolCall] accepts exactly an object whose functionCalls
    is an array of objects that each have a string name, a string id and an
    args that is an object or an array; [isToolResponse] accepts exactly an
    object whose functionResponses is an array of objects that each have a
    string id and a response that is an object, an array or null.  An
    array is never accepted as the tool call or response itself, an empty
    list of calls or responses is, and null passes as a response but not as
    args. *)
Theorem tool_guards_by_shape (v : JsonValue) :
  (isToolCall (Some v) = true
   <-> exists ms calls,
         v = JObject ms /\ lookup "functionCalls" ms = Some (JArray calls)
         /\ forallb call_shaped calls = true)
  /\ (isToolResponse (Some v) = true
      <-> exists ms responses,
            v = JObject ms /\ lookup "functionResponses" ms = Some (JArray responses)
            /\ forallb response_shaped responses = true)
  /\ isToolCall None = false
  /\ isToolResponse None = false.
Proof.
  assert (Hcalls : forall items,
             forallb (fun item => isLiveFunctionCall (Some item)) items
             = forallb call_shaped items).
  { induction items as [| x items IH]; [reflexivity |].
    simpl. rewrite IH, isLiveFunctionCall_shape. reflexivity. }
  assert (Hresponses : forall items,
             forallb (fun item => isLiveFunctionResponse (Some item)) items
             = forallb response_shaped items).
  { induction items as [| x items IH]; [reflexivity |].
    simpl. rewrite IH, isLiveFunctionResponse_shape. reflexivity. }
  split; [| split; [| split; reflexivity]].
  - unfold isToolCall. split.
    + destruct (candidate_of (Some v)) as [candidate |] eqn:Hc; [| discriminate].
      apply candidate_is_container in Hc. destruct Hc as [-> Hcont].
      destruct v as [| | | | items | ms]; try discriminate Hcont; [discriminate |].
      simpl. destruct (lookup "functionCalls" ms) as [[| | | | calls |] |] eqn:Hl;
        try discriminate.
      simpl. rewrite Hcalls. intros H. exists ms, calls. auto.
    + intros (ms & calls & -> & Hl & Hall).
      unfold candidate_of. simpl. rewrite Hl. simpl. rewrite Hcalls. exact Hall.
  - unfold isToolResponse. split.
    + destruct (candidate_of (Some v)) as [candidate |] eqn:Hc; [| discriminate].
      apply candidate_is_container in Hc. destruct Hc as [-> Hcont].
      destruct v as [| | | | items | ms]; try discriminate Hcont; [discriminate |].
      simpl. destruct (lookup "functionResponses" ms) as [[| | | | responses |] |] eqn:Hl;
        try discriminate.
      simpl. rewrite Hresponses. intros H. exists ms, responses. auto.
    + intros (ms & responses & -> & Hl & Hall).
      unfold candidate_of. simpl. rewrite Hl. simpl. rewrite Hresponses. exact Hall.
Qed.


(* ------------------------------------------------------------------ *)
(** ** Server content that says nothing *)

(** X20.  A frame that reaches the server-content handler with a content
    that is not interrupted, has no boolean turnComplete and no modelTurn
    (null, an array and the empty object are such contents) is swallowed:
    [receive] returns without an event, a log entry or a console warning,
    unlike a frame that no guard accepts. *)
Theorem empty_server_content_is_silent
  (JSON_parse : string -> option JsonValue) (atob : JsonValue -> option string)
  (text : string) (r sc : JsonValue) (c : Client)
  (Hparse : JSON_parse text = Some r)
  (Hchosen : chosen r = Some ServerContentHandler)
  (Hcontent : member "serverContent" r = Some sc)
  (Hempty : isInterrupted sc || isTurnComplete sc || isModelTurn sc = false) :
  receive JSON_parse atob (Readable text) c = (Ok tt, c, []).
Proof.
  rewrite (receive_parsed _ _ _ _ _ Hparse).
  unfold chosen in Hchosen.
  destruct (isToolCallMessage r); [discriminate Hchosen |].
  destruct (isToolCallCancellationMessage r); [discriminate Hchosen |].
  destruct (isSetupCompleteMessage r); [discriminate Hchosen |].
  destruct (isServerContenteMessage r); [| discriminate Hchosen].
  apply orb_false_iff in Hempty. destruct Hempty as [Hempty Hm].
  apply orb_false_iff in Hempty. destruct Hempty as [Hi Ht].
  unfold handleServerContent. rewrite Hcontent, Hi, Ht, Hm. reflexivity.
Qed.

Lemma empty_server_content_is_silent_witness :
  Platform.JSON_parse null_content_text = Some null_content_frame
  /\ receive Platform.JSON_parse Platform.atob (Readable null_content_text)
       (constructor None "key")
     = (Ok tt, constructor None "key", []).
Proof.
  split; [reflexivity |].
  apply (empty_server_content_is_silent Platform.JSON_parse Platform.atob
           null_content_text null_content_frame JNull (constructor None "key"));
    reflexivity.
Defined.


(* ------------------------------------------------------------------ *)
(** ** What disconnect and a late error do not do *)

Lemma disconnect_untouched (c : Client) (i : WebSocket) :
  ws c <> Some i ->
  forallb (fun e => negb (touches i e)) (effects (disconnect None c)) = true.
Proof.
  intros H. destruct c as [[cur |] cfg u]; [| reflexivity].
  unfold disconnect, bind, gets, effects. cbn.
  destruct (Nat.eqb_spec cur i) as [-> | Hne]; [exfalso; apply H; reflexivity |].
  reflexivity.
Qed.

(** X21.  [disconnect()] cancels nothing that is pending.  In a world a
    freshly built client can reach, the call leaves every retry delay running
    and every socket other than the stored one as it is, and keeps the config;
    so a socket that was still connecting when [disconnect()] was called
    opens afterwards as if nothing had happened: it gets the setup frame and
    becomes the stored socket. *)
Theorem disconnect_cancels_nothing
  (JSON_parse : string -> option JsonValue) (atob : JsonValue -> option string)
  (wd : World) (w : WebSocket) (sock : Socket) (ev : Event)
  (Hreach : reachable JSON_parse atob wd)
  (Hsock : nth_error (sockets wd) w = Some sock)
  (Hstate : readyState sock = CONNECTING) :
  let wd' := fst (step JSON_parse atob CallDisconnect wd) in
  timers wd' = timers wd
  /\ config (client wd') = config (client wd)
  /\ nth_error (sockets wd') w = Some sock
  /\ ws (client (fst (step JSON_parse atob (SocketOpen w ev) wd'))) = Some w
  /\ exists cfg, frames_on w (snd (step JSON_parse atob (SocketOpen w ev) wd'))
                 = [SetupMessage cfg].
Proof.
  cbv zeta. cbn [step].
  assert (Hinv : stored_socket_open wd = true).
  { destruct Hreach as (url & apiKey & actions & ->).
    apply run_stored_open. reflexivity. }
  assert (Hother : ws (client wd) <> Some w).
  { intros Hw. unfold stored_socket_open, linked in Hinv.
    rewrite Hw, Hsock, Hstate in Hinv. discriminate Hinv. }
  destruct (call_world (disconnect None) wd) as [Hs Ht].
  assert (Hsame : nth_error (sockets (fst (call (disconnect None) wd))) w = Some sock).
  { rewrite Hs, apply_effects_untouched; [exact Hsock |].
    apply disconnect_untouched. exact Hother. }
  assert (Hcfg : config (client (fst (call (disconnect None) wd))) = config (client wd)).
  { apply call_keeps_config. intros c. apply disconnect_keeps_config. }
  split; [exact Ht |]. split; [exact Hcfg |]. split; [exact Hsame |].
  assert (Hconf : configured (fst (call (disconnect None) wd))).
  { right. rewrite Hcfg.
    destruct (reachable_configured JSON_parse atob wd Hreach) as [[Hnil _] | Hc];
      [rewrite Hnil in Hsock; destruct w; discriminate Hsock | exact Hc]. }
  destruct (open_sends_setup JSON_parse atob _ w sock ev Hconf Hsame Hstate)
    as (cfg & _ & Hframes & _ & Hstored).
  split; [exact Hstored |]. exists cfg. exact Hframes.
Qed.

Lemma disconnect_cancels_nothing_witness :
  reachable Platform.JSON_parse Platform.atob connecting_world
  /\ ws (client (fst (step Platform.JSON_parse Platform.atob (SocketOpen 0 open_event)
                        (fst (step Platform.JSON_parse Platform.atob CallDisconnect
                                connecting_world)))))
     = Some 0.
Proof.
  assert (H : reachable Platform.JSON_parse Platform.atob connecting_world).
  { exists None, "key", [CallConnect example_config]. reflexivity. }
  split; [exact H |].
  exact (proj1 (proj2 (proj2 (proj2
           (disconnect_cancels_nothing Platform.JSON_parse Platform.atob
              connecting_world 0
              {| attempt := 1; readyState := CONNECTING; settled := false;
                 error_listener := true; close_listener := false |}
              open_event H eq_refl eq_refl))))).
Defined.

(** X22.  Once a socket is stored, its error events are not heard: the
    error listener was removed when the socket opened, so in every world a
    freshly built client can reach an error event on the stored socket
    changes nothing and shows nothing, neither a log entry nor an event. *)
Theorem error_after_open_is_ignored
  (JSON_parse : string -> option JsonValue) (atob : JsonValue -> option string)
  (wd : World) (w : WebSocket) (ev : Event)
  (Hreach : reachable JSON_parse atob wd)
  (Hstored : ws (client wd) = Some w) :
  step JSON_parse atob (SocketError w ev) wd = (wd, []).
Proof.
  assert (Hinv : stored_socket_open wd = true).
  { destruct Hreach as (url & apiKey & actions & ->).
    apply run_stored_open. reflexivity. }
  destruct (stored_open_elim wd w Hinv Hstored) as (s & Hs & Hl).
  cbn [step]. rewrite Hs.
  unfold linked in Hl. destruct (readyState s); try discriminate Hl.
  apply andb_true_iff in Hl. destruct Hl as [He _].
  apply negb_true_iff in He. rewrite He. reflexivity.
Qed.

Lemma error_after_open_is_ignored_witness :
  reachable Platform.JSON_parse Platform.atob opened_world
  /\ step Platform.JSON_parse Platform.atob (SocketError 0 error_event) opened_world
     = (opened_world, []).
Proof.
  assert (H : reachable Platform.JSON_parse Platform.atob opened_world).
  { exists None, "key", [CallConnect example_config; SocketOpen 0 open_event].
    reflexivity. }
  split; [exact H |].
  exact (error_after_open_is_ignored Platform.JSON_parse Platform.atob
           opened_world 0 error_event H eq_refl).
Defined.
